(** * AIONEX live-preview engine: a shallow embedding of
      [src/components/AgentsPanel.tsx] and the properties of its specification.

    The development follows the source file top to bottom: the pure helpers
    ([resolvePath], [getMimeType]), the document builder ([generatePreview]),
    the two halves of the network bridge (the host listener
    [handleIframeMessage] and the shim carried by [fetchOverrideScript]) and
    the overlay write-back ([updateCodeFromDOM], [updateElementInCode],
    [handleAlign], [handleStyle]).

    A JavaScript string is modelled by the bytes of its UTF-8 encoding; every
    separator and keyword the code tests for is ASCII.  The file table, a
    [Record<string, string>], is a plain object: its own properties are a
    [gmap string string], and a read by key that finds no own property goes
    on to [Object.prototype] ([JsObject.get]). *)

From Stdlib Require Import Ascii String List ZArith Lia.
From stdpp Require Import base option list strings gmap pretty.

Set Warnings "-register-all".

(** ** String primitives of the host language *)

Module JsString.

(** [s.split(sep)] for a one-character separator: never empty, the empty
    string splits into one empty segment. *)
Fixpoint split (sep : ascii) (s : string) : list string :=
  match s with
  | EmptyString => [EmptyString]
  | String c s' =>
      if Ascii.eqb c sep then EmptyString :: split sep s'
      else match split sep s' with
           | [] => [String c EmptyString]
           | seg :: segs => String c seg :: segs
           end
  end.

(** [a.join(sep)] *)
Definition join (sep : string) (a : list string) : string :=
  String.concat sep a.

(** [s.startsWith(p)] *)
Definition startsWith (s p : string) : bool := String.prefix p s.

(** [s.slice(-1)]: the last character, empty on the empty string. *)
Fixpoint slice_last (s : string) : string :=
  match s with
  | EmptyString => EmptyString
  | String c EmptyString => String c EmptyString
  | String _ s' => slice_last s'
  end.

Definition lower_ascii (c : ascii) : ascii :=
  let n := nat_of_ascii c in
  if (65 <=? n)%nat && (n <=? 90)%nat then ascii_of_nat (n + 32) else c.

(** [s.toLowerCase()] on the ASCII letters. *)
Fixpoint toLowerCase (s : string) : string :=
  match s with
  | EmptyString => EmptyString
  | String c s' => String (lower_ascii c) (toLowerCase s')
  end.

(** [s.includes(sub)] *)
Fixpoint includes (s sub : string) : bool :=
  String.prefix sub s ||
  match s with
  | EmptyString => false
  | String _ s' => includes s' sub
  end.

(** the character [c] occurs in [s] *)
Fixpoint has_char (c : ascii) (s : string) : bool :=
  match s with
  | EmptyString => false
  | String d s' => Ascii.eqb d c || has_char c s'
  end.

(** JavaScript truthiness of a string value that may be [undefined]. *)
Definition truthy (v : option string) : bool :=
  match v with
  | Some (String _ _) => true
  | _ => false
  end.

End JsString.

(** ** Array primitives *)

Module JsArray.

(** [a.pop()] as a state change: drops the last element, no-op on []. *)
Definition pop {A} (a : list A) : list A := removelast a.

(** the value returned by [a.pop()] *)
Definition popped {A} (a : list A) : option A := last a.

Definition push {A} (a : list A) (x : A) : list A := a ++ [x].

End JsArray.

(** ** Plain objects used as tables *)

Module JsObject.

(** What a read [o[key]] can yield on a plain object whose own properties
    hold strings. *)
Inductive JsValue :=
| Undefined
| Str (s : string)
(** the built-in function that [Object.prototype] holds under [key] *)
| NativeFunction (key : string)
(** [Object.prototype] itself (what the inherited getter [__proto__]
    returns), or its structured clone: an object without own enumerable
    properties *)
| EmptyObject.

(** the properties of [Object.prototype] that hold functions *)
Definition prototypeMethods : list string :=
  ["constructor"; "__defineGetter__"; "__defineSetter__"; "hasOwnProperty";
   "__lookupGetter__"; "__lookupSetter__"; "isPrototypeOf";
   "propertyIsEnumerable"; "toString"; "valueOf"; "toLocaleString"].

(** [o[key]]: an own property first, then the prototype *)
Definition get (o : gmap string string) (key : string) : JsValue :=
  match o !! key with
  | Some s => Str s
  | None =>
      if String.eqb key "__proto__" then EmptyObject
      else if bool_decide (key ∈ prototypeMethods) then NativeFunction key
      else Undefined
  end.

(** The assignment [o[key] = value] of a string.  Without an own property
    [__proto__] the assignment reaches the inherited setter, which ignores a
    value that is no object: nothing is stored. *)
Definition set (o : gmap string string) (key value : string) : gmap string string :=
  if String.eqb key "__proto__" && bool_decide (o !! key = None) then o
  else <[key := value]> o.

(** truthiness *)
Definition truthy (v : JsValue) : bool :=
  match v with
  | Undefined | Str EmptyString => false
  | _ => true
  end.

(** [v || ''] read as text, for a value that is a string or [undefined].
    The code reads this way only under keys that end in [index.html], which
    no property of [Object.prototype] does. *)
Definition orEmpty (v : JsValue) : string :=
  match v with
  | Str s => s
  | _ => EmptyString
  end.

End JsObject.

Export JsObject (JsValue, Undefined, Str, NativeFunction, EmptyObject).


(** ** Path resolver and content-type table (lines 46-80) *)

Definition resolve_segment (stack : list string) (part : string) : list string :=
  if String.eqb part "." then stack
  else if String.eqb part ".." then JsArray.pop stack
  else JsArray.push stack part.

Definition resolvePath (base relative : string) : string :=
  let stack := JsString.split "/" base in
  let stack := if negb (String.eqb (JsString.slice_last base) "/")
               then JsArray.pop stack else stack in
  let parts := JsString.split "/" relative in
  JsString.join "/" (fold_left resolve_segment parts stack).

Definition extension_of (path : string) : string :=
  JsString.toLowerCase (default "" (JsArray.popped (JsString.split "." path))).

Definition getMimeType (path : string) : string :=
  let extension := extension_of path in
  if String.eqb extension "html" then "text/html"
  else if String.eqb extension "css" then "text/css"
  else if String.eqb extension "js" then "application/javascript"
  else if String.eqb extension "json" then "application/json"
  else if String.eqb extension "png" then "image/png"
  else if String.eqb extension "jpg" then "image/jpeg"
  else if String.eqb extension "jpeg" then "image/jpeg"
  else if String.eqb extension "gif" then "image/gif"
  else if String.eqb extension "svg" then "image/svg+xml"
  else if String.eqb extension "md" then "text/markdown"
  else "application/octet-stream".

(** ** The document object model handed out by the platform

    The builder and the overlay never touch markup text directly: they call
    the platform's parser, walk and mutate the resulting tree, and call a
    serializer.  The tree is modelled as data; the parsers and the
    serializers are the platform's and come in through [Platform]. *)

Module Dom.

(** the attributes of an element, in source order; a value is the text the
    attribute holds, verbatim *)
Definition attrs := list (string * string).

Inductive node :=
| Text (data : string)
| Comment (data : string)
| Element (tag : string) (atts : attrs) (children : list node).

Fixpoint lookup_attr (name : string) (a : attrs) : option string :=
  match a with
  | [] => None
  | (k, v) :: a' => if String.eqb k name then Some v else lookup_attr name a'
  end.

(** [el.hasAttribute(name)] *)
Definition hasAttribute (name : string) (a : attrs) : bool :=
  bool_decide (is_Some (lookup_attr name a)).

(** [el.getAttribute(name)], [None] for [null] *)
Definition getAttribute (name : string) (a : attrs) : option string :=
  lookup_attr name a.

Fixpoint replace_attr (name value : string) (a : attrs) : attrs :=
  match a with
  | [] => [(name, value)]
  | (k, w) :: a' =>
      if String.eqb k name then (k, value) :: a'
      else (k, w) :: replace_attr name value a'
  end.

(** [el.setAttribute(name, value)]: in place when present, else appended. *)
Definition setAttribute (name value : string) (a : attrs) : attrs :=
  replace_attr name value a.

(** *** Positions in the tree *)

(** child indices from the root *)
Definition path := list nat.

Fixpoint node_at (p : path) (n : node) : option node :=
  match p with
  | [] => Some n
  | i :: p' =>
      match n with
      | Element _ _ ch => ch !! i ≫= node_at p'
      | _ => None
      end
  end.

Fixpoint update_at (p : path) (f : node → node) (n : node) : node :=
  match p with
  | [] => f n
  | i :: p' =>
      match n with
      | Element tag a ch => Element tag a (alter (update_at p' f) i ch)
      | _ => n
      end
  end.

(** the matches found under the children [l], numbered from [i] *)
Definition index_paths (f : node → list path) : nat → list node → list path :=
  fix children (i : nat) (l : list node) : list path :=
    match l with
    | [] => []
    | c :: l' => map (cons i) (f c) ++ children (S i) l'
    end.

(** positions of the elements satisfying [sel], in document order *)
Fixpoint select (sel : string → attrs → bool) (n : node) : list path :=
  match n with
  | Element tag a ch =>
      (if sel tag a then [[]] else []) ++ index_paths (select sel) 0%nat ch
  | _ => []
  end.

(** [querySelector] for a selector that tests one element at a time: the
    first match in document order *)
Definition querySelector (sel : string → attrs → bool) (n : node) : option path :=
  head (select sel n).

Definition map_attrs (f : attrs → attrs) (n : node) : node :=
  match n with
  | Element tag a ch => Element tag (f a) ch
  | _ => n
  end.

Definition set_children (ch : list node) (n : node) : node :=
  match n with
  | Element tag a _ => Element tag a ch
  | _ => n
  end.

Definition children_of (n : node) : list node :=
  match n with
  | Element _ _ ch => ch
  | _ => []
  end.

Definition is_element (tag : string) (n : node) : bool :=
  match n with
  | Element t _ _ => String.eqb t tag
  | _ => false
  end.

(** index of the first child element named [tag] *)
Fixpoint child_index (tag : string) (l : list node) : option nat :=
  match l with
  | [] => None
  | c :: l' => if is_element tag c then Some 0%nat else S <$> child_index tag l'
  end.

(** [doc.head] and [doc.body], as positions under the root element *)
Definition head_path (doc : node) : option path :=
  (λ i, [i]) <$> child_index "head" (children_of doc).
Definition body_path (doc : node) : option path :=
  (λ i, [i]) <$> child_index "body" (children_of doc).

Definition body_of (doc : node) : option node :=
  body_path doc ≫= λ p, node_at p doc.

(** *** Inline style

    [el.style] is the declaration block the platform parses from the text
    of the [style] attribute.  The attribute keeps its text verbatim until a
    write through [el.style] changes the block; it is then set to the
    serialization of the block. *)

Record decl := { declName : string; declValue : string; declImportant : bool }.

Definition decls := list decl.

(** the value of a longhand property, the empty string when undeclared *)
Fixpoint decl_get (prop : string) (ds : decls) : string :=
  match ds with
  | [] => ""
  | d :: ds' => if String.eqb (declName d) prop then declValue d else decl_get prop ds'
  end.

Definition declared (prop : string) (ds : decls) : bool :=
  existsb (λ d, String.eqb (declName d) prop) ds.

(** declared with this value and without [!important] *)
Fixpoint declared_as (prop value : string) (ds : decls) : bool :=
  match ds with
  | [] => false
  | d :: ds' =>
      if String.eqb (declName d) prop
      then String.eqb (declValue d) value && negb (declImportant d)
      else declared_as prop value ds'
  end.

Fixpoint decl_remove (prop : string) (ds : decls) : decls :=
  match ds with
  | [] => []
  | d :: ds' =>
      if String.eqb (declName d) prop then decl_remove prop ds'
      else d :: decl_remove prop ds'
  end.

(** in place when declared, else appended; the priority is cleared *)
Fixpoint decl_set (prop value : string) (ds : decls) : decls :=
  match ds with
  | [] => [{| declName := prop; declValue := value; declImportant := false |}]
  | d :: ds' =>
      if String.eqb (declName d) prop
      then {| declName := prop; declValue := value; declImportant := false |} :: ds'
      else d :: decl_set prop value ds'
  end.

(** The platform services the source calls. *)
Class Platform := {
  (** [new DOMParser().parseFromString(text, 'text/html')], the root element *)
  parseFromString : string → node;
  (** [new XMLSerializer().serializeToString(doc)] *)
  serializeToString : node → string;
  (** the getter [el.innerHTML], on the children of an element that is
      not a raw-text container (the source reads it on [body]) *)
  innerHTML : list node → string;
  (** what the setter [el.innerHTML = text] installs as children of [el] *)
  parseFragment : node → string → list node;
  (** the declaration block parsed from the text of a [style] attribute *)
  parseStyle : string → decls;
  (** the text a declaration block is serialized to *)
  serializeStyle : decls → string;
  (** [doc.querySelector(text)] for a selector given as text: [None] when
      the text is no selector (the call raises a [SyntaxError]), else the
      first match, if any *)
  querySelectorText : string → node → option (option path);
}.

Section Style.
Context {platform : Platform}.

Definition style_block (a : attrs) : decls :=
  match getAttribute "style" a with
  | Some text => parseStyle text
  | None => []
  end.

(** reading [el.style.prop] for a longhand property *)
Definition style_get (prop : string) (a : attrs) : string :=
  decl_get prop (style_block a).

(** Assigning [el.style.prop = value], for a longhand property and a value
    that is empty or a keyword of the property.  The empty string removes
    the declaration.  The attribute is rewritten only when the block
    changes: removing what is not declared, or setting what is declared
    with the same value, leaves the attribute as it is. *)
Definition style_set (prop value : string) (a : attrs) : attrs :=
  let ds := style_block a in
  if String.eqb value "" then
    if declared prop ds
    then setAttribute "style" (serializeStyle (decl_remove prop ds)) a
    else a
  else
    if declared_as prop value ds then a
    else setAttribute "style" (serializeStyle (decl_set prop value ds)) a.

End Style.

End Dom.

Import Dom.

(** ** Object URLs and the console *)

(** A blob made by [new Blob([part], { type })]: the one part handed to the
    constructor, and the type. *)
Record Blob := { blobParts : JsValue; blobType : string }.

(** What the page holds of the browser: the object URLs that are live, how
    many were ever minted, and the console. *)
Record Browser := {
  objectURLs : list (string * Blob);
  minted : nat;
  console : list string;
}.

Definition freshBrowser : Browser :=
  {| objectURLs := []; minted := 0; console := [] |}.

(** [URL.createObjectURL(blob)]: a URL never handed out before. *)
Definition createObjectURL (blob : Blob) (br : Browser) : string * Browser :=
  let url := "blob:" +:+ pretty (minted br) in
  (url, {| objectURLs := objectURLs br ++ [(url, blob)];
           minted := S (minted br);
           console := console br |}).

(** [console.warn] and [console.error] *)
Definition console_log (line : string) (br : Browser) : Browser :=
  {| objectURLs := objectURLs br; minted := minted br;
     console := console br ++ [line] |}.

(** The file table: [FileSystemState = Record<string, string>], by its own
    properties.  The code reads it with [JsObject.get]. *)
Abbreviation FileSystemState := (gmap string string).

(** ** The document builder (lines 171-261) *)

Definition fetchOverrideScript : string :=
    "(function() {" +:+
    "    const originalFetch = window.fetch;" +:+
    "    const pendingRequests = new Map();" +:+
    "    window.addEventListener('message', (event) => {" +:+
    "        if (event.source !== window.parent) return;" +:+
    "        const { type, requestId, content, status, headers } = event.data;" +:+
    "        if (type === 'FETCH_RESPONSE' && pendingRequests.has(requestId)) {" +:+
    "            const { resolve, reject } = pendingRequests.get(requestId);" +:+
    "            pendingRequests.delete(requestId);" +:+
    "            if (status >= 200 && status < 300) {" +:+
    "                const response = new Response(content, { status, headers });" +:+
    "                resolve(response);" +:+
    "            } else {" +:+
    "                reject(new Error(`Fetch failed with status: ${status}`));" +:+
    "            }" +:+
    "        }" +:+
    "    });" +:+
    "    window.fetch = function(input, init) {" +:+
    "        const url = (input instanceof Request) ? input.url : input.toString();" +:+
    "        if (url.startsWith('http') || url.startsWith('//') || url.startsWith('data:')) {" +:+
    "            return originalFetch.apply(this, arguments);" +:+
    "        }" +:+
    "        return new Promise((resolve, reject) => {" +:+
    "            const requestId = `req_${Date.now()}_${Math.random()}`;" +:+
    "            pendingRequests.set(requestId, { resolve, reject });" +:+
    "            const absoluteUrl = new URL(url, window.location.href).pathname;" +:+
    "            window.parent.postMessage({" +:+
    "                type: 'FETCH_REQUEST'," +:+
    "                path: absoluteUrl," +:+
    "                requestId: requestId" +:+
    "            }, '*');" +:+
    "        });" +:+
    "    };" +:+
    "})();".

Definition noRootDocument : string :=
  "<html><body>No preview root selected.</body></html>".

Definition noIndexDocument (previewRoot : string) : string :=
  "<html><body>No index.html found in preview root: " +:+ previewRoot +:+
  ". Select a folder with an index.html file to preview, or create an index.html.</body></html>".

Definition errorDocument : string :=
  "<html><body>Error generating preview. Check console for details.</body></html>".

(** [`${previewRoot}index.html`] *)
Definition indexPathOf (previewRoot : string) : string :=
  previewRoot +:+ "index.html".

(** ['link[href], script[src], img[src], source[srcset]'] *)
Definition assetSelectors (tag : string) (a : attrs) : bool :=
  String.eqb tag "link" && hasAttribute "href" a
  || String.eqb tag "script" && hasAttribute "src" a
  || String.eqb tag "img" && hasAttribute "src" a
  || String.eqb tag "source" && hasAttribute "srcset" a.

Definition srcAttrOf (a : attrs) : string :=
  if hasAttribute "href" a then "href"
  else if hasAttribute "src" a then "src" else "srcset".

(** the test that makes the loop [continue] on a reference *)
Definition skipsReference (originalPath : option string) : bool :=
  negb (JsString.truthy originalPath)
  || JsString.startsWith (default "" originalPath) "http"
  || JsString.startsWith (default "" originalPath) "data:".

(** the path looked up for a reference that is not skipped *)
Definition assetPathOf (indexPath originalPath : string) : string :=
  if JsString.startsWith originalPath "/" then originalPath
  else resolvePath indexPath originalPath.

(** One turn of the loop over the asset-bearing elements, on the attributes
    of the element at hand. *)
Definition rewriteAsset (fileSystem : FileSystemState) (indexPath : string)
    (a : attrs) (br : Browser) : attrs * Browser :=
  let srcAttr := srcAttrOf a in
  let originalPath := getAttribute srcAttr a in
  if skipsReference originalPath then (a, br)
  else
    let assetPath := assetPathOf indexPath (default "" originalPath) in
    let assetContent := JsObject.get fileSystem assetPath in
    if JsObject.truthy assetContent then
      let blob := {| blobParts := assetContent;
                     blobType := getMimeType assetPath |} in
      let '(blobUrl, br') := createObjectURL blob br in
      (setAttribute srcAttr blobUrl a, br')
    else
      (a, console_log ("Asset not found in file system: " +:+ assetPath) br).

Definition rewriteAt (fileSystem : FileSystemState) (indexPath : string)
    (acc : node * Browser) (p : path) : node * Browser :=
  match node_at p acc.1 with
  | Some (Element _ a _) =>
      let '(a', br') := rewriteAsset fileSystem indexPath a acc.2 in
      (update_at p (map_attrs (λ _, a')) acc.1, br')
  | _ => acc
  end.

(** the [for (const el of elements)] loop *)
Definition rewriteAssets (fileSystem : FileSystemState) (indexPath : string)
    (doc : node) (br : Browser) : node * Browser :=
  fold_left (rewriteAt fileSystem indexPath) (select assetSelectors doc) (doc, br).

(** [doc.head.insertBefore(scriptEl, doc.head.firstChild)]; [None] when the
    document has no head, where the source raises a TypeError. *)
Definition injectShim (doc : node) : option node :=
  let scriptEl := Element "script" [] [Text fetchOverrideScript] in
  (λ p, update_at p (λ h, set_children (scriptEl :: children_of h) h) doc)
    <$> head_path doc.

Section Builder.
Context {platform : Platform}.

(** [generatePreview]: the text handed to [setSrcDoc], and the browser
    after the call. *)
Definition generatePreview (fileSystem : FileSystemState)
    (previewRoot : option string) (br : Browser) : string * Browser :=
  if negb (JsString.truthy previewRoot) then (noRootDocument, br)
  else
    let root := default "" previewRoot in
    let indexPath := indexPathOf root in
    match JsObject.get fileSystem indexPath with
    | Undefined => (noIndexDocument root, br)
    | indexContent =>
        let doc := parseFromString (JsObject.orEmpty indexContent) in
        match injectShim doc with
        | None => (errorDocument, console_log "Error generating preview:" br)
        | Some doc =>
            let '(doc, br') := rewriteAssets fileSystem indexPath doc br in
            (serializeToString doc, br')
        end
    end.

(** One regeneration: the debounced effect runs [generatePreview] and
    installs its result as the frame's [srcDoc]. *)
Record Preview := { srcDoc : string; browser : Browser }.

Definition regenerate (fileSystem : FileSystemState)
    (previewRoot : option string) (pv : Preview) : Preview :=
  let '(doc, br) := generatePreview fileSystem previewRoot (browser pv) in
  {| srcDoc := doc; browser := br |}.

End Builder.
(** ** The network bridge

    Messages cross the frame boundary as structured data.  A browsing
    context is identified by a number; [event.source] may be [null]. *)

Definition window := nat.

Definition Headers := list (string * string).

Inductive MessageData :=
| FETCH_REQUEST (path requestId : string)
| FETCH_RESPONSE (requestId : string) (content : JsValue) (status : Z)
                 (headers : Headers)
| OtherData (type : string).

Record MessageEvent := { source : option window; data : MessageData }.

(** *** Host half: [handleIframeMessage] (lines 264-302) *)

(** What the listener closes over and writes to: the file table of the
    render it was installed in, the frame behind [iframeRef.current] (if
    mounted) given by its [contentWindow], the messages posted to that
    window so far, and the exceptions that left the listener. *)
Record Host := {
  fileSystem : FileSystemState;
  iframe : option window;
  posted : list (window * MessageData);
  uncaught : list string;
}.

(** a message can be posted when its structured clone exists: a function
    has none *)
Definition cloneable (m : MessageData) : bool :=
  match m with
  | FETCH_RESPONSE _ (NativeFunction _) _ _ => false
  | _ => true
  end.

(** [target.postMessage(m, '*')]; raises [DataCloneError] and posts nothing
    when [m] cannot be cloned *)
Definition postMessage (target : window) (m : MessageData) (h : Host) : Host :=
  if cloneable m then
    {| fileSystem := fileSystem h; iframe := iframe h;
       posted := posted h ++ [(target, m)]; uncaught := uncaught h |}
  else
    {| fileSystem := fileSystem h; iframe := iframe h;
       posted := posted h; uncaught := uncaught h ++ ["DataCloneError"] |}.

Definition handleIframeMessage (event : MessageEvent) (h : Host) : Host :=
  match iframe h with
  | None => h
  | Some contentWindow =>
      if negb (bool_decide (source event = Some contentWindow)) then h
      else
        match data event with
        | FETCH_REQUEST path requestId =>
            match JsObject.get (fileSystem h) path with
            | Undefined =>
                postMessage contentWindow
                  (FETCH_RESPONSE requestId (Str ("File not found: " +:+ path)) 404
                     [("Content-Type", "text/plain")]) h
            | content =>
                let mimeType := getMimeType path in
                postMessage contentWindow
                  (FETCH_RESPONSE requestId content 200 [("Content-Type", mimeType)]) h
            end
        | _ => h
        end
  end.

(** The listener reacts to an event: it passed the source check and carries
    a request. *)
Definition accepted (event : MessageEvent) (h : Host) : Prop :=
  (∃ w, iframe h = Some w ∧ source event = Some w) ∧
  ∃ path requestId, data event = FETCH_REQUEST path requestId.

(** *** Shim half: the script of [fetchOverrideScript] (lines 191-224) *)

(** A response, by the arguments [new Response(content, { status, headers })]
    built it from. *)
Record Response := {
  body : JsValue;
  status : Z;
  headers : Headers;
}.

(** How a promise returned by the overridden [fetch] ends. *)
Inductive Settlement :=
(** [resolve(response)] *)
| Resolved (response : Response)
(** [reject(new Error(`Fetch failed with status: ${status}`))] *)
| Rejected (status : Z)
(** the executor of the promise raised ([new URL] refused the target): the
    promise is rejected with that [TypeError] *)
| RejectedByExecutor.

(** The state of the script inside the frame: [pendingRequests] maps a
    request id to the promise whose [resolve]/[reject] pair it stores;
    promises are numbered in creation order.  [settled] holds the promises
    that are settled, with their outcome, in the order they were settled;
    [dropped] the promises whose stored pair the listener took out of
    [pendingRequests] and then left uncalled, because it raised;
    [toParent] logs [window.parent.postMessage]; [passedThrough] logs the
    calls handed to [originalFetch]. *)
Record Shim := {
  pendingRequests : gmap string nat;
  promises : nat;
  settled : list (nat * Settlement);
  dropped : list nat;
  toParent : list MessageData;
  passedThrough : list string;
}.

Definition freshShim : Shim :=
  {| pendingRequests := ∅; promises := 0; settled := []; dropped := [];
     toParent := []; passedThrough := [] |}.

(** calling [resolve] or [reject] of a promise: the first call settles it,
    a later one does nothing *)
Definition settle (promise : nat) (how : Settlement) (s : Shim) : Shim :=
  if bool_decide (promise ∈ (settled s).*1) then s
  else
    {| pendingRequests := pendingRequests s; promises := promises s;
       settled := settled s ++ [(promise, how)]; dropped := dropped s;
       toParent := toParent s; passedThrough := passedThrough s |}.

(** the listener raised before calling the pair of [promise] *)
Definition drop_promise (promise : nat) (s : Shim) : Shim :=
  {| pendingRequests := pendingRequests s; promises := promises s;
     settled := settled s; dropped := dropped s ++ [promise];
     toParent := toParent s; passedThrough := passedThrough s |}.

(** [pendingRequests.delete(requestId)] *)
Definition forget (requestId : string) (s : Shim) : Shim :=
  {| pendingRequests := delete requestId (pendingRequests s);
     promises := promises s; settled := settled s; dropped := dropped s;
     toParent := toParent s; passedThrough := passedThrough s |}.

Section ShimFetch.
(** [new URL(url, window.location.href).pathname] inside the frame, [None]
    when the constructor raises *)
Variable pathname : string → option string.
(** whether [new Response(content, { status, headers })] returns; it raises
    on a body together with a status that allows none, and on headers that
    are not well formed *)
Variable constructible : JsValue → Z → Headers → bool.

(** the ['message'] listener of the script; [parent] is [window.parent] *)
Definition shimOnMessage (parent : window) (event : MessageEvent) (s : Shim) : Shim :=
  if negb (bool_decide (source event = Some parent)) then s
  else
    match data event with
    | FETCH_RESPONSE requestId content status headers =>
        match pendingRequests s !! requestId with
        | Some promise =>
            let s := forget requestId s in
            if ((200 <=? status) && (status <? 300))%Z then
              if constructible content status headers
              then settle promise
                     (Resolved {| body := content; status := status;
                                  headers := headers |}) s
              else drop_promise promise s
            else settle promise (Rejected status) s
        | None => s
        end
    | _ => s
    end.

(** [window.fetch(url)]; [requestId] is the id the call draws from the
    clock and the random source.  Returns the state after the call. *)
Definition shimFetch (url requestId : string) (s : Shim) : Shim :=
  if JsString.startsWith url "http" || JsString.startsWith url "//"
     || JsString.startsWith url "data:"
  then
    {| pendingRequests := pendingRequests s; promises := promises s;
       settled := settled s; dropped := dropped s; toParent := toParent s;
       passedThrough := passedThrough s ++ [url] |}
  else
    let promise := promises s in
    let pending := <[requestId := promise]> (pendingRequests s) in
    match pathname url with
    | Some absoluteUrl =>
        {| pendingRequests := pending; promises := S promise;
           settled := settled s; dropped := dropped s;
           toParent := toParent s ++ [FETCH_REQUEST absoluteUrl requestId];
           passedThrough := passedThrough s |}
    | None =>
        {| pendingRequests := pending; promises := S promise;
           settled := settled s ++ [(promise, RejectedByExecutor)];
           dropped := dropped s; toParent := toParent s;
           passedThrough := passedThrough s |}
    end.

(** What happens inside the frame, in order. *)
Inductive ShimEvent :=
| CallFetch (url requestId : string)
| Deliver (event : MessageEvent).

Definition shimStep (parent : window) (s : Shim) (e : ShimEvent) : Shim :=
  match e with
  | CallFetch url requestId => shimFetch url requestId s
  | Deliver event => shimOnMessage parent event s
  end.

Definition shimRun (parent : window) (es : list ShimEvent) (s : Shim) : Shim :=
  fold_left (shimStep parent) es s.

End ShimFetch.

(** ** Overlay write-back (lines 624-637 and 685-708) *)

(** The result of a state updater: the next file table, or the exception it
    raised. *)
Inductive Outcome :=
| Returns (next : FileSystemState)
| Throws (error : string).

(** a template literal prints [null] as the text [null] *)
Definition interpolate (v : option string) : string := default "null" v.

(** the double quote character *)
Definition dquote : ascii := "034".

(** [`[data-editable-id="${id}"]`], the text handed to [querySelector] *)
Definition selectorText (id : string) : string :=
  "[data-editable-id=" +:+ String dquote id +:+ String dquote "]".

(** what that selector tests when [id] stands in it for itself: the
    attribute holds exactly [id] *)
Definition editableSelector (id : string) (tag : string) (a : attrs) : bool :=
  bool_decide (getAttribute "data-editable-id" a = Some id).

(** A character that stands for itself inside a double-quoted string of a
    selector: not the quote, not the backslash that starts an escape, not a
    line break (line feed, form feed, carriage return) and not the null
    character. *)
Definition plainChar (c : ascii) : bool :=
  negb (Ascii.eqb c dquote || Ascii.eqb c "\" || Ascii.eqb c "010"
        || Ascii.eqb c "012" || Ascii.eqb c "013" || Ascii.eqb c "000").

Fixpoint plainId (id : string) : bool :=
  match id with
  | EmptyString => true
  | String c id' => plainChar c && plainId id'
  end.

Inductive Alignment := AlignLeft | AlignCenter | AlignRight.
Inductive Emphasis := Bold | Italic.

Definition alignmentText (alignment : Alignment) : string :=
  match alignment with
  | AlignLeft => "left"
  | AlignCenter => "center"
  | AlignRight => "right"
  end.

Section Overlay.
Context {platform : Platform}.

(** [htmlDoc.querySelector(`[data-editable-id="${id}"]`)]: [None] when the
    call raises.  An identifier of plain characters is the value the
    selector compares the attribute with; any other identifier changes the
    selector itself, and what it then means is the platform's to say. *)
Definition queryEditable (id : string) (htmlDoc : node) : option (option path) :=
  if plainId id then Some (querySelector (editableSelector id) htmlDoc)
  else querySelectorText (selectorText id) htmlDoc.

(** [el => el.style.textAlign = alignment] *)
Definition alignElement (alignment : Alignment) (el : node) : node :=
  map_attrs (style_set "text-align" (alignmentText alignment)) el.

(** the updater of [handleStyle] *)
Definition styleElement (style : Emphasis) (el : node) : node :=
  match style with
  | Bold =>
      map_attrs (λ a, style_set "font-weight"
        (if String.eqb (style_get "font-weight" a) "bold" then "" else "bold") a) el
  | Italic =>
      map_attrs (λ a, style_set "font-style"
        (if String.eqb (style_get "font-style" a) "italic" then "" else "italic") a) el
  end.

(** the tail shared by both updaters: store [htmlDoc.body.innerHTML] *)
Definition storeBody (prev : FileSystemState) (htmlPath : string)
    (htmlDoc : node) : Outcome :=
  match body_of htmlDoc with
  | Some bodyEl => Returns (<[htmlPath := innerHTML (children_of bodyEl)]> prev)
  | None => Throws "TypeError: htmlDoc.body is null"
  end.

(** the updater passed to [setFileSystem] by [updateElementInCode] *)
Definition updateElementInCode (previewRoot : option string) (id : string)
    (updateFn : node → node) (prev : FileSystemState) : Outcome :=
  let htmlPath := indexPathOf (interpolate previewRoot) in
  let html := JsObject.orEmpty (JsObject.get prev htmlPath) in
  let htmlDoc := parseFromString html in
  match queryEditable id htmlDoc with
  | None => Throws "SyntaxError"
  | Some (Some element) => storeBody prev htmlPath (update_at element updateFn htmlDoc)
  | Some None => Returns prev
  end.

(** the updater passed to [setFileSystem] by [updateCodeFromDOM] *)
Definition updateCodeFromDOM (previewRoot : option string) (id newContent : string)
    (prev : FileSystemState) : Outcome :=
  let htmlPath := indexPathOf (interpolate previewRoot) in
  let html := JsObject.orEmpty (JsObject.get prev htmlPath) in
  let htmlDoc := parseFromString html in
  match queryEditable id htmlDoc with
  | None => Throws "SyntaxError"
  | Some (Some el) =>
      storeBody prev htmlPath
        (update_at el (λ e, set_children (parseFragment e newContent) e) htmlDoc)
  | Some None => Returns prev
  end.

Definition handleAlign (previewRoot selectedElementId : option string)
    (alignment : Alignment) (prev : FileSystemState) : Outcome :=
  if JsString.truthy selectedElementId
  then updateElementInCode previewRoot (default "" selectedElementId)
         (alignElement alignment) prev
  else Returns prev.

Definition handleStyle (previewRoot selectedElementId : option string)
    (style : Emphasis) (prev : FileSystemState) : Outcome :=
  if JsString.truthy selectedElementId
  then updateElementInCode previewRoot (default "" selectedElementId)
         (styleElement style) prev
  else Returns prev.

(** running a second updater on the table the first one returned *)
Definition andThen (o : Outcome) (f : FileSystemState → Outcome) : Outcome :=
  match o with
  | Returns next => f next
  | Throws e => Throws e
  end.

End Overlay.

(** ** A reference platform

    An executable instance of the platform services, for input written out
    in full: markup with explicit tags, quoted or bare attribute values,
    comments between [<!--] and [-->], no character references and no
    raw-text elements; style attributes that list longhand declarations
    [name: value] in canonical form; fetch targets of the form
    [scheme:/segments] or without a scheme.  The general theorems below hold
    for every platform; this instance runs the examples. *)

Module RefPlatform.

Definition voidTags : list string :=
  ["area"; "base"; "br"; "col"; "embed"; "hr"; "img"; "input"; "link";
   "meta"; "source"; "track"; "wbr"].

Definition is_void (tag : string) : bool :=
  bool_decide (tag ∈ voidTags).

(** *** Serializers *)

Fixpoint escape (in_attr : bool) (s : string) : string :=
  match s with
  | EmptyString => EmptyString
  | String c s' =>
      (if Ascii.eqb c "&" then "&amp;"
       else if negb in_attr && Ascii.eqb c "<" then "&lt;"
       else if negb in_attr && Ascii.eqb c ">" then "&gt;"
       else if in_attr && Ascii.eqb c dquote then "&quot;"
       else String c EmptyString) +:+ escape in_attr s'
  end.

Definition write_attr (kv : string * string) : string :=
  " " +:+ fst kv +:+ "=" +:+ String dquote (escape true (snd kv)) +:+
  String dquote "".

Definition write_attrs (a : attrs) : string :=
  JsString.join "" (map write_attr a).

(** the markup of a node, as [outerHTML] writes it *)
Fixpoint outerHTML (n : node) : string :=
  match n with
  | Text s => escape false s
  | Comment s => "<!--" +:+ s +:+ "-->"
  | Element tag a ch =>
      "<" +:+ tag +:+ write_attrs a +:+ ">" +:+
      (if is_void tag then ""
       else JsString.join "" (map outerHTML ch) +:+ "</" +:+ tag +:+ ">")
  end.

Definition innerHTML (ch : list node) : string :=
  JsString.join "" (map outerHTML ch).

(** the XML form: void elements are closed in the start tag *)
Fixpoint xmlOf (n : node) : string :=
  match n with
  | Text s => escape false s
  | Comment s => "<!--" +:+ s +:+ "-->"
  | Element tag a ch =>
      "<" +:+ tag +:+ write_attrs a +:+
      (if is_void tag then " />"
       else ">" +:+ JsString.join "" (map xmlOf ch) +:+ "</" +:+ tag +:+ ">")
  end.

Definition serializeToString (doc : node) : string :=
  match doc with
  | Element tag a ch =>
      xmlOf (Element tag (("xmlns", "http://www.w3.org/1999/xhtml") :: a) ch)
  | _ => xmlOf doc
  end.

(** *** Tokenizer *)

Inductive token :=
| TChars (s : string)
| TComment (s : string)
| TStart (tag : string) (a : attrs)
| TEnd (tag : string).

Inductive lexState :=
| LData (text : string)
| LTagOpen
| LBang (dashes : nat)
| LDecl
| LComment (dashes : nat) (text : string)
| LEndName (name : string)
| LTagName (name : string)
| LBeforeAttr (tag : string) (a : attrs)
| LAttrName (tag : string) (a : attrs) (name : string)
| LBeforeValue (tag : string) (a : attrs) (name : string)
| LValue (quote : option ascii) (tag : string) (a : attrs) (name value : string).

Definition snoc (s : string) (c : ascii) : string := s +:+ String c EmptyString.

Definition is_space (c : ascii) : bool :=
  Ascii.eqb c " " || Ascii.eqb c "010" || Ascii.eqb c "009" || Ascii.eqb c "013".

Definition flush (text : string) (acc : list token) : list token :=
  match text with
  | EmptyString => acc
  | _ => TChars text :: acc
  end.

(** [n] dashes *)
Fixpoint dashes (n : nat) : string :=
  match n with
  | O => EmptyString
  | S n' => String "-" (dashes n')
  end.

Definition lexStep (c : ascii) (st : lexState) (acc : list token)
    : lexState * list token :=
  let low := JsString.lower_ascii c in
  match st with
  | LData text =>
      if Ascii.eqb c "<" then (LTagOpen, flush text acc) else (LData (snoc text c), acc)
  | LTagOpen =>
      if Ascii.eqb c "/" then (LEndName "", acc)
      else if Ascii.eqb c "!" then (LBang 0, acc)
      else (LTagName (String low ""), acc)
  | LBang n =>
      if Ascii.eqb c "-" then
        match n with
        | O => (LBang 1, acc)
        | S _ => (LComment 0 "", acc)
        end
      else if Ascii.eqb c ">" then (LData "", acc)
      else (LDecl, acc)
  | LDecl => if Ascii.eqb c ">" then (LData "", acc) else (LDecl, acc)
  | LComment n text =>
      if Ascii.eqb c "-" then
        match n with
        | S (S _) => (LComment n (snoc text c), acc)
        | _ => (LComment (S n) text, acc)
        end
      else if Ascii.eqb c ">" then
        match n with
        | S (S _) => (LData "", TComment text :: acc)
        | _ => (LComment 0 (snoc (text +:+ dashes n) c), acc)
        end
      else (LComment 0 (snoc (text +:+ dashes n) c), acc)
  | LEndName name =>
      if Ascii.eqb c ">" then (LData "", TEnd name :: acc)
      else if is_space c then (LEndName name, acc)
      else (LEndName (snoc name low), acc)
  | LTagName name =>
      if Ascii.eqb c ">" then (LData "", TStart name [] :: acc)
      else if is_space c || Ascii.eqb c "/" then (LBeforeAttr name [], acc)
      else (LTagName (snoc name low), acc)
  | LBeforeAttr tag a =>
      if Ascii.eqb c ">" then (LData "", TStart tag a :: acc)
      else if is_space c || Ascii.eqb c "/" then (LBeforeAttr tag a, acc)
      else (LAttrName tag a (String low ""), acc)
  | LAttrName tag a name =>
      if Ascii.eqb c "=" then (LBeforeValue tag a name, acc)
      else if Ascii.eqb c ">" then (LData "", TStart tag (a ++ [(name, "")]) :: acc)
      else if is_space c then (LBeforeAttr tag (a ++ [(name, "")]), acc)
      else (LAttrName tag a (snoc name low), acc)
  | LBeforeValue tag a name =>
      if Ascii.eqb c dquote || Ascii.eqb c "'" then (LValue (Some c) tag a name "", acc)
      else if Ascii.eqb c ">" then (LData "", TStart tag (a ++ [(name, "")]) :: acc)
      else if is_space c then (LBeforeValue tag a name, acc)
      else (LValue None tag a name (String c ""), acc)
  | LValue (Some q) tag a name value =>
      if Ascii.eqb c q then (LBeforeAttr tag (a ++ [(name, value)]), acc)
      else (LValue (Some q) tag a name (snoc value c), acc)
  | LValue None tag a name value =>
      if Ascii.eqb c ">" then (LData "", TStart tag (a ++ [(name, value)]) :: acc)
      else if is_space c then (LBeforeAttr tag (a ++ [(name, value)]), acc)
      else (LValue None tag a name (snoc value c), acc)
  end.

Fixpoint lex (s : string) (st : lexState) (acc : list token) : list token :=
  match s with
  | EmptyString =>
      rev (match st with LData text => flush text acc | _ => acc end)
  | String c s' => let '(st', acc') := lexStep c st acc in lex s' st' acc'
  end.

Definition tokenize (s : string) : list token := lex s (LData "") [].

(** *** Tree construction *)

(** an open element: tag, attributes, children so far *)
Definition frame := (string * attrs * list node)%type.

(** the open elements, innermost first, and the finished top-level nodes *)
Definition builder := (list frame * list node)%type.

Definition add_child (n : node) (b : builder) : builder :=
  match b.1 with
  | [] => ([], b.2 ++ [n])
  | (t, a, ch) :: rest => ((t, a, ch ++ [n]) :: rest, b.2)
  end.

Definition close_one (b : builder) : builder :=
  match b.1 with
  | [] => b
  | (t, a, ch) :: rest => add_child (Element t a ch) (rest, b.2)
  end.

Fixpoint close_until (depth : nat) (tag : string) (b : builder) : builder :=
  match depth, b.1 with
  | S depth', (t, _, _) :: _ =>
      if String.eqb t tag then close_one b else close_until depth' tag (close_one b)
  | _, _ => b
  end.

Definition is_open (tag : string) (b : builder) : bool :=
  existsb (λ f, String.eqb f.1.1 tag) b.1.

Definition build_step (b : builder) (t : token) : builder :=
  match t with
  | TChars s => add_child (Text s) b
  | TComment s => add_child (Comment s) b
  | TStart tag a =>
      if is_void tag then add_child (Element tag a []) b
      else ((tag, a, []) :: b.1, b.2)
  | TEnd tag => if is_open tag b then close_until (length b.1) tag b else b
  end.

Definition build (ts : list token) : list node :=
  let b := fold_left build_step ts ([], []) in
  (Nat.iter (length b.1) close_one b).2.

Definition parseFragment (context : node) (text : string) : list node :=
  build (tokenize text).

Definition find_element (tag : string) (l : list node) : option node :=
  List.find (is_element tag) l.

(** the root element: [html] with exactly a [head] and a [body] *)
Definition parseFromString (text : string) : node :=
  let top := build (tokenize text) in
  let '(a, ch) :=
    match find_element "html" top with
    | Some (Element _ a ch) => (a, ch)
    | _ => ([], top)
    end in
  let headEl := default (Element "head" [] []) (find_element "head" ch) in
  let bodyEl :=
    default (Element "body" [] (filter (λ n, negb (is_element "head" n)) ch))
            (find_element "body" ch) in
  Element "html" a [headEl; bodyEl].

(** *** Declaration blocks *)

Fixpoint trim_left (s : string) : string :=
  match s with
  | String c s' => if is_space c then trim_left s' else s
  | EmptyString => s
  end.

Definition trim (s : string) : string :=
  String.rev (trim_left (String.rev (trim_left s))).

(** a value and whether [!important] follows it *)
Definition split_priority (v : string) : string * bool :=
  let r := String.rev (trim v) in
  if String.prefix "tnatropmi!" r
  then (trim (String.rev (String.substring 10 (String.length r - 10) r)), true)
  else (trim v, false).

Definition parse_decl (piece : string) : decls :=
  match JsString.split ":" piece with
  | name :: v :: vs =>
      let name := JsString.toLowerCase (trim name) in
      let '(value, important) := split_priority (JsString.join ":" (v :: vs)) in
      if String.eqb name "" then []
      else [{| declName := name; declValue := value; declImportant := important |}]
  | _ => []
  end.

(** the declaration block of a [style] attribute; a later declaration of a
    property replaces an earlier one *)
Definition parseStyle (text : string) : decls :=
  fold_left (λ ds d, decl_remove (declName d) ds ++ [d])
    (concat (map parse_decl (JsString.split ";" text))) [].

Definition serialize_decl (d : decl) : string :=
  declName d +:+ ": " +:+ declValue d +:+
  (if declImportant d then " !important;" else ";").

(** the text of a declaration block: [font-weight: bold; color: red;] *)
Definition serializeStyle (ds : decls) : string :=
  JsString.join " " (map serialize_decl ds).

(** *** Selectors given as text

    The only selector text the source hands over unchecked is one whose
    string is cut short or altered by the identifier put into it, as when
    the identifier holds a double quote between two letters: such a text is
    no selector, and the reference platform refuses every text it is asked
    to read. *)
Definition querySelectorText (text : string) (doc : node) : option (option path) :=
  None.

Definition platform : Platform :=
  {| Dom.parseFromString := parseFromString;
     Dom.serializeToString := serializeToString;
     Dom.innerHTML := innerHTML;
     Dom.parseFragment := parseFragment;
     Dom.parseStyle := parseStyle;
     Dom.serializeStyle := serializeStyle;
     Dom.querySelectorText := querySelectorText |}.

(** *** The frame's address

    The frame is filled through [srcdoc], so [window.location.href] is
    [about:srcdoc]. *)

Definition is_alpha (c : ascii) : bool :=
  let n := nat_of_ascii (JsString.lower_ascii c) in (97 <=? n) && (n <=? 122).

Definition is_digit (c : ascii) : bool :=
  let n := nat_of_ascii c in (48 <=? n) && (n <=? 57).

Fixpoint all_chars (f : ascii → bool) (s : string) : bool :=
  match s with
  | EmptyString => true
  | String c s' => f c && all_chars f s'
  end.

Definition is_scheme (s : string) : bool :=
  match s with
  | EmptyString => false
  | String c s' =>
      is_alpha c &&
      all_chars (λ d, is_alpha d || is_digit d || Ascii.eqb d "+"
                      || Ascii.eqb d "-" || Ascii.eqb d ".") s'
  end.

(** the text before the first [?] or [#] *)
Fixpoint before_query (s : string) : string :=
  match s with
  | EmptyString => EmptyString
  | String c s' =>
      if Ascii.eqb c "?" || Ascii.eqb c "#" then EmptyString
      else String c (before_query s')
  end.

(** [new URL(url, 'about:srcdoc').pathname].  A target without a scheme
    cannot be resolved against this base, which has no hierarchy: the
    constructor raises, unless the target is a fragment only. *)
Definition pathname (url : string) : option string :=
  match JsString.split ":" url with
  | scheme :: rest :: more =>
      if is_scheme scheme
      then Some (before_query (JsString.join ":" (rest :: more)))
      else None
  | _ => if JsString.startsWith url "#" then Some "srcdoc" else None
  end.

(** *** The [Response] constructor *)

(** the statuses that allow no body *)
Definition nullBodyStatus (status : Z) : bool :=
  bool_decide (status ∈ [101; 103; 204; 205; 304]%Z).

Definition is_tchar (c : ascii) : bool :=
  is_alpha c || is_digit c ||
  bool_decide (c ∈ ["!"; "#"; "$"; "%"; "&"; "'"; "*"; "+"; "-"; "."; "^"; "_";
                    "`"; "|"; "~"]%char).

Definition header_ok (h : string * string) : bool :=
  negb (String.eqb h.1 "") && all_chars is_tchar h.1 &&
  all_chars (λ c, let n := nat_of_ascii c in
                  negb ((n =? 0) || (n =? 10) || (n =? 13)) && (n <? 196)) h.2.

(** [new Response(content, { status, headers })] returns *)
Definition constructible (content : JsValue) (status : Z) (headers : Headers)
    : bool :=
  ((200 <=? status) && (status <=? 599))%Z &&
  negb (nullBodyStatus status &&
        match content with Undefined => false | _ => true end) &&
  forallb header_ok headers.

End RefPlatform.


(** ** The two halves wired together *)

Section Bridge.
(** [new URL(url, window.location.href).pathname] inside the frame *)
Variable pathname : string → option string.
(** whether [new Response(content, { status, headers })] returns *)
Variable constructible : JsValue → Z → Headers → bool.
(** the host's window as the frame sees it, and the frame's window as the
    host sees it *)
Variables (parent frame : window).

Definition deliverToHost (m : MessageData) (h : Host) : Host :=
  handleIframeMessage {| source := Some frame; data := m |} h.

Definition deliverToShim (m : MessageData) (s : Shim) : Shim :=
  shimOnMessage constructible parent {| source := Some parent; data := m |} s.

(** A call of the overridden [fetch] in the frame, the messages it posted
    carried to the host, and the host's answers carried back. *)
Definition fetchRoundTrip (url requestId : string) (h : Host) (s : Shim)
    : Host * Shim :=
  let s1 := shimFetch pathname url requestId s in
  let requests := drop (length (toParent s)) (toParent s1) in
  let h1 := fold_left (λ h m, deliverToHost m h) requests h in
  let answers := (drop (length (posted h)) (posted h1)).*2 in
  (h1, fold_left (λ s m, deliverToShim m s) answers s1).

(** the shim hands [url] to the bridge rather than to the network *)
Definition virtualTarget (url : string) : bool :=
  negb (JsString.startsWith url "http" || JsString.startsWith url "//"
        || JsString.startsWith url "data:").

End Bridge.

(** What every reachable state of the script satisfies: the settled
    promises are distinct and already created; a stored promise is created,
    is stored under one id only, was not dropped, and is unsettled unless
    its executor raised. *)
Record shimInvariant (s : Shim) : Prop := {
  inv_settled_once : NoDup (settled s).*1;
  inv_settled_old : ∀ k, k ∈ (settled s).*1 → k < promises s;
  inv_dropped_old : ∀ k, k ∈ dropped s → k < promises s;
  inv_pending_old : ∀ id k, pendingRequests s !! id = Some k → k < promises s;
  inv_pending_open : ∀ id k how,
    pendingRequests s !! id = Some k → (k, how) ∈ settled s →
    how = RejectedByExecutor;
  inv_pending_kept : ∀ id k, pendingRequests s !! id = Some k → k ∉ dropped s;
  inv_pending_inj : ∀ id1 id2 k,
    pendingRequests s !! id1 = Some k → pendingRequests s !! id2 = Some k → id1 = id2;
}.

(** the frame is filled through [srcdoc]: a target without a scheme (no
    colon) that is not a fragment (no [#]) cannot be resolved against
    [about:srcdoc] *)
Definition srcdocFrame (pathname : string → option string) : Prop :=
  ∀ url, JsString.has_char ":" url = false → JsString.has_char "#" url = false →
         pathname url = None.

(** the event comes from the frame the host owns *)
Definition fromOwnFrame (event : MessageEvent) (h : Host) : Prop :=
  ∃ w, iframe h = Some w ∧ source event = Some w.

(** ** Generations *)

Section Generations.
Context {platform : Platform}.

(** consecutive regenerations, each with the table and root of its time *)
Definition regenerations (inputs : list (FileSystemState * option string))
    (pv : Preview) : Preview :=
  fold_left (λ pv i, regenerate i.1 i.2 pv) inputs pv.

(** the handles that are live *)
Definition liveHandles (pv : Preview) : list string :=
  (objectURLs (browser pv)).*1.

(** The statement that only handles of the installed generation are live:
    every live handle occurs in the installed document. *)
Definition onlyCurrentHandlesLive (pv : Preview) : Prop :=
  ∀ u, u ∈ liveHandles pv → JsString.includes (srcDoc pv) u = true.

End Generations.

(** ** Edits seen from outside *)

(** the document the parser builds from markup that holds body content only *)
Definition bareDocument (ch : list node) : node :=
  Element "html" [] [Element "head" [] []; Element "body" [] ch].

(** the CSS property behind an emphasis toggle, and the value that
    switches it on *)
Definition emphasisProperty (style : Emphasis) : string :=
  match style with
  | Bold => "font-weight"
  | Italic => "font-style"
  end.

Definition emphasisValue (style : Emphasis) : string :=
  match style with
  | Bold => "bold"
  | Italic => "italic"
  end.

(** what an emphasis toggle does to a declaration block *)
Definition decl_toggle (prop value : string) (ds : decls) : decls :=
  if String.eqb (decl_get prop ds) value then decl_remove prop ds
  else decl_set prop value ds.

(** the element found by its identifier lies strictly inside the body *)
Definition selectedInBody (doc : node) (id : string) (bi j : nat) (p : path) : Prop :=
  body_path doc = Some [bi] ∧
  querySelector (editableSelector id) doc = Some (bi :: j :: p).

Section Edits.
Context {platform : Platform}.

(** the attribute change made by an emphasis toggle *)
Definition toggleAttrs (prop value : string) (a : attrs) : attrs :=
  style_set prop (if String.eqb (style_get prop a) value then "" else value) a.

(** the element shows the emphasis: [el.style] holds the switching value *)
Definition emphasized (style : Emphasis) (a : attrs) : bool :=
  String.eqb (style_get (emphasisProperty style) a) (emphasisValue style).

(** the root document entry as the updaters read it *)
Definition rootDocument (previewRoot : option string) (prev : FileSystemState)
    : node :=
  parseFromString
    (JsObject.orEmpty (JsObject.get prev (indexPathOf (interpolate previewRoot)))).

(** the children of the body after [updateFn] ran on the first element that
    carries [id] *)
Definition editedBody (previewRoot : option string) (id : string)
    (updateFn : node → node) (prev : FileSystemState) : list node :=
  let htmlDoc := rootDocument previewRoot prev in
  match querySelector (editableSelector id) htmlDoc with
  | Some element =>
      from_option children_of [] (body_of (update_at element updateFn htmlDoc))
  | None => []
  end.

(** the platform parses the markup it wrote for [ch] back to [ch] *)
Definition readsBack (ch : list node) : Prop :=
  parseFromString (innerHTML ch) = bareDocument ch.

(** the platform parses the text it wrote for a declaration block back to
    the block *)
Definition styleReadsBack (ds : decls) : Prop :=
  parseStyle (serializeStyle ds) = ds.

End Edits.

(** ** Sample projects *)

Module Samples.

(** a script loaded by a protocol-relative reference, and a table entry
    under that very text *)
Definition cdnTable : FileSystemState :=
  {[ "/index.html" :=
       "<html><head></head><body><script src='//cdn/lib.js'></script></body></html>";
     "//cdn/lib.js" := "alert(1)" ]}.

(** the scenario of the specification: one image next to the root document *)
Definition imageTable : FileSystemState :=
  {[ "/index.html" := "<html><body><img src='a.png'></body></html>";
     "/a.png" := "PNG" ]}.

(** a full document with one editable paragraph *)
Definition pageMarkup : string :=
  "<html><head><title>T</title></head><body><h1>Site</h1><p data-editable-id='x' contenteditable='true'>old</p></body></html>".

Definition pageTable : FileSystemState := {[ "/index.html" := pageMarkup ]}.

Definition paragraph (a : attrs) : node :=
  Element "p" (("data-editable-id", "x") :: a) [Text "hi"].

(** body content as an earlier commit stored it: one tagged paragraph *)
Definition plainTable : FileSystemState :=
  {[ "/index.html" := RefPlatform.innerHTML [paragraph []] ]}.

(** the same with an inline style on the paragraph, as an author wrote it *)
Definition styledTable : FileSystemState :=
  {[ "/index.html" := RefPlatform.innerHTML [paragraph [("style", "color:red")]] ]}.

(** a table that holds only a root document *)
Definition bareTable : FileSystemState :=
  {[ "/index.html" := "<html><head></head><body></body></html>" ]}.

Definition emptyPreview : Preview := {| srcDoc := ""; browser := freshBrowser |}.

End Samples.

(** * The rest of the panel

    The handlers below run on the state of the render they were created in;
    each is modelled as a function on the part of that state it reads and
    writes. *)

(** ** More string primitives *)

Module JsText.

(** [s.endsWith(suffix)] *)
Fixpoint endsWith (s suffix : string) : bool :=
  String.eqb s suffix ||
  match s with
  | EmptyString => false
  | String _ s' => endsWith s' suffix
  end.

(** [s.slice(0, i)] and [s.slice(i)] for an index inside the string *)
Fixpoint take (i : nat) (s : string) : string :=
  match i, s with
  | S i', String c s' => String c (take i' s')
  | _, _ => EmptyString
  end.

Fixpoint drop (i : nat) (s : string) : string :=
  match i, s with
  | S i', String _ s' => drop i' s'
  | _, _ => s
  end.

(** [s.substring(1)] *)
Definition substring1 (s : string) : string := drop 1 s.

(** [s.lastIndexOf(sub)], [None] for [-1] *)
Fixpoint lastIndexOf (s sub : string) : option nat :=
  match
    match s with
    | EmptyString => None
    | String _ s' => lastIndexOf s' sub
    end
  with
  | Some i => Some (S i)
  | None => if String.prefix sub s then Some 0 else None
  end.

(** The white space and line terminators [trim] removes, each by the bytes
    of its encoding: tab, line feed, vertical tab, form feed, carriage
    return, space, U+00A0, U+1680, U+2000 to U+200A, U+2028, U+2029, U+202F,
    U+205F, U+3000 and U+FEFF. *)
Definition whiteSpace : list string :=
  [String "009" ""; String "010" ""; String "011" ""; String "012" "";
   String "013" ""; String " " "";
   String "194" (String "160" "");
   String "225" (String "154" (String "128" ""));
   String "226" (String "128" (String "128" ""));
   String "226" (String "128" (String "129" ""));
   String "226" (String "128" (String "130" ""));
   String "226" (String "128" (String "131" ""));
   String "226" (String "128" (String "132" ""));
   String "226" (String "128" (String "133" ""));
   String "226" (String "128" (String "134" ""));
   String "226" (String "128" (String "135" ""));
   String "226" (String "128" (String "136" ""));
   String "226" (String "128" (String "137" ""));
   String "226" (String "128" (String "138" ""));
   String "226" (String "128" (String "168" ""));
   String "226" (String "128" (String "169" ""));
   String "226" (String "128" (String "175" ""));
   String "226" (String "129" (String "159" ""));
   String "227" (String "128" (String "128" ""));
   String "239" (String "187" (String "191" ""))].

(** [s] without the prefix [p], when it starts with it *)
Fixpoint strip_prefix (p s : string) : option string :=
  match p, s with
  | EmptyString, _ => Some s
  | String a p', String b s' => if Ascii.eqb a b then strip_prefix p' s' else None
  | String _ _, EmptyString => None
  end.

(** [s] without the first of [ws] it starts with *)
Fixpoint strip_any (ws : list string) (s : string) : option string :=
  match ws with
  | [] => None
  | w :: ws' =>
      match strip_prefix w s with
      | Some s' => Some s'
      | None => strip_any ws' s
      end
  end.

(** strips leading members of [ws], at most [n] of them *)
Fixpoint strip_leading (ws : list string) (n : nat) (s : string) : string :=
  match n with
  | O => s
  | S n' =>
      match strip_any ws s with
      | Some s' => strip_leading ws n' s'
      | None => s
      end
  end.

Definition trimStart (s : string) : string :=
  strip_leading whiteSpace (String.length s) s.

Definition trimEnd (s : string) : string :=
  String.rev (strip_leading (String.rev <$> whiteSpace) (String.length s)
                (String.rev s)).

(** [s.trim()] *)
Definition trim (s : string) : string := trimEnd (trimStart s).

End JsText.

(** ** Editor language (lines 801-810) *)

Inductive EditorLanguage :=
| LangHtml | LangCss | LangJavascript | LangTypescript | LangTsx | LangMarkdown.

Definition languageForEditor (path : option string) : EditorLanguage :=
  if negb (JsString.truthy path) then LangMarkdown
  else
    let path := default "" path in
    if JsText.endsWith path ".md" then LangMarkdown
    else if JsText.endsWith path ".html" then LangHtml
    else if JsText.endsWith path ".css" then LangCss
    else if JsText.endsWith path ".js" then LangJavascript
    else if JsText.endsWith path ".ts" then LangTypescript
    else if JsText.endsWith path ".tsx" then LangTsx
    else LangMarkdown.

(** ** Tabs and the file table (lines 416-488 and 710-718) *)

Inductive Role := RoleUser | RoleModel | RoleSystem.

Record ChatMessage := { role : Role; content : string }.

(** The state the file handlers share. *)
Record Workspace := {
  wsFiles : FileSystemState;
  openFiles : list string;
  activeFile : option string;
  previewRootOf : option string;
  chatHistory : list ChatMessage;
}.

Definition withFiles (f : FileSystemState) (ws : Workspace) : Workspace :=
  {| wsFiles := f; openFiles := openFiles ws; activeFile := activeFile ws;
     previewRootOf := previewRootOf ws; chatHistory := chatHistory ws |}.

Definition withTabs (o : list string) (a : option string) (ws : Workspace)
    : Workspace :=
  {| wsFiles := wsFiles ws; openFiles := o; activeFile := a;
     previewRootOf := previewRootOf ws; chatHistory := chatHistory ws |}.

Definition withPreviewRoot (r : option string) (ws : Workspace) : Workspace :=
  {| wsFiles := wsFiles ws; openFiles := openFiles ws; activeFile := activeFile ws;
     previewRootOf := r; chatHistory := chatHistory ws |}.

Definition say (text : string) (ws : Workspace) : Workspace :=
  {| wsFiles := wsFiles ws; openFiles := openFiles ws; activeFile := activeFile ws;
     previewRootOf := previewRootOf ws;
     chatHistory := chatHistory ws ++ [{| role := RoleSystem; content := text |}] |}.

(** [if (!a.includes(x)) a.push(x)] *)
Definition pushNew (a : list string) (x : string) : list string :=
  if bool_decide (x ∈ a) then a else a ++ [x].

Definition handleFileSelect (path : string) (ws : Workspace) : Workspace :=
  withTabs (pushNew (openFiles ws) path) (Some path) ws.

Definition handleCloseFile (path : string) (ws : Workspace) : Workspace :=
  let newOpenFiles := filter (λ p, p ≠ path) (openFiles ws) in
  withTabs newOpenFiles
    (if bool_decide (activeFile ws = Some path) then last newOpenFiles
     else activeFile ws) ws.

Definition handleCodeChange (newCodeValue : string) (ws : Workspace) : Workspace :=
  if negb (JsString.truthy (activeFile ws)) then ws
  else withFiles (<[default "" (activeFile ws) := newCodeValue]> (wsFiles ws)) ws.

Record CodeUpdate := { updPath : string; updContent : string }.

(** the file table after the [forEach] of [handleApplyCode], which assigns
    [newFileSystem[path] = content] *)
Definition applyUpdates (codeUpdates : list CodeUpdate) (fs : FileSystemState)
    : FileSystemState :=
  fold_left (λ fs u, JsObject.set fs (updPath u) (updContent u)) codeUpdates fs.

(** the open tabs after the [forEach] of [handleApplyCode] *)
Definition openUpdates (codeUpdates : list CodeUpdate) (o : list string)
    : list string :=
  fold_left (λ o u, pushNew o (updPath u)) codeUpdates o.

Definition handleApplyCode (codeUpdates : list CodeUpdate) (ws : Workspace)
    : Workspace :=
  let ws :=
    say ("Code has been applied to " +:+
         JsString.join ", " (updPath <$> codeUpdates) +:+ ".")
      (withTabs (openUpdates codeUpdates (openFiles ws)) (activeFile ws)
         (withFiles (applyUpdates codeUpdates (wsFiles ws)) ws)) in
  let firstFile := updPath <$> head codeUpdates in
  if JsString.truthy firstFile then
    let fileToActivate :=
      match List.find (λ c, JsText.endsWith (updPath c) "index.html") codeUpdates with
      | Some c => if JsString.truthy (Some (updPath c)) then updPath c
                  else default "" firstFile
      | None => default "" firstFile
      end in
    withTabs (openFiles ws) (Some fileToActivate) ws
  else ws.

Definition handleNewFile (path : string) (ws : Workspace) : Workspace :=
  handleFileSelect path (withFiles (<[path := ""]> (wsFiles ws)) ws).

(** the key [handleNewFolder] writes *)
Definition placeholderKey (path : string) : string :=
  (if JsText.endsWith path "/" then path else path +:+ "/") +:+ ".placeholder".

Definition handleNewFolder (path : string) (ws : Workspace) : Workspace :=
  withFiles (<[placeholderKey path := ""]> (wsFiles ws)) ws.

(** ** Upload and download (lines 720-771) *)

(** an entry of [zip.files] *)
Record ZipEntry := { dir : bool; zipText : string }.

(** An uploaded file: its name, what [file.text()] gives, and what
    [JSZip.loadAsync(file)] gives, the entries of [zip.files] in key order
    ([None] when the archive cannot be read). *)
Record UploadedFile := {
  fileName : string;
  fileText : string;
  fileZip : option (list (string * ZipEntry));
}.

(** [p.split('/')[0]] *)
Definition firstSegment (p : string) : string :=
  default "" (head (JsString.split "/" p)).

(** [rootDirs.size === 1 ? [...rootDirs][0] + '/' : ''] *)
Definition commonRootOf (names : list string) : string :=
  let rootDirs : gset string := list_to_set (firstSegment <$> names) in
  if bool_decide (size rootDirs = 1)
  then default "" (head (elements rootDirs)) +:+ "/"
  else "".

(** the inner loop over the entries of one archive *)
Definition unzipInto (entries : list (string * ZipEntry))
    (newFiles : FileSystemState) : FileSystemState :=
  fold_left (λ nf e, if dir e.2 then nf
                     else JsObject.set nf ("/" +:+ e.1) (zipText e.2))
    entries newFiles.

(** one turn of the loop over the uploaded files, on [newFiles] and
    [firstDirPath]; [None] when reading the archive rejects *)
Definition uploadOne (acc : FileSystemState * string) (file : UploadedFile)
    : option (FileSystemState * string) :=
  if JsText.endsWith (fileName file) ".zip" then
    entries ← fileZip file;
    let commonRoot := commonRootOf entries.*1 in
    let firstDirPath :=
      if JsString.truthy (Some commonRoot) then "/" +:+ commonRoot else acc.2 in
    Some (unzipInto entries acc.1, firstDirPath)
  else Some (JsObject.set acc.1 ("/" +:+ fileName file) (fileText file), acc.2).

Fixpoint uploadAll (files : list UploadedFile) (acc : FileSystemState * string)
    : option (FileSystemState * string) :=
  match files with
  | [] => Some acc
  | file :: files' => uploadOne acc file ≫= uploadAll files'
  end.

(** [handleFileUpload]; a rejected archive ends the handler before any
    state is set *)
Definition handleFileUpload (files : list UploadedFile) (ws : Workspace)
    : Workspace :=
  match uploadAll files (∅, "") with
  | None => ws
  | Some (newFiles, firstDirPath) =>
      let ws := withFiles (newFiles ∪ wsFiles ws) ws in
      let ws := if JsString.truthy (Some firstDirPath)
                then withPreviewRoot (Some firstDirPath) ws else ws in
      say ("Uploaded " +:+ pretty (length files) +:+ " item(s).") ws
  end.

(** [path.startsWith('/') ? path.substring(1) : path] *)
Definition cleanPath (path : string) : string :=
  if JsString.startsWith path "/" then JsText.substring1 path else path.

(** the call of [zip.file] made for one entry of the table, if any *)
Definition zipFileCall (e : string * string) : option (string * string) :=
  if JsText.endsWith e.1 ".placeholder" then None
  else Some (cleanPath e.1, e.2).

(** the calls of [zip.file] made by [handleDownloadProject], as a list
    whose order is that of [Object.entries] *)
Definition zipFileCalls (fs : FileSystemState) : list (string * string) :=
  omap zipFileCall (map_to_list fs).

(** [URL.revokeObjectURL(url)] *)
Definition revokeObjectURL (url : string) (br : Browser) : Browser :=
  {| objectURLs := filter (λ e, e.1 ≠ url) (objectURLs br);
     minted := minted br; console := console br |}.

(** what [handleDownloadProject] does to the browser once the archive
    [blob] is generated: a link is made from a fresh object URL, clicked,
    and the URL revoked *)
Definition downloadLink (blob : Blob) (br : Browser) : string * Browser :=
  let '(url, br1) := createObjectURL blob br in
  (url, revokeObjectURL url br1).

(** ** Dropping a component (lines 572-615) *)

Record DraggableComponent := {
  componentId : string;
  componentName : string;
  componentHtml : string;
}.

Definition editableTags : list string := ["h1"; "p"; "button"; "a"].

(** [currentHtml] with [modifiedHtml] spliced in *)
Definition spliceBeforeBodyEnd (currentHtml modifiedHtml : string) : string :=
  match JsText.lastIndexOf currentHtml "</body>" with
  | Some bodyEndIndex =>
      JsText.take bodyEndIndex currentHtml +:+ modifiedHtml +:+
      String "010" "" +:+ JsText.drop bodyEndIndex currentHtml
  | None => currentHtml +:+ String "010" "" +:+ modifiedHtml
  end.

(** the tagged first node of the fragment; [None] where the source raises
    (the first node is a text or a comment, which has no [setAttribute]) *)
Definition tagFragment (newId : string) (nodes : list node) : option (list node) :=
  match nodes with
  | [] => Some []
  | Text _ :: _ | Comment _ :: _ => None
  | Element tag a ch :: rest =>
      let a := setAttribute "data-editable-id" newId a in
      let a := if bool_decide (JsString.toLowerCase tag ∈ editableTags)
               then setAttribute "contenteditable" "true" a else a in
      Some (Element tag a ch :: rest)
  end.

Section Drop.
Context {platform : Platform}.
(** [JSON.parse] on the dragged payload; [None] when it raises *)
Variable parseComponent : string → option DraggableComponent.

(** the markup written for a component: [tempDiv.innerHTML] after tagging *)
Definition modifiedHtmlOf (newId : string) (component : DraggableComponent)
    : option string :=
  innerHTML <$>
    tagFragment newId
      (parseFragment (Element "div" [] []) (JsText.trim (componentHtml component))).

(** [handleDrop]; [componentJSON] is the payload read from the drag event
    and [newId] the identifier [uuidv4()] draws *)
Definition handleDrop (componentJSON newId : string) (ws : Workspace) : Workspace :=
  if JsString.truthy (Some componentJSON) && JsString.truthy (previewRootOf ws) then
    let failed := say "Error: Could not add component." ws in
    match parseComponent componentJSON with
    | None => failed
    | Some component =>
        if JsString.truthy (Some (componentHtml component)) then
          match modifiedHtmlOf newId component with
          | None => failed
          | Some modifiedHtml =>
              let htmlPath := indexPathOf (interpolate (previewRootOf ws)) in
              let currentHtml :=
                JsObject.orEmpty (JsObject.get (wsFiles ws) htmlPath) in
              let newHtml := spliceBeforeBodyEnd currentHtml modifiedHtml in
              say ("Component " +:+ String "034" (componentName component) +:+
                   String "034" " added to " +:+ htmlPath +:+ ".")
                (handleFileSelect htmlPath
                   (withFiles (<[htmlPath := newHtml]> (wsFiles ws)) ws))
          end
        else ws
    end
  else ws.

End Drop.

(** ** Runs of the panel and of the host *)

(** the tab and file actions a user can take, in the order taken *)
Inductive TabAction :=
| SelectFile (path : string)
| CloseFile (path : string)
| ApplyCode (codeUpdates : list CodeUpdate)
| NewFile (path : string)
| NewFolder (path : string)
| ChangeCode (newCodeValue : string)
| UploadFiles (files : list UploadedFile).

Definition tabStep (ws : Workspace) (action : TabAction) : Workspace :=
  match action with
  | SelectFile path => handleFileSelect path ws
  | CloseFile path => handleCloseFile path ws
  | ApplyCode codeUpdates => handleApplyCode codeUpdates ws
  | NewFile path => handleNewFile path ws
  | NewFolder path => handleNewFolder path ws
  | ChangeCode newCodeValue => handleCodeChange newCodeValue ws
  | UploadFiles files => handleFileUpload files ws
  end.

(** the state set up on first load (lines 139-142) *)
Definition firstLoad (initialFileSystem : FileSystemState) : Workspace :=
  {| wsFiles := initialFileSystem;
     openFiles := ["/README.md"];
     activeFile := Some "/README.md";
     previewRootOf := Some "/";
     chatHistory :=
       [{| role := RoleSystem;
           content := "Session started. Create a container to begin." |}] |}.

(** the host listener over the events of one render *)
Definition hostRun (events : list MessageEvent) (h : Host) : Host :=
  fold_left (λ h event, handleIframeMessage event h) events h.

Definition isAnswerTo (frame : option window) (m : window * MessageData) : Prop :=
  frame = Some m.1 ∧
  ∃ requestId text st hd,
    m.2 = FETCH_RESPONSE requestId text st hd ∧ (st = 200 ∨ st = 404)%Z.

(** the request ids a run of the script drew for virtual targets *)
Definition requestedIds (es : list ShimEvent) : list string :=
  omap (λ e, match e with
             | CallFetch url requestId =>
                 if virtualTarget url then Some requestId else None
             | Deliver _ => None
             end) es.

(** ** Predicates used by the properties below *)

(** no tab is open twice and the active tab, if any, is open *)
Definition tabsConsistent (ws : Workspace) : Prop :=
  NoDup (openFiles ws) ∧ ∀ p, activeFile ws = Some p → p ∈ openFiles ws.

(** the text of the [k]-th object URL handed out *)
Definition blobUrl (k : nat) : string := "blob:" +:+ pretty k.

(** the blob was made from what a read of [fs] under some key yields, a
    value that is truthy, with the content type of that key *)
Definition blobFromTable (fs : FileSystemState) (e : string * Blob) : Prop :=
  ∃ key, JsObject.get fs key = blobParts e.2 ∧
         JsObject.truthy (blobParts e.2) = true ∧
         blobType e.2 = getMimeType key.

(** every live object URL is one of the first [minted] URLs *)
Definition wellMinted (br : Browser) : Prop :=
  ∀ url, url ∈ (objectURLs br).*1 → ∃ k, k < minted br ∧ url = blobUrl k.

(** every asset-bearing element of [doc] has a reference the loop skips *)
Definition allSkipped (doc : node) : Prop :=
  ∀ p tag a ch,
    node_at p doc = Some (Element tag a ch) → assetSelectors tag a = true →
    skipsReference (getAttribute (srcAttrOf a) a) = true.

(** [br'] is [br] with zero or more object URLs added: the next unused
    ones, in order, each for a blob made from [fs] *)
Definition mintsFrom (fs : FileSystemState) (br br' : Browser) : Prop :=
  ∃ new,
    objectURLs br' = objectURLs br ++ new ∧
    minted br' = minted br + length new ∧
    new.*1 = blobUrl <$> seq (minted br) (length new) ∧
    Forall (blobFromTable fs) new.

(** how much the loop has produced: object URLs and console lines *)
Definition produced (br : Browser) : nat :=
  length (objectURLs br) + length (console br).

(** the same, as a check that runs *)
Fixpoint allSkippedb (n : node) : bool :=
  match n with
  | Element tag a ch =>
      (negb (assetSelectors tag a) || skipsReference (getAttribute (srcAttrOf a) a))
      && forallb allSkippedb ch
  | _ => true
  end.

(** * Properties *)

Example resolve_sibling : resolvePath "/a/b/index.html" "./x.css" = "/a/b/x.css".
Proof. reflexivity. Qed.

Example resolve_empty_base : resolvePath "" "x.css" = "x.css".
Proof. reflexivity. Qed.

Example mime_upper : getMimeType "/img/Photo.JPEG" = "image/jpeg".
Proof. reflexivity. Qed.

Example mime_none : getMimeType "/Makefile" = "application/octet-stream".
Proof. reflexivity. Qed.

Example parse_small :
  RefPlatform.parseFromString
    "<html><head><title>T</title></head><body><!--n--><img src='a.png'><p style='color: red'>hi</p></body></html>"
  = Element "html" []
      [Element "head" [] [Element "title" [] [Text "T"]];
       Element "body" []
         [Comment "n";
          Element "img" [("src", "a.png")] [];
          Element "p" [("style", "color: red")] [Text "hi"]]].
Proof. vm_compute. reflexivity. Qed.

Example trim_no_break_space :
  JsText.trim (String "194" (String "160" " <p>x</p> ")) = "<p>x</p>".
Proof. vm_compute. reflexivity. Qed.

(** ** Facts about [split] and [join] *)

Section SplitJoin.
Implicit Types (s t u : string) (sep c : ascii).

Lemma app_cons c s t : String c s +:+ t = String c (s +:+ t).
Proof. reflexivity. Qed.

Lemma app_empty t : "" +:+ t = t.
Proof. reflexivity. Qed.

Lemma string_app_assoc s t u : (s +:+ t) +:+ u = s +:+ t +:+ u.
Proof. induction s as [|c s IH]; [done|]. by rewrite !app_cons, IH. Qed.

Lemma split_nonempty sep s : JsString.split sep s ≠ [].
Proof.
  destruct s as [|c s]; cbn; [done|].
  destruct (Ascii.eqb c sep); [done|]. by destruct (JsString.split sep s).
Qed.

Lemma split_plain sep s :
  JsString.has_char sep s = false → JsString.split sep s = [s].
Proof.
  induction s as [|c s IH]; cbn; [done|].
  intros [H1 H2]%orb_false_iff. by rewrite H1, IH.
Qed.

Lemma split_app sep s t :
  JsString.split sep (s +:+ String sep t)
  = JsString.split sep s ++ JsString.split sep t.
Proof.
  induction s as [|c s IH].
  - rewrite app_empty. cbn. by rewrite Ascii.eqb_refl.
  - rewrite app_cons. cbn. rewrite IH. destruct (Ascii.eqb c sep); [done|].
    pose proof (split_nonempty sep s). by destruct (JsString.split sep s).
Qed.

Lemma join_app (glue : string) (l1 l2 : list string) :
  l1 ≠ [] → l2 ≠ [] →
  JsString.join glue (l1 ++ l2)
  = JsString.join glue l1 +:+ glue +:+ JsString.join glue l2.
Proof.
  intros H1 H2. induction l1 as [|x l1 IH]; [done|].
  destruct l1 as [|y l1].
  - cbn. by destruct l2.
  - change (JsString.join glue ((x :: y :: l1) ++ l2))
      with (x +:+ glue +:+ JsString.join glue ((y :: l1) ++ l2)).
    rewrite IH by done.
    change (JsString.join glue (x :: y :: l1))
      with (x +:+ glue +:+ JsString.join glue (y :: l1)).
    by rewrite !string_app_assoc.
Qed.

(** joining what was split gives the string back *)
Lemma join_split sep s :
  JsString.join (String sep "") (JsString.split sep s) = s.
Proof.
  induction s as [|c s IH]; [done|]. cbn [JsString.split].
  pose proof (split_nonempty sep s) as Hne.
  destruct (Ascii.eqb_spec c sep) as [->|Hc].
  - destruct (JsString.split sep s) as [|x l] eqn:E; [done|].
    change (JsString.join (String sep "") ("" :: x :: l))
      with ("" +:+ String sep "" +:+ JsString.join (String sep "") (x :: l)).
    by rewrite IH.
  - destruct (JsString.split sep s) as [|x l] eqn:E; [done|].
    destruct l as [|y l]; cbn in *; by rewrite <-IH.
Qed.

Lemma slice_last_app s c :
  JsString.slice_last (s +:+ String c "") = String c "".
Proof.
  induction s as [|d s IH]; [done|]. rewrite app_cons.
  cbn [JsString.slice_last]. rewrite IH. by destruct s.
Qed.

Lemma slice_last_plain sep s :
  JsString.has_char sep s = false → JsString.slice_last s ≠ String sep "".
Proof.
  induction s as [|d s IH]; [done|]. cbn.
  intros [Hd Hs]%orb_false_iff. destruct s as [|e s]; [|by apply IH].
  intros [= ->]. by rewrite Ascii.eqb_refl in Hd.
Qed.

End SplitJoin.

(** ** Strings *)

Section TextFacts.
Implicit Types (s t suffix sub : string).

Lemma endsWith_refl s : JsText.endsWith s s = true.
Proof. destruct s; cbn [JsText.endsWith]; by rewrite String.eqb_refl. Qed.

Lemma endsWith_app s suffix : JsText.endsWith (s +:+ suffix) suffix = true.
Proof.
  induction s as [|c s IH]; [apply endsWith_refl|].
  rewrite app_cons. cbn [JsText.endsWith]. rewrite IH. apply orb_true_r.
Qed.

Lemma endsWith_inv s suffix :
  JsText.endsWith s suffix = true → ∃ pre, s = pre +:+ suffix.
Proof.
  induction s as [|c s IH]; cbn [JsText.endsWith].
  - rewrite orb_false_r. intros <-%String.eqb_eq. by exists "".
  - intros [<-%String.eqb_eq|H]%orb_true_iff; [by exists ""|].
    destruct (IH H) as [pre ->]. by exists (String c pre).
Qed.

Lemma split_last_segment sep s t :
  JsString.has_char sep t = false →
  last (JsString.split sep (s +:+ String sep t)) = Some t.
Proof.
  intros Ht. rewrite split_app, (split_plain _ t) by done. apply last_snoc.
Qed.

Lemma slice_last_app_r s t :
  t ≠ "" → JsString.slice_last (s +:+ t) = JsString.slice_last t.
Proof.
  intros Ht. induction s as [|c s IH]; [done|]. rewrite app_cons.
  cbn [JsString.slice_last]. rewrite IH.
  destruct (s +:+ t) eqn:E; [|done]. by destruct s, t.
Qed.

Lemma take_drop i s : JsText.take i s +:+ JsText.drop i s = s.
Proof.
  revert s. induction i as [|i IH]; intros [|c s]; cbn; try done.
  by rewrite app_cons, IH.
Qed.

Lemma lastIndexOf_none s sub :
  JsText.lastIndexOf s sub = None → JsString.includes s sub = false.
Proof.
  induction s as [|c s IH]; cbn [JsText.lastIndexOf JsString.includes].
  - by destruct (String.prefix sub "").
  - destruct (JsText.lastIndexOf s sub); [done|].
    destruct (String.prefix sub (String c s)); [done|]. intros _.
    cbn [orb]. by apply IH.
Qed.

(** at the index found, [sub] starts, and it starts nowhere later *)
Lemma lastIndexOf_some s sub i :
  JsText.lastIndexOf s sub = Some i →
  String.prefix sub (JsText.drop i s) = true ∧
  JsText.lastIndexOf (JsText.drop i s) sub = Some 0.
Proof.
  revert i. induction s as [|c s IH]; intros i; cbn [JsText.lastIndexOf].
  - destruct (String.prefix sub "") eqn:E; [|done]. intros [= <-].
    cbn [JsText.drop JsText.lastIndexOf]. by rewrite E.
  - destruct (JsText.lastIndexOf s sub) as [j|] eqn:Hj.
    + intros [= <-]. cbn [JsText.drop]. by apply IH.
    + destruct (String.prefix sub (String c s)) eqn:E; [|done].
      intros [= <-]. cbn [JsText.drop JsText.lastIndexOf]. by rewrite Hj, E.
Qed.

End TextFacts.


(** ** Reads of the file table *)

Section ObjectFacts.
Implicit Types (fs : FileSystemState) (key : string).

Lemma get_own fs key s : fs !! key = Some s → JsObject.get fs key = Str s.
Proof. intros H. unfold JsObject.get. by rewrite H. Qed.

(** a key that no property of [Object.prototype] has is read from the own
    properties alone *)
Lemma get_plain_key fs key :
  key ≠ "__proto__" → key ∉ JsObject.prototypeMethods →
  JsObject.get fs key = from_option Str Undefined (fs !! key).
Proof.
  intros H1%String.eqb_neq H2. unfold JsObject.get.
  destruct (fs !! key); [done|]. cbn. rewrite H1.
  by rewrite bool_decide_eq_false_2.
Qed.

Lemma has_char_app c (s t : string) :
  JsString.has_char c t = true → JsString.has_char c (s +:+ t) = true.
Proof.
  intros Ht. induction s as [|d s IH]; [done|].
  rewrite app_cons. cbn. rewrite IH. apply orb_true_r.
Qed.

(** no property of [Object.prototype] has a slash or a dot in its name *)
Lemma get_marked_key c fs key :
  c = "/"%char ∨ c = "."%char →
  JsString.has_char c key = true →
  JsObject.get fs key = from_option Str Undefined (fs !! key).
Proof.
  intros Hc Hkey. apply get_plain_key.
  - intros ->. by destruct Hc as [-> | ->].
  - intros Hin. unfold JsObject.prototypeMethods in Hin.
    repeat (apply elem_of_cons in Hin as [-> | Hin];
            [by destruct Hc as [-> | ->]|]).
    by apply elem_of_nil in Hin.
Qed.

Lemma get_indexPathOf fs (root : string) :
  JsObject.get fs (indexPathOf root)
  = from_option Str Undefined (fs !! indexPathOf root).
Proof. apply (get_marked_key "."); [by right|]. by apply has_char_app. Qed.

Lemma get_slash fs (rest : string) :
  JsObject.get fs ("/" +:+ rest) = from_option Str Undefined (fs !! ("/" +:+ rest)).
Proof. apply (get_marked_key "/"); [by left|done]. Qed.

(** an assignment under a key other than [__proto__] stores the value *)
Lemma set_plain_key fs key value :
  key ≠ "__proto__" → JsObject.set fs key value = <[key := value]> fs.
Proof. intros H%String.eqb_neq. unfold JsObject.set. by rewrite H. Qed.

Lemma set_slash fs (rest value : string) :
  JsObject.set fs ("/" +:+ rest) value = <[("/" +:+ rest) := value]> fs.
Proof. by apply set_plain_key. Qed.

End ObjectFacts.

(** ** Path resolution *)

(** A base that ends in a slash always yields a doubled slash before a
    plain name. *)
Lemma resolvePath_directory_base (dir name : string) :
  JsString.has_char "/" name = false → name ≠ "." → name ≠ ".." →
  resolvePath (dir +:+ "/") name = dir +:+ "//" +:+ name.
Proof.
  intros Hplain Hdot Hdots. unfold resolvePath.
  rewrite slice_last_app, split_app, (split_plain _ name) by done.
  cbn [negb String.eqb Ascii.eqb Bool.eqb fold_left JsString.split].
  unfold resolve_segment.
  apply String.eqb_neq in Hdot, Hdots. rewrite Hdot, Hdots.
  unfold JsArray.push. rewrite <-app_assoc. cbn [app].
  rewrite join_app; [|apply split_nonempty|done].
  by rewrite join_split.
Qed.

(** One [..] against a file directly under the root already drops the
    leading slash. *)
Lemma resolvePath_above_root (file name : string) :
  file ≠ "" → JsString.has_char "/" file = false →
  JsString.has_char "/" name = false → name ≠ "." → name ≠ ".." →
  resolvePath ("/" +:+ file) ("../" +:+ name) = name.
Proof.
  intros Hfile Hf Hplain Hdot Hdots. unfold resolvePath.
  change ("/" +:+ file) with ("" +:+ String "/" file).
  change ("../" +:+ name) with (".." +:+ String "/" name).
  rewrite !split_app, (split_plain _ file), (split_plain _ name) by done.
  change (JsString.split "/" "..") with [".."].
  change (JsString.split "/" "") with [""].
  assert (JsString.slice_last ("" +:+ String "/" file) = JsString.slice_last file)
    as -> by (rewrite app_empty; by destruct file).
  pose proof (slice_last_plain "/" file Hf) as Hlast.
  apply String.eqb_neq in Hlast, Hdot, Hdots. rewrite Hlast.
  cbn [negb app fold_left].
  change (JsArray.pop [""; file]) with [""].
  change (resolve_segment [""] "..") with (@nil string).
  unfold resolve_segment. by rewrite Hdot, Hdots.
Qed.

(** C2. The first two equations of the specification hold.  The third does
    not: a base ending in a slash keeps its trailing empty segment, so the
    pushed name lands behind a doubled slash. *)
Theorem resolvePath_spec_equations :
  resolvePath "/a/b/index.html" "./x.css" = "/a/b/x.css" ∧
  resolvePath "/a/b/index.html" "../x.css" = "/a/x.css" ∧
  resolvePath "/a/" "x.css" = "/a//x.css" ∧
  resolvePath "/a/" "x.css" ≠ "/a/x.css".
Proof. repeat split; try reflexivity. discriminate. Qed.


(** ** The builder on a missing root document *)

(** C4. When the table has no entry at [`${previewRoot}index.html`], the
    builder returns (it raises nothing) the placeholder that names the
    preview root and the missing [index.html], and leaves the browser as it
    was: no object URL is created, nothing is logged, no attribute is
    rewritten. *)
Theorem generatePreview_missing_index `{platform : Platform}
    (fileSystem : FileSystemState) (previewRoot : string) (br : Browser) :
  previewRoot ≠ "" →
  fileSystem !! indexPathOf previewRoot = None →
  generatePreview fileSystem (Some previewRoot) br = (noIndexDocument previewRoot, br) ∧
  JsString.includes (noIndexDocument previewRoot) "index.html" = true ∧
  ∃ before after, noIndexDocument previewRoot = before +:+ previewRoot +:+ after.
Proof.
  intros Hroot Hmiss. split; [|split].
  - assert (JsString.truthy (Some previewRoot) = true) as Htruthy
      by (by destruct previewRoot).
    unfold generatePreview. rewrite Htruthy. cbv [negb default from_option id].
    by rewrite get_indexPathOf, Hmiss.
  - reflexivity.
  - unfold noIndexDocument. eauto.
Qed.

Lemma generatePreview_missing_index_witness :
  generatePreview (platform := RefPlatform.platform)
    {["/README.md" := "# Welcome"]} (Some "/") freshBrowser
  = (noIndexDocument "/", freshBrowser).
Proof.
  apply (generatePreview_missing_index (platform := RefPlatform.platform)).
  - discriminate.
  - vm_compute. reflexivity.
Defined.

(** ** The host half of the bridge *)

(** C6. An event whose source is not the content window of the frame the
    host owns changes nothing: no message is posted and the host's state is
    the same. *)
Theorem handleIframeMessage_foreign_source (event : MessageEvent) (h : Host) :
  ¬ fromOwnFrame event h → handleIframeMessage event h = h.
Proof.
  intros Hnot. unfold handleIframeMessage.
  destruct (iframe h) as [w|] eqn:Hframe; [|done].
  case_bool_decide as Hsrc; [|done].
  exfalso. apply Hnot. exists w. by rewrite Hframe.
Qed.

Lemma handleIframeMessage_foreign_source_witness :
  let h := {| fileSystem := {["/data.json" := "{}"]}; iframe := Some 7;
              posted := []; uncaught := [] |} in
  handleIframeMessage {| source := Some 3; data := FETCH_REQUEST "/data.json" "req_1" |} h = h.
Proof.
  intros h. apply handleIframeMessage_foreign_source.
  intros (w & Hframe & Hsrc). cbn in Hframe, Hsrc. congruence.
Defined.

(** what the listener does with a request from its own frame *)
Lemma handleIframeMessage_request (event : MessageEvent) (h : Host)
    (w : window) (path requestId : string) :
  iframe h = Some w → source event = Some w →
  data event = FETCH_REQUEST path requestId →
  handleIframeMessage event h
  = match JsObject.get (fileSystem h) path with
    | Undefined =>
        postMessage w
          (FETCH_RESPONSE requestId (Str ("File not found: " +:+ path)) 404
             [("Content-Type", "text/plain")]) h
    | content =>
        postMessage w
          (FETCH_RESPONSE requestId content 200 [("Content-Type", getMimeType path)]) h
    end.
Proof.
  intros Hframe Hsrc Hdata. unfold handleIframeMessage.
  rewrite Hframe, Hsrc, Hdata. by rewrite bool_decide_eq_true_2.
Qed.

(** ** The shim half of the bridge *)

Section ShimFacts.
Variable pathname : string → option string.
Variable constructible : JsValue → Z → Headers → bool.
Variable parent : window.

Lemma shimInvariant_fresh : shimInvariant freshShim.
Proof.
  split; cbn; intros *; rewrite ?lookup_empty; try done.
  - constructor.
  - by intros ?%elem_of_nil.
  - by intros ?%elem_of_nil.
Qed.

Lemma shimInvariant_fetch url requestId s :
  shimInvariant s → shimInvariant (shimFetch pathname url requestId s).
Proof.
  intros [H1 H2 Hd H3 H4 Hk H5]. unfold shimFetch.
  destruct (_ || _); [by split|].
  assert (∀ id k, <[requestId := promises s]> (pendingRequests s) !! id = Some k →
                  k < S (promises s)) as Hold.
  { intros id k. rewrite lookup_insert. case_decide; [intros [= <-]; lia|].
    intros Hk'. specialize (H3 id k Hk'). lia. }
  assert (∀ id k, <[requestId := promises s]> (pendingRequests s) !! id = Some k →
                  k ∉ dropped s) as Hkept.
  { intros id k. rewrite lookup_insert. case_decide; [|by apply Hk].
    intros [= <-] Hin. specialize (Hd _ Hin). lia. }
  assert (∀ id1 id2 k,
            <[requestId := promises s]> (pendingRequests s) !! id1 = Some k →
            <[requestId := promises s]> (pendingRequests s) !! id2 = Some k →
            id1 = id2) as Hinj.
  { intros id1 id2 k. rewrite !lookup_insert.
    repeat case_decide; subst; try done.
    - intros [= <-] Hk'. specialize (H3 _ _ Hk'). lia.
    - intros Hk' [= <-]. specialize (H3 _ _ Hk'). lia.
    - apply H5. }
  destruct (pathname url) as [absoluteUrl|]; split; cbn; try done.
  - intros k Hin. specialize (H2 k Hin). lia.
  - intros k Hin. specialize (Hd k Hin). lia.
  - intros id k how. rewrite lookup_insert. case_decide.
    + intros [= <-] Hin. assert (promises s ∈ (settled s).*1) as Hin'
        by (apply list_elem_of_fmap; by exists (promises s, how)).
      specialize (H2 _ Hin'). lia.
    + apply H4.
  - rewrite fmap_app. cbn. apply NoDup_app. split; [done|]. split.
    + intros k Hin ->%list_elem_of_singleton. specialize (H2 _ Hin). lia.
    + apply NoDup_singleton.
  - intros k. rewrite fmap_app, elem_of_app. cbn.
    intros [Hin| ->%list_elem_of_singleton]; [specialize (H2 _ Hin)|]; lia.
  - intros k Hin. specialize (Hd k Hin). lia.
  - intros id k how Hp. rewrite elem_of_app, list_elem_of_singleton.
    intros [Hin|[= _ ->]]; [|done].
    revert Hp. rewrite lookup_insert. case_decide; [|intros Hp; by eapply H4].
    intros [= <-]. assert (promises s ∈ (settled s).*1) as Hin'
      by (apply list_elem_of_fmap; by exists (promises s, how)).
    specialize (H2 _ Hin'). lia.
Qed.

Lemma shimInvariant_forget requestId promise s :
  shimInvariant s → pendingRequests s !! requestId = Some promise →
  shimInvariant (forget requestId s) ∧
  promise < promises s ∧
  ∀ id k, pendingRequests (forget requestId s) !! id = Some k → k ≠ promise.
Proof.
  intros [H1 H2 Hd H3 H4 Hk H5] Hp. split; [split; cbn; try done|split].
  - intros id k [_ Hk']%lookup_delete_Some. by eapply H3.
  - intros id k how [_ Hk']%lookup_delete_Some. by eapply H4.
  - intros id k [_ Hk']%lookup_delete_Some. by eapply Hk.
  - intros id1 id2 k [_ Hk1]%lookup_delete_Some [_ Hk2]%lookup_delete_Some.
    by eapply H5.
  - by eapply H3.
  - cbn. intros id k [Hne Hk']%lookup_delete_Some ->. apply Hne. by eapply H5.
Qed.

Lemma shimInvariant_settle promise how s :
  shimInvariant s → promise < promises s →
  (∀ id k, pendingRequests s !! id = Some k → k ≠ promise) →
  shimInvariant (settle promise how s).
Proof.
  intros [H1 H2 Hd H3 H4 Hk H5] Hold Hfree. unfold settle.
  case_bool_decide as Hin; [by split|]. split; cbn; try done.
  - rewrite fmap_app. cbn. apply NoDup_app. split; [done|]. split.
    + by intros k Hk' ->%list_elem_of_singleton.
    + apply NoDup_singleton.
  - intros k. rewrite fmap_app, elem_of_app. cbn.
    intros [Hk'| ->%list_elem_of_singleton]; [by apply H2|done].
  - intros id k how' Hp. rewrite elem_of_app, list_elem_of_singleton.
    intros [Hin'|[= -> _]]; [by eapply H4|]. by destruct (Hfree _ _ Hp).
Qed.

Lemma shimInvariant_drop promise s :
  shimInvariant s → promise < promises s →
  (∀ id k, pendingRequests s !! id = Some k → k ≠ promise) →
  shimInvariant (drop_promise promise s).
Proof.
  intros [H1 H2 Hd H3 H4 Hk H5] Hold Hfree. split; cbn; try done.
  - intros k. rewrite elem_of_app, list_elem_of_singleton.
    intros [Hin| ->]; [by apply Hd|done].
  - intros id k Hp. rewrite elem_of_app, list_elem_of_singleton.
    intros [Hin| ->]; [by eapply Hk|]. by destruct (Hfree _ _ Hp).
Qed.

Lemma shimInvariant_message event s :
  shimInvariant s → shimInvariant (shimOnMessage constructible parent event s).
Proof.
  intros Hs. unfold shimOnMessage.
  destruct (negb _); [done|].
  destruct (data event) as [| requestId content st hd |]; try done.
  destruct (pendingRequests s !! requestId) as [promise|] eqn:Hp; [|done].
  destruct (shimInvariant_forget _ _ _ Hs Hp) as (Hs' & Hold & Hfree).
  destruct (_ && _)%Z; [destruct (constructible _ _ _)|].
  - by apply shimInvariant_settle.
  - by apply shimInvariant_drop.
  - by apply shimInvariant_settle.
Qed.

Lemma shimInvariant_run es s :
  shimInvariant s → shimInvariant (shimRun pathname constructible parent es s).
Proof.
  revert s. induction es as [|e es IH]; intros s Hs; [done|].
  cbn. apply IH. destruct e; cbn;
    [by apply shimInvariant_fetch | by apply shimInvariant_message].
Qed.

(** a promise that is about to be created is not settled *)
Lemma shimInvariant_next_open s :
  shimInvariant s → promises s ∉ (settled s).*1.
Proof. intros Hs Hin. pose proof (inv_settled_old s Hs _ Hin). lia. Qed.

Lemma shimOnMessage_not_pending event s requestId content st hd :
  data event = FETCH_RESPONSE requestId content st hd →
  pendingRequests s !! requestId = None →
  shimOnMessage constructible parent event s = s.
Proof.
  intros Hdata Hnone. unfold shimOnMessage. rewrite Hdata, Hnone.
  by destruct (negb _).
Qed.

(** what the listener does with a response from the parent for a pending
    id *)
Lemma shimOnMessage_pending s requestId content st hd promise :
  pendingRequests s !! requestId = Some promise →
  shimOnMessage constructible parent
    {| source := Some parent; data := FETCH_RESPONSE requestId content st hd |} s
  = if bool_decide (200 ≤ st < 300)%Z then
      if constructible content st hd
      then settle promise
             (Resolved {| body := content; status := st; headers := hd |})
             (forget requestId s)
      else drop_promise promise (forget requestId s)
    else settle promise (Rejected st) (forget requestId s).
Proof.
  intros Hp. unfold shimOnMessage. cbn [source data].
  rewrite bool_decide_eq_true_2 by done. cbn [negb]. rewrite Hp.
  case_bool_decide as Hr.
  - destruct Hr as [->%Z.leb_le ->%Z.ltb_lt]. done.
  - destruct (200 <=? st)%Z eqn:E1, (st <? 300)%Z eqn:E2; try done.
    exfalso. apply Hr. split; [by apply Z.leb_le|by apply Z.ltb_lt].
Qed.

End ShimFacts.


(** ** Content types by extension *)

Lemma extension_of_dotted (stem ext : string) :
  JsString.has_char "." ext = false →
  extension_of (stem +:+ "." +:+ ext) = JsString.toLowerCase ext.
Proof.
  intros Hext. unfold extension_of, JsArray.popped.
  change (stem +:+ "." +:+ ext) with (stem +:+ String "." ext).
  by rewrite split_last_segment.
Qed.

(** the cases of the [switch] in [getMimeType], read off the extension *)
Lemma getMimeType_table (stem ext : string) :
  JsString.has_char "." ext = false →
  getMimeType (stem +:+ "." +:+ ext)
  = default "application/octet-stream"
      (({[ "html" := "text/html"; "css" := "text/css";
           "js" := "application/javascript"; "json" := "application/json";
           "png" := "image/png"; "jpg" := "image/jpeg"; "jpeg" := "image/jpeg";
           "gif" := "image/gif"; "svg" := "image/svg+xml";
           "md" := "text/markdown" ]} : gmap string string)
         !! JsString.toLowerCase ext).
Proof.
  intros Hext. unfold getMimeType. rewrite extension_of_dotted by done.
  generalize (JsString.toLowerCase ext). intros e.
  repeat match goal with
         | |- context [String.eqb e ?k] =>
             destruct (String.eqb_spec e k) as [->|?]; [vm_compute; reflexivity|]
         end.
  by rewrite !lookup_insert_ne, lookup_singleton_ne by done.
Qed.

(** ** Requests answered by the host *)

(** C1. An accepted request whose path is a key of the table is answered
    with status 200, the entry as content and the content type read off the
    extension of the path; one whose path is no key and no property of
    [Object.prototype] is answered with status 404 and a plain-text body.
    A path that is no key but names a method every object inherits takes
    the branch of a hit: the inherited function cannot be posted, the
    listener raises and the frame gets no answer at all.  A call of the
    overridden [fetch] whose target the frame can resolve to a path comes
    back resolved with the entry and status 200, or rejected for status
    404; a target the frame cannot resolve is rejected on the spot and the
    host is never asked. *)
Theorem host_answers_request (pathname : string → option string)
    (constructible : JsValue → Z → Headers → bool) (parent frame : window)
    (h : Host) :
  (∀ event w path requestId content,
     iframe h = Some w → source event = Some w →
     data event = FETCH_REQUEST path requestId →
     fileSystem h !! path = Some content →
     handleIframeMessage event h
     = {| fileSystem := fileSystem h; iframe := iframe h;
          posted := posted h ++
            [(w, FETCH_RESPONSE requestId (Str content) 200
                   [("Content-Type", getMimeType path)])];
          uncaught := uncaught h |}) ∧
  (∀ stem ext,
     JsString.has_char "." ext = false →
     getMimeType (stem +:+ "." +:+ ext)
     = default "application/octet-stream"
         (({[ "html" := "text/html"; "css" := "text/css";
              "js" := "application/javascript"; "json" := "application/json";
              "png" := "image/png"; "jpg" := "image/jpeg"; "jpeg" := "image/jpeg";
              "gif" := "image/gif"; "svg" := "image/svg+xml";
              "md" := "text/markdown" ]} : gmap string string)
            !! JsString.toLowerCase ext)) ∧
  (∀ event w path requestId,
     iframe h = Some w → source event = Some w →
     data event = FETCH_REQUEST path requestId →
     fileSystem h !! path = None →
     path ≠ "__proto__" → path ∉ JsObject.prototypeMethods →
     handleIframeMessage event h
     = {| fileSystem := fileSystem h; iframe := iframe h;
          posted := posted h ++
            [(w, FETCH_RESPONSE requestId (Str ("File not found: " +:+ path)) 404
                   [("Content-Type", "text/plain")])];
          uncaught := uncaught h |}) ∧
  (∀ event w path requestId,
     iframe h = Some w → source event = Some w →
     data event = FETCH_REQUEST path requestId →
     fileSystem h !! path = None → path ∈ JsObject.prototypeMethods →
     handleIframeMessage event h
     = {| fileSystem := fileSystem h; iframe := iframe h; posted := posted h;
          uncaught := uncaught h ++ ["DataCloneError"] |}) ∧
  (∀ es url requestId path,
     let s := shimRun pathname constructible parent es freshShim in
     let out := fetchRoundTrip pathname constructible parent frame url requestId h s in
     iframe h = Some frame → virtualTarget url = true → pathname url = Some path →
     (∀ content,
        fileSystem h !! path = Some content →
        constructible (Str content) 200%Z [("Content-Type", getMimeType path)] = true →
        settled out.2
        = settled s ++
            [(promises s,
              Resolved {| body := Str content; status := 200;
                          headers := [("Content-Type", getMimeType path)] |})]) ∧
     (fileSystem h !! path = None →
      path ≠ "__proto__" → path ∉ JsObject.prototypeMethods →
      settled out.2 = settled s ++ [(promises s, Rejected 404)]) ∧
     (fileSystem h !! path = None → path ∈ JsObject.prototypeMethods →
      settled out.2 = settled s ∧
      pendingRequests out.2 !! requestId = Some (promises s))) ∧
  (∀ s url requestId,
     let out := fetchRoundTrip pathname constructible parent frame url requestId h s in
     virtualTarget url = true → pathname url = None →
     out.1 = h ∧ toParent out.2 = toParent s ∧
     settled out.2 = settled s ++ [(promises s, RejectedByExecutor)]) ∧
  handleIframeMessage
    {| source := Some 7; data := FETCH_REQUEST "constructor" "req_1" |}
    {| fileSystem := {["/data.json" := "{}"]}; iframe := Some 7;
       posted := []; uncaught := [] |}
  = {| fileSystem := {["/data.json" := "{}"]}; iframe := Some 7;
       posted := []; uncaught := ["DataCloneError"] |}.
Proof.
  assert (∀ path, path ∈ JsObject.prototypeMethods → fileSystem h !! path = None →
                  JsObject.get (fileSystem h) path = NativeFunction path) as Hmethod.
  { intros path Hin Hnone. unfold JsObject.get. rewrite Hnone.
    rewrite bool_decide_eq_true_2 by done.
    destruct (String.eqb_spec path "__proto__") as [->|]; [|done].
    exfalso. unfold JsObject.prototypeMethods in Hin.
    repeat (apply elem_of_cons in Hin as [?|Hin]; [done|]).
    by apply elem_of_nil in Hin. }
  split; [|split; [|split; [|split; [|split; [|split]]]]].
  - intros event w path requestId content Hframe Hsrc Hdata Hhit.
    rewrite (handleIframeMessage_request _ _ w path requestId) by done.
    by rewrite (get_own _ _ content).
  - apply getMimeType_table.
  - intros event w path requestId Hframe Hsrc Hdata Hmiss Hp Hm.
    rewrite (handleIframeMessage_request _ _ w path requestId) by done.
    by rewrite get_plain_key, Hmiss.
  - intros event w path requestId Hframe Hsrc Hdata Hmiss Hm.
    rewrite (handleIframeMessage_request _ _ w path requestId) by done.
    by rewrite Hmethod.
  - intros es url requestId path s out Hframe Hvirt Hpath.
    pose proof (shimInvariant_run pathname constructible parent es _
                  shimInvariant_fresh) as Hinv. fold s in Hinv.
    pose proof (shimInvariant_next_open _ Hinv) as Hopen.
    assert (shimFetch pathname url requestId s
            = {| pendingRequests := <[requestId := promises s]> (pendingRequests s);
                 promises := S (promises s); settled := settled s;
                 dropped := dropped s;
                 toParent := toParent s ++ [FETCH_REQUEST path requestId];
                 passedThrough := passedThrough s |}) as Hfetch.
    { unfold shimFetch. unfold virtualTarget in Hvirt.
      apply negb_true_iff in Hvirt. by rewrite Hvirt, Hpath. }
    assert (∀ m : MessageData,
              cloneable m = true →
              handleIframeMessage
                {| source := Some frame; data := FETCH_REQUEST path requestId |} h
              = postMessage frame m h →
              out.2 = deliverToShim constructible parent m
                        (shimFetch pathname url requestId s)) as Hcarry.
    { intros m Hm Hhost. unfold out, fetchRoundTrip. cbn [snd].
      rewrite Hfetch. cbn [toParent]. rewrite drop_app_length. cbn [fold_left].
      unfold deliverToHost. rewrite Hhost. unfold postMessage. rewrite Hm.
      cbn [posted]. by rewrite drop_app_length. }
    split; [|split].
    + intros content Hhit Hok.
      rewrite (Hcarry (FETCH_RESPONSE requestId (Str content) 200
                         [("Content-Type", getMimeType path)])); [|done|].
      * unfold deliverToShim. rewrite (shimOnMessage_pending _ _ _ _ _ _ _ (promises s))
          by (rewrite Hfetch; apply lookup_insert_eq).
        rewrite bool_decide_eq_true_2 by lia. rewrite Hok, Hfetch.
        unfold settle. cbn [forget settled]. by rewrite bool_decide_eq_false_2.
      * rewrite (handleIframeMessage_request _ _ frame path requestId) by done.
        by rewrite (get_own _ _ content).
    + intros Hmiss Hp Hm.
      rewrite (Hcarry (FETCH_RESPONSE requestId (Str ("File not found: " +:+ path)) 404
                         [("Content-Type", "text/plain")])); [|done|].
      * unfold deliverToShim. rewrite (shimOnMessage_pending _ _ _ _ _ _ _ (promises s))
          by (rewrite Hfetch; apply lookup_insert_eq).
        rewrite bool_decide_eq_false_2 by lia. rewrite Hfetch.
        unfold settle. cbn [forget settled]. by rewrite bool_decide_eq_false_2.
      * rewrite (handleIframeMessage_request _ _ frame path requestId) by done.
        by rewrite get_plain_key, Hmiss.
    + intros Hmiss Hm.
      assert (out.2 = shimFetch pathname url requestId s) as ->.
      { unfold out, fetchRoundTrip. cbn [snd].
        rewrite Hfetch. cbn [toParent]. rewrite drop_app_length. cbn [fold_left].
        unfold deliverToHost.
        rewrite (handleIframeMessage_request _ _ frame path requestId) by done.
        rewrite Hmethod by done. unfold postMessage. cbn [cloneable posted].
        by rewrite drop_all. }
      rewrite Hfetch. cbn. split; [done|]. apply lookup_insert_eq.
  - intros s url requestId out Hvirt Hnone.
    assert (shimFetch pathname url requestId s
            = {| pendingRequests := <[requestId := promises s]> (pendingRequests s);
                 promises := S (promises s);
                 settled := settled s ++ [(promises s, RejectedByExecutor)];
                 dropped := dropped s; toParent := toParent s;
                 passedThrough := passedThrough s |}) as Hfetch.
    { unfold shimFetch. unfold virtualTarget in Hvirt.
      apply negb_true_iff in Hvirt. by rewrite Hvirt, Hnone. }
    unfold out, fetchRoundTrip. rewrite Hfetch. cbn [toParent fst snd].
    rewrite drop_all. cbn [fold_left]. rewrite drop_all. done.
  - vm_compute. reflexivity.
Qed.

Lemma host_answers_request_witness :
  let h := {| fileSystem := {["/data.json" := "{}"]}; iframe := Some 7;
              posted := []; uncaught := [] |} in
  handleIframeMessage {| source := Some 7; data := FETCH_REQUEST "/data.json" "req_1" |} h
  = {| fileSystem := {["/data.json" := "{}"]}; iframe := Some 7;
       posted := [(7, FETCH_RESPONSE "req_1" (Str "{}") 200
                        [("Content-Type", "application/json")])];
       uncaught := [] |} ∧
  settled (fetchRoundTrip RefPlatform.pathname RefPlatform.constructible 0 7
             "app:/data.json" "req_2" h freshShim).2
  = [(0, Resolved {| body := Str "{}"; status := 200;
                     headers := [("Content-Type", "application/json")] |})] ∧
  settled (fetchRoundTrip RefPlatform.pathname RefPlatform.constructible 0 7
             "app:/nope.txt" "req_3" h freshShim).2
  = [(0, Rejected 404)] ∧
  settled (fetchRoundTrip RefPlatform.pathname RefPlatform.constructible 0 7
             "data.json" "req_4" h freshShim).2
  = [(0, RejectedByExecutor)].
Proof.
  intros h.
  destruct (host_answers_request RefPlatform.pathname RefPlatform.constructible 0 7 h)
    as (Hhit & _ & _ & _ & Htrip & Hnone & _).
  split; [|split; [|split]].
  - apply (Hhit _ 7 "/data.json" "req_1" "{}"); reflexivity.
  - destruct (Htrip [] "app:/data.json" "req_2" "/data.json") as (Hok & _ & _);
      [reflexivity..|].
    apply (Hok "{}"); reflexivity.
  - destruct (Htrip [] "app:/nope.txt" "req_3" "/nope.txt") as (_ & Hmiss & _);
      [reflexivity..|].
    apply Hmiss; [reflexivity|discriminate|].
    unfold JsObject.prototypeMethods.
    repeat (apply not_elem_of_cons; split; [discriminate|]). apply not_elem_of_nil.
  - destruct (Hnone freshShim "data.json" "req_4") as (_ & _ & Hs); [reflexivity..|].
    apply Hs.
Defined.


(** ** Settlements in the shim *)



(** ** External references in the builder *)

Lemma rewriteAsset_skips (fileSystem : FileSystemState) (indexPath : string)
    (a : attrs) (br : Browser) :
  skipsReference (getAttribute (srcAttrOf a) a) = true →
  rewriteAsset fileSystem indexPath a br = (a, br).
Proof. intros Hskip. unfold rewriteAsset. by rewrite Hskip. Qed.

(** References with a protocol prefix or the embedded-data marker are
    skipped by the loop. *)
Lemma skipsReference_http_data (originalPath : string) :
  JsString.startsWith originalPath "http" = true ∨
  JsString.startsWith originalPath "data:" = true →
  skipsReference (Some originalPath) = true.
Proof.
  intros [H|H]; unfold skipsReference; cbn [default from_option id];
    rewrite H; by rewrite ?orb_true_r.
Qed.

(** C3. The builder does not treat a reference that begins with two slashes
    as external.  Such a reference is never skipped and is looked up in the
    table under its own text; on the sample project the script reference
    [//cdn/lib.js] is replaced by an object URL and no longer occurs in the
    output.  The shim, in contrast, hands the same text to the network. *)
Theorem generatePreview_protocol_relative :
  (∀ rest indexPath,
     skipsReference (Some ("//" +:+ rest)) = false ∧
     assetPathOf indexPath ("//" +:+ rest) = "//" +:+ rest) ∧
  rewriteAsset Samples.cdnTable "/index.html"
    [("src", "//cdn/lib.js")] freshBrowser
  = ([("src", "blob:0")],
     {| objectURLs :=
          [("blob:0", {| blobParts := Str "alert(1)";
                         blobType := "application/javascript" |})];
        minted := 1; console := [] |}) ∧
  (let out := generatePreview (platform := RefPlatform.platform)
                Samples.cdnTable (Some "/") freshBrowser in
   (objectURLs out.2).*1 = ["blob:0"] ∧
   JsString.includes out.1 "//cdn/lib.js" = false ∧
   JsString.includes out.1 "blob:0" = true) ∧
  virtualTarget "//cdn/lib.js" = false.
Proof.
  split; [|split; [|split]].
  - intros rest indexPath. split; reflexivity.
  - vm_compute. reflexivity.
  - vm_compute. repeat split; reflexivity.
  - reflexivity.
Qed.

(** ** Object URLs across generations *)

Lemma rewriteAsset_appends (fileSystem : FileSystemState) (indexPath : string)
    (a : attrs) (br : Browser) :
  let br' := (rewriteAsset fileSystem indexPath a br).2 in
  objectURLs br `prefix_of` objectURLs br' ∧
  (length (objectURLs br) = minted br → length (objectURLs br') = minted br').
Proof.
  unfold rewriteAsset. destruct (skipsReference _); [done|].
  destruct (JsObject.truthy _); cbn; [|done].
  split; [by apply prefix_app_r|]. rewrite length_app. cbn. lia.
Qed.

Lemma rewriteAt_appends (fileSystem : FileSystemState) (indexPath : string)
    (acc : node * Browser) (p : path) :
  let br' := (rewriteAt fileSystem indexPath acc p).2 in
  objectURLs acc.2 `prefix_of` objectURLs br' ∧
  (length (objectURLs acc.2) = minted acc.2 → length (objectURLs br') = minted br').
Proof.
  unfold rewriteAt. destruct (node_at p acc.1) as [[s|s|tag a ch]|]; [done..| |done].
  pose proof (rewriteAsset_appends fileSystem indexPath a acc.2) as H.
  by destruct (rewriteAsset fileSystem indexPath a acc.2).
Qed.

Lemma rewriteAssets_appends (fileSystem : FileSystemState) (indexPath : string)
    (doc : node) (br : Browser) :
  let br' := (rewriteAssets fileSystem indexPath doc br).2 in
  objectURLs br `prefix_of` objectURLs br' ∧
  (length (objectURLs br) = minted br → length (objectURLs br') = minted br').
Proof.
  unfold rewriteAssets.
  generalize (select assetSelectors doc). intros elements.
  change br with (doc, br).2 at 1 3 4. generalize (doc, br). clear doc br.
  induction elements as [|p elements IH]; intros acc; [done|].
  cbn [fold_left].
  destruct (rewriteAt_appends fileSystem indexPath acc p) as [H1 H2].
  destruct (IH (rewriteAt fileSystem indexPath acc p)) as [H3 H4].
  split; [by etrans|]. auto.
Qed.

Lemma generatePreview_appends `{platform : Platform} (fileSystem : FileSystemState)
    (previewRoot : option string) (br : Browser) :
  let br' := (generatePreview fileSystem previewRoot br).2 in
  objectURLs br `prefix_of` objectURLs br' ∧
  (length (objectURLs br) = minted br → length (objectURLs br') = minted br').
Proof.
  unfold generatePreview. destruct (negb _); [done|].
  destruct (JsObject.get fileSystem _) as [|indexContent|key|]; [done|..];
    (destruct (injectShim _) as [doc|]; [|done]);
    pose proof (rewriteAssets_appends fileSystem
      (indexPathOf (default "" previewRoot)) doc br) as H;
    by destruct (rewriteAssets _ _ doc br).
Qed.

Lemma regenerate_appends `{platform : Platform} (fileSystem : FileSystemState)
    (previewRoot : option string) (pv : Preview) :
  let pv' := regenerate fileSystem previewRoot pv in
  liveHandles pv `prefix_of` liveHandles pv' ∧
  (length (objectURLs (browser pv)) = minted (browser pv) →
   length (objectURLs (browser pv')) = minted (browser pv')).
Proof.
  unfold regenerate, liveHandles.
  pose proof (generatePreview_appends fileSystem previewRoot (browser pv)) as H.
  destruct (generatePreview _ _ (browser pv)) as [doc br]. cbn in *.
  destruct H as [[k ->] H]. split; [|done]. rewrite fmap_app. by apply prefix_app_r.
Qed.

(** C8, as the code has it.  The builder never releases an object URL: the
    handles live after any number of regenerations stay live, in order,
    after every further regeneration, and starting from a fresh browser
    every handle ever created is still live. *)
Theorem regenerations_keep_every_handle `{platform : Platform}
    (earlier later : list (FileSystemState * option string)) (pv : Preview) :
  liveHandles (regenerations earlier pv)
    `prefix_of` liveHandles (regenerations (earlier ++ later) pv) ∧
  length (liveHandles (regenerations later Samples.emptyPreview))
  = minted (browser (regenerations later Samples.emptyPreview)).
Proof.
  split.
  - unfold regenerations. rewrite fold_left_app.
    generalize (fold_left (λ pv i, regenerate i.1 i.2 pv) earlier pv).
    clear pv. induction later as [|i later IH]; intros pv0; [done|].
    cbn [fold_left]. etrans; [|apply IH]. apply regenerate_appends.
  - unfold liveHandles. rewrite length_fmap.
    assert (length (objectURLs (browser Samples.emptyPreview))
            = minted (browser Samples.emptyPreview)) as H0 by done.
    revert H0. generalize Samples.emptyPreview.
    unfold regenerations. induction later as [|i later IH]; intros pv0 Hpv; [done|].
    cbn [fold_left]. apply IH. by apply regenerate_appends.
Qed.

(** C8, as stated, fails on the sample project: after two regenerations the
    handle of the first generation is live although the installed document
    does not mention it. *)
Lemma regenerations_leave_stale_handle :
  let pv := regenerations (platform := RefPlatform.platform)
              [(Samples.imageTable, Some "/"); (Samples.imageTable, Some "/")]
              Samples.emptyPreview in
  liveHandles pv = ["blob:0"; "blob:1"] ∧
  JsString.includes (srcDoc pv) "blob:0" = false ∧
  ¬ onlyCurrentHandlesLive pv.
Proof.
  intros pv.
  assert (liveHandles pv = ["blob:0"; "blob:1"]) as Hlive by (vm_compute; reflexivity).
  assert (JsString.includes (srcDoc pv) "blob:0" = false) as Hdoc
    by (vm_compute; reflexivity).
  repeat split; [done..|].
  intros Hclaim. specialize (Hclaim "blob:0").
  rewrite Hdoc in Hclaim. rewrite Hlive in Hclaim.
  discriminate Hclaim. constructor.
Qed.

(** ** Committing an edit *)

(** C7. The commit stores [htmlDoc.body.innerHTML], not the document.  On
    the sample page the stored entry holds the body's content with the new
    text in the paragraph, and nothing of what surrounded the body: the
    title in the head and the [html], [head] and [body] tags are gone. *)
Theorem updateCodeFromDOM_drops_document_shell :
  let stored :=
    RefPlatform.innerHTML
      [Element "h1" [] [Text "Site"];
       Element "p" [("data-editable-id", "x"); ("contenteditable", "true")]
         [Text "new"]] in
  updateCodeFromDOM (platform := RefPlatform.platform) (Some "/") "x" "new"
    Samples.pageTable
  = Returns {[ "/index.html" := stored ]} ∧
  JsString.includes Samples.pageMarkup "<title>T</title>" = true ∧
  JsString.includes stored "<title>T</title>" = false ∧
  JsString.includes stored "<body>" = false ∧
  JsString.startsWith stored "<h1>Site</h1><p " = true ∧
  RefPlatform.parseFromString stored
  = bareDocument
      [Element "h1" [] [Text "Site"];
       Element "p" [("data-editable-id", "x"); ("contenteditable", "true")]
         [Text "new"]].
Proof. vm_compute. repeat split; reflexivity. Qed.

(** ** References that leave the root *)

Lemma handleApplyCode_files (codeUpdates : list CodeUpdate) (ws : Workspace) :
  wsFiles (handleApplyCode codeUpdates ws) = applyUpdates codeUpdates (wsFiles ws).
Proof. unfold handleApplyCode. by destruct (JsString.truthy _). Qed.

(** C10, as the code has it.  A base that begins with a slash does not
    force the result to begin with one: enough [..] segments pop the leading
    empty segment, and the builder then looks up a key without a leading
    slash.  The table can hold such a key, since [handleNewFile] and
    [handleApplyCode] store a path as it is given; the reference then
    resolves to that entry and is served from it. *)
Theorem resolvePath_leaves_root :
  resolvePath "/index.html" "../../x.css" = "x.css" ∧
  (∃ base relative,
      JsString.startsWith base "/" = true ∧
      JsString.includes relative ".." = true ∧
      JsString.startsWith (resolvePath base relative) "/" = false) ∧
  assetPathOf (indexPathOf "/") "../../x.css" = "x.css" ∧
  (∀ path ws, wsFiles (handleNewFile path ws) !! path = Some "") ∧
  (∀ path content ws,
     path ≠ "__proto__" →
     wsFiles (handleApplyCode [{| updPath := path; updContent := content |}] ws)
       !! path = Some content) ∧
  (∀ fs text br,
     fs !! "x.css" = Some text → text ≠ "" →
     rewriteAsset fs (indexPathOf "/") [("href", "../../x.css")] br
     = ([("href", blobUrl (minted br))],
        {| objectURLs := objectURLs br ++
             [(blobUrl (minted br),
               {| blobParts := Str text; blobType := "text/css" |})];
           minted := S (minted br);
           console := console br |})).
Proof.
  split; [reflexivity|]. split; [|split; [reflexivity|split; [|split]]].
  - exists "/index.html", "../../x.css". repeat split; reflexivity.
  - intros path ws. cbn. apply lookup_insert_eq.
  - intros path content ws Hpath. rewrite handleApplyCode_files.
    unfold applyUpdates. cbn [fold_left updPath updContent].
    rewrite set_plain_key by done. apply lookup_insert_eq.
  - intros fs text br Hhit Htext. unfold rewriteAsset.
    change (srcAttrOf [("href", "../../x.css")]) with "href".
    change (getAttribute "href" [("href", "../../x.css")]) with (Some "../../x.css").
    change (skipsReference (Some "../../x.css")) with false.
    cbv [default from_option id].
    change (assetPathOf (indexPathOf "/") "../../x.css") with "x.css".
    rewrite (get_own _ _ text) by done.
    assert (JsObject.truthy (Str text) = true) as -> by (by destruct text).
    reflexivity.
Qed.

Lemma resolvePath_leaves_root_witness :
  wsFiles (handleApplyCode [{| updPath := "x.css"; updContent := "body{}" |}]
             (firstLoad ∅)) !! "x.css" = Some "body{}" ∧
  rewriteAsset {["x.css" := "body{}"]} (indexPathOf "/")
    [("href", "../../x.css")] freshBrowser
  = ([("href", "blob:0")],
     {| objectURLs := [("blob:0", {| blobParts := Str "body{}"; blobType := "text/css" |})];
        minted := 1; console := [] |}).
Proof.
  destruct resolvePath_leaves_root as (_ & _ & _ & _ & Hstore & Hserve).
  split.
  - apply Hstore. discriminate.
  - apply (Hserve {["x.css" := "body{}"]} "body{}" freshBrowser);
      [reflexivity|discriminate].
Defined.

(** C10, as stated, fails on a table the panel's own handlers build: after
    the agent's code is applied under the paths it gave, the table holds
    the key [x.css], the very key the escaped reference resolves to, and
    the builder serves the reference from that entry. *)
Lemma escaped_reference_hits :
  let ws :=
    handleApplyCode
      [{| updPath := "/index.html";
          updContent := "<html><head><link rel='stylesheet' href='../../x.css'></head><body></body></html>" |};
       {| updPath := "x.css"; updContent := "body{}" |}]
      (firstLoad ∅) in
  let key := resolvePath (indexPathOf "/") "../../x.css" in
  JsString.startsWith key "/" = false ∧
  wsFiles ws !! key = Some "body{}" ∧
  objectURLs (generatePreview (platform := RefPlatform.platform)
                (wsFiles ws) (previewRootOf ws) freshBrowser).2
  = [("blob:0", {| blobParts := Str "body{}"; blobType := "text/css" |})].
Proof. vm_compute. repeat split; reflexivity. Qed.

(** ** Facts about attributes and inline style *)

Section AttrFacts.
Context {platform : Platform}.
Implicit Types (a : attrs) (ds : decls) (v : string).

Lemma lookup_attr_replace_eq name v a :
  lookup_attr name (replace_attr name v a) = Some v.
Proof.
  induction a as [|[k w] a IH]; cbn.
  - by rewrite String.eqb_refl.
  - destruct (String.eqb k name) eqn:E; cbn; by rewrite E.
Qed.

Lemma lookup_attr_replace_ne name k v a :
  name ≠ k → lookup_attr name (replace_attr k v a) = lookup_attr name a.
Proof.
  intros Hne. induction a as [|[k' w] a IH]; cbn.
  - destruct (String.eqb_spec k name); congruence.
  - destruct (String.eqb_spec k' k) as [->|]; cbn.
    + destruct (String.eqb_spec k name); congruence.
    + by rewrite IH.
Qed.

Lemma replace_attr_replace k v w a :
  replace_attr k v (replace_attr k w a) = replace_attr k v a.
Proof.
  induction a as [|[k' u] a IH]; cbn.
  - by rewrite String.eqb_refl.
  - destruct (String.eqb k' k) eqn:E; cbn; rewrite E; [done|by rewrite IH].
Qed.

(** a write through [el.style] touches the [style] attribute only *)
Lemma getAttribute_style_set name prop value a :
  name ≠ "style" →
  getAttribute name (style_set prop value a) = getAttribute name a.
Proof.
  intros Hne. unfold style_set, getAttribute, setAttribute.
  destruct (String.eqb value "").
  - destruct (declared _ _); [by apply lookup_attr_replace_ne|done].
  - destruct (declared_as _ _ _); [done|by apply lookup_attr_replace_ne].
Qed.

Lemma decl_get_set prop value ds : decl_get prop (decl_set prop value ds) = value.
Proof.
  induction ds as [|d ds IH]; cbn.
  - by rewrite String.eqb_refl.
  - destruct (String.eqb (declName d) prop) eqn:E; cbn;
      [by rewrite String.eqb_refl|by rewrite E].
Qed.

Lemma declared_as_set prop value ds :
  declared_as prop value (decl_set prop value ds) = true.
Proof.
  induction ds as [|d ds IH]; cbn.
  - by rewrite !String.eqb_refl.
  - destruct (String.eqb (declName d) prop) eqn:E; cbn;
      [by rewrite !String.eqb_refl|by rewrite E].
Qed.

Lemma declared_as_get prop value ds :
  declared_as prop value ds = true → decl_get prop ds = value.
Proof.
  induction ds as [|d ds IH]; cbn; [done|].
  destruct (String.eqb (declName d) prop); [|done].
  by intros [->%String.eqb_eq _]%andb_true_iff.
Qed.

Lemma declared_as_other prop v w ds :
  v ≠ w → declared_as prop w (decl_set prop v ds) = false.
Proof.
  intros Hne. induction ds as [|d ds IH]; cbn.
  - rewrite String.eqb_refl. cbn. apply andb_false_iff. left.
    by apply String.eqb_neq.
  - destruct (String.eqb (declName d) prop) eqn:E; cbn.
    + rewrite String.eqb_refl. apply andb_false_iff. left. by apply String.eqb_neq.
    + by rewrite E.
Qed.

Lemma decl_set_set prop v w ds :
  decl_set prop w (decl_set prop v ds) = decl_set prop w ds.
Proof.
  induction ds as [|d ds IH]; cbn.
  - by rewrite String.eqb_refl.
  - destruct (String.eqb (declName d) prop) eqn:E; cbn;
      [by rewrite String.eqb_refl|by rewrite E, IH].
Qed.

Lemma declared_remove prop ds : declared prop (decl_remove prop ds) = false.
Proof.
  induction ds as [|d ds IH]; cbn; [done|].
  destruct (String.eqb (declName d) prop) eqn:E; cbn; [done|by rewrite E].
Qed.

Lemma decl_get_undeclared prop ds :
  declared prop ds = false → decl_get prop ds = "" ∧ ∀ v, declared_as prop v ds = false.
Proof.
  induction ds as [|d ds IH]; cbn; [done|].
  destruct (String.eqb (declName d) prop); [done|]. apply IH.
Qed.

Lemma declared_get prop ds : decl_get prop ds ≠ "" → declared prop ds = true.
Proof.
  intros Hget. destruct (declared prop ds) eqn:E; [done|].
  by destruct (decl_get_undeclared _ _ E).
Qed.

Lemma declared_set prop v ds : declared prop (decl_set prop v ds) = true.
Proof.
  induction ds as [|d ds IH]; cbn.
  - by rewrite String.eqb_refl.
  - destruct (String.eqb (declName d) prop) eqn:E; cbn;
      [by rewrite String.eqb_refl|by rewrite E].
Qed.

(** the block of an attribute the platform just wrote *)
Lemma style_block_written ds a :
  styleReadsBack ds →
  style_block (setAttribute "style" (serializeStyle ds) a) = ds.
Proof.
  intros Hread. unfold style_block, getAttribute, setAttribute.
  by rewrite lookup_attr_replace_eq.
Qed.

(** setting a property to the value it was just set to changes nothing *)
Lemma style_set_twice prop value a :
  value ≠ "" →
  styleReadsBack (decl_set prop value (style_block a)) →
  style_set prop value (style_set prop value a) = style_set prop value a.
Proof.
  intros Hv%String.eqb_neq Hread. unfold style_set at 2. rewrite Hv.
  destruct (declared_as prop value (style_block a)) eqn:E.
  - unfold style_set. by rewrite Hv, E.
  - unfold style_set. rewrite Hv, style_block_written by done.
    by rewrite declared_as_set, E.
Qed.

(** setting a property one way and then another equals setting it the
    second way, unless it is declared the second way to begin with *)
Lemma style_set_then prop v w a :
  v ≠ "" → w ≠ "" →
  styleReadsBack (decl_set prop v (style_block a)) →
  declared_as prop w (style_block a) = false →
  style_set prop w (style_set prop v a) = style_set prop w a.
Proof.
  intros Hv%String.eqb_neq Hw%String.eqb_neq Hread Hnot.
  unfold style_set at 2. rewrite Hv.
  destruct (declared_as prop v (style_block a)) eqn:E; [done|].
  unfold style_set. rewrite Hw, Hnot, style_block_written by done.
  destruct (String.eqb_spec v w) as [->|Hne].
  - by rewrite declared_as_set.
  - rewrite declared_as_other by done. unfold setAttribute.
    by rewrite replace_attr_replace, decl_set_set.
Qed.

(** two toggles in a row write the block toggled twice *)
Lemma toggleAttrs_twice prop value a :
  value ≠ "" →
  styleReadsBack (decl_toggle prop value (style_block a)) →
  toggleAttrs prop value (toggleAttrs prop value a)
  = setAttribute "style"
      (serializeStyle (decl_toggle prop value (decl_toggle prop value (style_block a))))
      a.
Proof.
  intros Hv Hread. pose proof Hv as Hv'%String.eqb_neq.
  unfold decl_toggle in *. unfold toggleAttrs at 2. unfold style_get.
  destruct (String.eqb_spec (decl_get prop (style_block a)) value) as [Hon|Hoff].
  - assert (declared prop (style_block a) = true) as Hdecl
      by (apply declared_get; congruence).
    unfold style_set at 1. cbn [String.eqb]. rewrite Hdecl.
    unfold toggleAttrs, style_get. rewrite style_block_written by done.
    destruct (decl_get_undeclared _ _ (declared_remove prop (style_block a)))
      as [Hget Hnot].
    rewrite Hget. destruct (String.eqb_spec "" value) as [?|_]; [congruence|].
    unfold style_set. rewrite Hv', style_block_written, Hnot by done.
    unfold setAttribute. by rewrite replace_attr_replace.
  - unfold style_set at 1. rewrite Hv'.
    destruct (declared_as prop value (style_block a)) eqn:E;
      [by apply declared_as_get in E|].
    unfold toggleAttrs, style_get. rewrite style_block_written by done.
    rewrite decl_get_set, String.eqb_refl.
    unfold style_set. cbn [String.eqb].
    rewrite style_block_written, declared_set by done.
    unfold setAttribute. by rewrite replace_attr_replace.
Qed.

(** a block toggled twice shows the emphasis it showed *)
Lemma decl_toggle_twice prop value ds :
  value ≠ "" →
  String.eqb (decl_get prop (decl_toggle prop value (decl_toggle prop value ds))) value
  = String.eqb (decl_get prop ds) value.
Proof.
  intros Hv. unfold decl_toggle.
  destruct (String.eqb_spec (decl_get prop ds) value) as [Hon|Hoff].
  - destruct (decl_get_undeclared _ _ (declared_remove prop ds)) as [-> _].
    destruct (String.eqb_spec "" value) as [?|_]; [congruence|].
    by rewrite decl_get_set, String.eqb_refl.
  - rewrite decl_get_set, String.eqb_refl.
    destruct (decl_get_undeclared _ _ (declared_remove prop (decl_set prop value ds)))
      as [-> _].
    by apply String.eqb_neq.
Qed.

End AttrFacts.

(** ** Facts about positions in the tree *)

Section TreeFacts.
Implicit Types (n : node) (p : path) (f g : node → node).

Lemma alter_local {A} (h : A → A) (i : nat) (l : list A) :
  (∀ x, l !! i = Some x → h x = x) → alter h i l = l.
Proof.
  revert i. induction l as [|x l IH]; intros [|i] H; cbn; [done..| |].
  - f_equal. by apply H.
  - f_equal. apply IH. intros y Hy. by apply H.
Qed.

Lemma alter_agree {A} (h k : A → A) (i : nat) (l : list A) :
  (∀ x, l !! i = Some x → h x = k x) → alter h i l = alter k i l.
Proof.
  revert i. induction l as [|x l IH]; intros [|i] H; cbn; [done..| |].
  - f_equal. by apply H.
  - f_equal. apply IH. intros y Hy. by apply H.
Qed.

Lemma update_at_compose p f g n :
  update_at p f (update_at p g n) = update_at p (f ∘ g) n.
Proof.
  revert n. induction p as [|i p IH]; intros n; [done|].
  destruct n as [s|s|tag a ch]; cbn; [done..|]. f_equal.
  rewrite list_alter_alter_eq. apply alter_agree. intros x _. apply IH.
Qed.

Lemma update_at_agree p f g n :
  (∀ x, node_at p n = Some x → f x = g x) → update_at p f n = update_at p g n.
Proof.
  revert n. induction p as [|i p IH]; intros n H; cbn.
  - by apply H.
  - destruct n as [s|s|tag a ch]; [done..|]. f_equal.
    apply alter_agree. intros x Hx. apply IH. intros y Hy. apply H.
    cbn. by rewrite Hx.
Qed.

Lemma update_at_local p f n :
  (∀ x, node_at p n = Some x → f x = x) → update_at p f n = n.
Proof.
  revert n. induction p as [|i p IH]; intros n H; cbn.
  - by apply H.
  - destruct n as [s|s|tag a ch]; [done..|]. f_equal.
    apply alter_local. intros x Hx. apply IH. intros y Hy. apply H.
    cbn. by rewrite Hx.
Qed.

Lemma index_paths_alter (F : node → list path) (h : node → node) i k l :
  (∀ c, F (h c) = F c) →
  index_paths F k (alter h i l) = index_paths F k l.
Proof.
  intros HF. revert i k. induction l as [|c l IH]; intros [|i] k; cbn; [done..| |].
  - by rewrite HF.
  - by rewrite IH.
Qed.

(** an update that keeps what the selector looks at keeps the selection *)
Lemma select_update_at sel (ga : attrs → attrs) p n :
  (∀ tag a, sel tag (ga a) = sel tag a) →
  select sel (update_at p (map_attrs ga) n) = select sel n.
Proof.
  intros Hsel. revert n. induction p as [|i p IH]; intros n.
  - destruct n as [s|s|tag a ch]; cbn; [done..|]. by rewrite Hsel.
  - destruct n as [s|s|tag a ch]; cbn; [done..|]. f_equal.
    by apply index_paths_alter.
Qed.

Lemma head_index_paths (F : node → list path) k l i q :
  head (index_paths F k l) = Some (i :: q) →
  ∃ c, k ≤ i ∧ l !! (i - k) = Some c ∧ head (F c) = Some q.
Proof.
  revert k. induction l as [|c l IH]; intros k; cbn; [done|].
  destruct (F c) as [|q0 qs] eqn:HF; cbn.
  - intros (c' & Hle & Hc' & Hq)%IH. exists c'. split; [lia|]. split; [|done].
    replace (i - k) with (S (i - S k)) by lia. done.
  - intros [= <- <-]. exists c. rewrite Nat.sub_diag, HF. done.
Qed.

Lemma child_index_lookup tag l i :
  child_index tag l = Some i → ∃ c, l !! i = Some c ∧ is_element tag c = true.
Proof.
  revert i. induction l as [|c l IH]; intros i; cbn; [done|].
  destruct (is_element tag c) eqn:E.
  - intros [= <-]. eauto.
  - destruct (child_index tag l) as [i'|]; cbn; [|done].
    intros [= <-]. by apply IH.
Qed.

Lemma child_index_alter tag (h : node → node) i l :
  (∀ c, is_element tag (h c) = is_element tag c) →
  child_index tag (alter h i l) = child_index tag l.
Proof.
  intros Hh. revert i. induction l as [|c l IH]; intros [|i]; cbn; [done..| |].
  - by rewrite Hh.
  - by rewrite IH.
Qed.

Lemma is_element_update_at tag i p f n :
  is_element tag (update_at (i :: p) f n) = is_element tag n.
Proof. by destruct n. Qed.

End TreeFacts.

(** ** Two formatting actions in a row *)

Lemma editableSelector_style_set `{platform : Platform} id tag prop value a :
  editableSelector id tag (style_set prop value a) = editableSelector id tag a.
Proof. unfold editableSelector. by rewrite getAttribute_style_set. Qed.

Lemma editableSelector_setAttribute id tag value a :
  editableSelector id tag (setAttribute "style" value a) = editableSelector id tag a.
Proof.
  unfold editableSelector, getAttribute, setAttribute.
  by rewrite lookup_attr_replace_ne.
Qed.

Lemma selected_body (doc : node) (id : string) (bi j : nat) (p : path)
    (f : node → node) :
  selectedInBody doc id bi j p →
  ∃ btag ba bch,
    body_of doc = Some (Element btag ba bch) ∧
    body_of (update_at (bi :: j :: p) f doc)
    = Some (Element btag ba (alter (update_at p f) j bch)) ∧
    head (index_paths (select (editableSelector id)) 0 bch) = Some (j :: p) ∧
    node_at (bi :: j :: p) doc = node_at (j :: p) (Element btag ba bch).
Proof.
  intros [Hbody Hsel]. unfold body_path in Hbody.
  destruct doc as [s|s|htag ha hch]; [done..|]. cbn [children_of] in Hbody.
  destruct (child_index "body" hch) as [i|] eqn:Hi; [|done].
  injection Hbody as ->.
  destruct (child_index_lookup _ _ _ Hi) as (b & Hb & Hel).
  destruct b as [s|s|btag ba bch]; [done..|].
  exists btag, ba, bch. split; [|split; [|split]].
  - unfold body_of, body_path. cbn [children_of]. rewrite Hi. cbn. by rewrite Hb.
  - unfold body_of, body_path. cbn [update_at children_of].
    rewrite child_index_alter by (intros c; apply is_element_update_at).
    rewrite Hi. cbn. by rewrite list_lookup_alter_eq, Hb.
  - unfold querySelector in Hsel. cbn [select] in Hsel.
    destruct (editableSelector id htag ha); [done|]. cbn [app] in Hsel.
    apply head_index_paths in Hsel as (c & _ & Hc & Hq).
    rewrite Nat.sub_0_r, Hb in Hc. injection Hc as <-.
    cbn [select] in Hq. by destruct (editableSelector id btag ba).
  - cbn. by rewrite Hb.
Qed.

Lemma selection_survives (id : string) (j : nat) (p : path)
    (ga : attrs → attrs) (bch : list node) :
  (∀ tag a, editableSelector id tag (ga a) = editableSelector id tag a) →
  head (index_paths (select (editableSelector id)) 0 bch) = Some (j :: p) →
  selectedInBody (bareDocument (alter (update_at p (map_attrs ga)) j bch)) id 1 j p.
Proof.
  intros Hga Hhead. split; [done|].
  unfold querySelector, bareDocument. cbn [select index_paths].
  rewrite index_paths_alter by (intros c; by apply select_update_at).
  change (editableSelector id "html" []) with false.
  change (editableSelector id "head" []) with false.
  change (editableSelector id "body" []) with false.
  cbn [app map]. rewrite app_nil_r.
  destruct (index_paths _ 0 bch) as [|q qs]; [done|].
  cbn in *. by injection Hhead as ->.
Qed.

Section TwoEdits.
Context {platform : Platform}.
Variables (previewRoot : option string) (id : string).
Hypothesis plain : plainId id = true.

Lemma queryEditable_plain (doc : node) :
  queryEditable id doc = Some (querySelector (editableSelector id) doc).
Proof. unfold queryEditable. by rewrite plain. Qed.

Lemma rootDocument_stored (prev : FileSystemState) (html : string) :
  rootDocument previewRoot (<[indexPathOf (interpolate previewRoot) := html]> prev)
  = parseFromString html.
Proof.
  unfold rootDocument. by rewrite (get_own _ _ html) by apply lookup_insert_eq.
Qed.

Lemma updateElementInCode_selected (f : node → node) (prev : FileSystemState)
    (bi j : nat) (p : path) :
  selectedInBody (rootDocument previewRoot prev) id bi j p →
  updateElementInCode previewRoot id f prev
  = Returns (<[indexPathOf (interpolate previewRoot)
               := innerHTML (editedBody previewRoot id f prev)]> prev) ∧
  ∃ btag ba bch,
    body_of (rootDocument previewRoot prev) = Some (Element btag ba bch) ∧
    editedBody previewRoot id f prev = alter (update_at p f) j bch ∧
    head (index_paths (select (editableSelector id)) 0 bch) = Some (j :: p) ∧
    node_at (bi :: j :: p) (rootDocument previewRoot prev)
    = node_at (j :: p) (Element btag ba bch).
Proof.
  intros Hsel.
  destruct (selected_body _ _ _ _ _ f Hsel) as (btag & ba & bch & Hb & Hb' & Hh & Hn).
  destruct Hsel as [_ Hq].
  unfold updateElementInCode, editedBody, storeBody.
  fold (rootDocument previewRoot prev). rewrite queryEditable_plain, Hq, Hb'. cbn.
  split; [done|]. by exists btag, ba, bch.
Qed.

(** after a first edit that keeps the identifier, the element is found
    again, in the bare document the platform reads back *)
Lemma second_edit (ga : attrs → attrs) (f' : node → node)
    (prev : FileSystemState) (bi j : nat) (p : path) :
  (∀ tag a, editableSelector id tag (ga a) = editableSelector id tag a) →
  selectedInBody (rootDocument previewRoot prev) id bi j p →
  readsBack (editedBody previewRoot id (map_attrs ga) prev) →
  ∃ btag ba bch,
    body_of (rootDocument previewRoot prev) = Some (Element btag ba bch) ∧
    node_at (bi :: j :: p) (rootDocument previewRoot prev)
    = node_at (j :: p) (Element btag ba bch) ∧
    andThen (updateElementInCode previewRoot id (map_attrs ga) prev)
            (updateElementInCode previewRoot id f')
    = Returns (<[indexPathOf (interpolate previewRoot)
                 := innerHTML (children_of
                      (update_at (j :: p) (f' ∘ map_attrs ga) (Element btag ba bch)))]> prev).
Proof.
  intros Hga Hsel Hread.
  destruct (updateElementInCode_selected (map_attrs ga) prev bi j p Hsel)
    as (-> & btag & ba & bch & Hb & Hed & Hh & Hn).
  exists btag, ba, bch. split; [done|]. split; [done|].
  cbn [andThen]. rewrite Hed in *.
  set (ch1 := alter (update_at p (map_attrs ga)) j bch) in *.
  set (hp := indexPathOf (interpolate previewRoot)).
  assert (rootDocument previewRoot (<[hp := innerHTML ch1]> prev) = bareDocument ch1)
    as Hdoc by (unfold hp; rewrite rootDocument_stored; apply Hread).
  assert (selectedInBody (rootDocument previewRoot (<[hp := innerHTML ch1]> prev))
            id 1 j p) as Hsel'.
  { rewrite Hdoc. by apply selection_survives. }
  destruct (updateElementInCode_selected f' _ 1 j p Hsel')
    as (-> & btag' & ba' & bch' & Hb1 & Hed1 & _ & _).
  rewrite Hdoc in Hb1. injection Hb1 as <- <- <-.
  rewrite Hed1. fold hp. rewrite insert_insert_eq.
  cbn [update_at children_of]. unfold ch1. rewrite list_alter_alter_eq.
  do 3 f_equal. apply alter_agree. intros x _. apply update_at_compose.
Qed.

(** two updaters that agree on the selected element store the same table *)
Lemma updateElementInCode_agree (f g : node → node) (prev : FileSystemState)
    (bi j : nat) (p : path) (x : node) :
  selectedInBody (rootDocument previewRoot prev) id bi j p →
  node_at (bi :: j :: p) (rootDocument previewRoot prev) = Some x →
  f x = g x →
  updateElementInCode previewRoot id f prev = updateElementInCode previewRoot id g prev.
Proof.
  intros Hsel Hx Hfg.
  destruct (updateElementInCode_selected f prev bi j p Hsel)
    as (-> & btag & ba & bch & Hb & -> & _ & Hn).
  destruct (updateElementInCode_selected g prev bi j p Hsel)
    as (-> & btag' & ba' & bch' & Hb' & -> & _ & _).
  rewrite Hb in Hb'. injection Hb' as <- <- <-.
  do 3 f_equal. apply alter_agree. intros y Hy. apply update_at_agree.
  intros z Hz. rewrite Hn in Hx. cbn in Hx. rewrite Hy in Hx. cbn in Hx.
  rewrite Hz in Hx. by injection Hx as ->.
Qed.

(** two edits of the attributes in a row equal one edit by their
    composition, as far as the selected element goes *)
Lemma two_edits (ga gb gc : attrs → attrs) (prev : FileSystemState)
    (bi j : nat) (p : path) (tag : string) (a : attrs) (ch : list node) :
  (∀ tag a, editableSelector id tag (ga a) = editableSelector id tag a) →
  selectedInBody (rootDocument previewRoot prev) id bi j p →
  node_at (bi :: j :: p) (rootDocument previewRoot prev) = Some (Element tag a ch) →
  readsBack (editedBody previewRoot id (map_attrs ga) prev) →
  gb (ga a) = gc a →
  andThen (updateElementInCode previewRoot id (map_attrs ga) prev)
          (updateElementInCode previewRoot id (map_attrs gb))
  = updateElementInCode previewRoot id (map_attrs gc) prev.
Proof.
  intros Hga Hsel Hx Hread Hcomp.
  destruct (second_edit ga (map_attrs gb) prev bi j p Hga Hsel Hread)
    as (btag & ba & bch & Hb & Hn & ->).
  destruct (updateElementInCode_selected (map_attrs gc) prev bi j p Hsel)
    as (-> & btag' & ba' & bch' & Hb' & -> & _ & _).
  rewrite Hb in Hb'. injection Hb' as <- <- <-.
  do 3 f_equal. cbn [update_at children_of]. apply alter_agree.
  intros y Hy. apply update_at_agree. intros z Hz.
  rewrite Hn in Hx. cbn in Hx. rewrite Hy in Hx. cbn in Hx. rewrite Hz in Hx.
  injection Hx as ->. cbn. by rewrite Hcomp.
Qed.

End TwoEdits.

Lemma styleElement_toggle `{platform : Platform} (style : Emphasis) :
  styleElement style
  = map_attrs (toggleAttrs (emphasisProperty style) (emphasisValue style)).
Proof. by destruct style. Qed.

Lemma andThen_ext (o : Outcome) (f g : FileSystemState → Outcome) :
  (∀ x, f x = g x) → andThen o f = andThen o g.
Proof. intros H. destruct o; cbn; [apply H|done]. Qed.

Lemma handleAlign_selected `{platform : Platform} (previewRoot : option string)
    (elementId : string) (alignment : Alignment) (prev : FileSystemState) :
  elementId ≠ "" →
  handleAlign previewRoot (Some elementId) alignment prev
  = updateElementInCode previewRoot elementId (alignElement alignment) prev.
Proof. intros H. unfold handleAlign. by destruct elementId. Qed.

Lemma handleStyle_selected `{platform : Platform} (previewRoot : option string)
    (elementId : string) (style : Emphasis) (prev : FileSystemState) :
  elementId ≠ "" →
  handleStyle previewRoot (Some elementId) style prev
  = updateElementInCode previewRoot elementId (styleElement style) prev.
Proof. intros H. unfold handleStyle. by destruct elementId. Qed.




(** ** Path resolution, in general *)

Lemma resolve_plain_segment (stack : list string) (name : string) :
  name ≠ "." → name ≠ ".." →
  resolve_segment stack name = stack ++ [name].
Proof.
  intros H1%String.eqb_neq H2%String.eqb_neq. unfold resolve_segment.
  by rewrite H1, H2.
Qed.

(** resolving against a file starts from the segments of its directory *)
Lemma resolvePath_file_base (dir file relative : string) :
  file ≠ "" → JsString.has_char "/" file = false →
  resolvePath (dir +:+ "/" +:+ file) relative
  = JsString.join "/"
      (fold_left resolve_segment (JsString.split "/" relative)
         (JsString.split "/" dir)).
Proof.
  intros Hfile Hf. unfold resolvePath.
  change (dir +:+ "/" +:+ file) with (dir +:+ String "/" file).
  rewrite slice_last_app_r by done.
  assert (JsString.slice_last (String "/" file) = JsString.slice_last file)
    as -> by (by destruct file).
  pose proof (slice_last_plain "/" file Hf) as Hlast%String.eqb_neq.
  rewrite Hlast. cbn [negb].
  rewrite split_app, (split_plain _ file) by done.
  unfold JsArray.pop. by rewrite removelast_last.
Qed.

(** X1. A plain name resolved against a file replaces the file's name: the
    result is the file's directory, a slash and the name. *)
Theorem resolvePath_sibling (dir file name : string) :
  file ≠ "" → JsString.has_char "/" file = false →
  JsString.has_char "/" name = false → name ≠ "." → name ≠ ".." →
  resolvePath (dir +:+ "/" +:+ file) name = dir +:+ "/" +:+ name.
Proof.
  intros Hfile Hf Hname Hdot Hdots.
  rewrite resolvePath_file_base, (split_plain _ name) by done.
  cbn [fold_left]. rewrite resolve_plain_segment by done.
  rewrite join_app; [|apply split_nonempty|done]. by rewrite join_split.
Qed.

Lemma resolvePath_sibling_witness :
  resolvePath ("/site/pages" +:+ "/" +:+ "about.html") "team.css"
  = "/site/pages" +:+ "/" +:+ "team.css".
Proof. apply resolvePath_sibling; done. Defined.

(** X2. One [..] followed by a plain name, resolved against a file in a
    sub-directory, lands in the parent of that sub-directory. *)
Theorem resolvePath_parent (dir sub file name : string) :
  file ≠ "" → JsString.has_char "/" file = false →
  JsString.has_char "/" sub = false →
  JsString.has_char "/" name = false → name ≠ "." → name ≠ ".." →
  resolvePath (dir +:+ "/" +:+ sub +:+ "/" +:+ file) ("../" +:+ name)
  = dir +:+ "/" +:+ name.
Proof.
  intros Hfile Hf Hsub Hname Hdot Hdots.
  rewrite <-(string_app_assoc dir "/" (sub +:+ "/" +:+ file)).
  rewrite <-(string_app_assoc (dir +:+ "/") sub ("/" +:+ file)).
  rewrite resolvePath_file_base by done.
  change ("../" +:+ name) with (".." +:+ String "/" name).
  rewrite string_app_assoc.
  change (dir +:+ "/" +:+ sub) with (dir +:+ String "/" sub).
  rewrite !split_app, (split_plain _ sub), (split_plain _ name) by done.
  change (JsString.split "/" "..") with [".."]. cbn [app fold_left].
  change (resolve_segment (JsString.split "/" dir ++ [sub]) "..")
    with (removelast (JsString.split "/" dir ++ [sub])).
  rewrite removelast_last, resolve_plain_segment by done.
  rewrite join_app; [|apply split_nonempty|done]. by rewrite join_split.
Qed.

Lemma resolvePath_parent_witness :
  resolvePath ("/site" +:+ "/" +:+ "pages" +:+ "/" +:+ "about.html")
    ("../" +:+ "main.css")
  = "/site" +:+ "/" +:+ "main.css".
Proof. apply resolvePath_parent; done. Defined.

(** X3. A leading [./] in the reference changes nothing, whatever the base
    and the rest of the reference are. *)
Theorem resolvePath_dot_prefix (base relative : string) :
  resolvePath base ("./" +:+ relative) = resolvePath base relative.
Proof.
  unfold resolvePath.
  change ("./" +:+ relative) with ("." +:+ String "/" relative).
  rewrite split_app. change (JsString.split "/" ".") with ["."].
  by rewrite fold_left_app.
Qed.

(** ** Content types, in general *)


(** X4. The content type of a path is decided by the text after its last
    dot alone: two paths with the same extension get the same type, and a
    name without a dot is its own extension. *)
Theorem getMimeType_by_extension (stem ext : string) :
  JsString.has_char "." ext = false →
  getMimeType (stem +:+ "." +:+ ext) = getMimeType ext.
Proof.
  intros Hext. unfold getMimeType.
  rewrite extension_of_dotted by done.
  unfold extension_of, JsArray.popped. by rewrite split_plain.
Qed.

Lemma getMimeType_by_extension_witness :
  getMimeType ("/assets/logo.v2" +:+ "." +:+ "PNG") = getMimeType "PNG".
Proof. apply getMimeType_by_extension. reflexivity. Defined.

Lemma lower_ascii_idemp (c : ascii) :
  JsString.lower_ascii (JsString.lower_ascii c) = JsString.lower_ascii c.
Proof. destruct c as [[] [] [] [] [] [] [] []]; reflexivity. Qed.

Lemma lower_ascii_dot (c : ascii) :
  Ascii.eqb (JsString.lower_ascii c) "." = Ascii.eqb c ".".
Proof. destruct c as [[] [] [] [] [] [] [] []]; reflexivity. Qed.

Lemma toLowerCase_idemp (s : string) :
  JsString.toLowerCase (JsString.toLowerCase s) = JsString.toLowerCase s.
Proof.
  induction s as [|c s IH]; [done|]. cbn. by rewrite lower_ascii_idemp, IH.
Qed.

Lemma split_toLowerCase (s : string) :
  JsString.split "." (JsString.toLowerCase s)
  = JsString.toLowerCase <$> JsString.split "." s.
Proof.
  induction s as [|c s IH]; [done|]. cbn [JsString.toLowerCase JsString.split].
  rewrite lower_ascii_dot, IH. destruct (Ascii.eqb c "."); [done|].
  by destruct (JsString.split "." s).
Qed.

(** X5. The content type does not depend on the case of the path's ASCII
    letters. *)
Theorem getMimeType_ignores_case (path : string) :
  getMimeType (JsString.toLowerCase path) = getMimeType path.
Proof.
  unfold getMimeType, extension_of, JsArray.popped.
  rewrite split_toLowerCase, fmap_last.
  destruct (last (JsString.split "." path)) as [ext|]; cbn; [|done].
  by rewrite toLowerCase_idemp.
Qed.

(** X6. The editor language and the content type agree on the extensions
    both know: what opens as HTML, CSS or JavaScript in the editor is served
    as [text/html], [text/css] or [application/javascript]. *)
Theorem languageForEditor_agrees (path : string) :
  (languageForEditor (Some path) = LangHtml → getMimeType path = "text/html") ∧
  (languageForEditor (Some path) = LangCss → getMimeType path = "text/css") ∧
  (languageForEditor (Some path) = LangJavascript →
   getMimeType path = "application/javascript").
Proof.
  assert (∀ ext, JsString.has_char "." ext = false →
                 JsText.endsWith path ("." +:+ ext) = true →
                 extension_of path = JsString.toLowerCase ext) as Hext.
  { intros ext Hplain [pre ->]%endsWith_inv. by apply extension_of_dotted. }
  unfold getMimeType.
  unfold languageForEditor. destruct (negb _); [done|].
  cbv [default from_option id].
  destruct (JsText.endsWith path ".md"); [done|].
  destruct (JsText.endsWith path ".html") eqn:Hhtml;
    [repeat split; try done; intros _; by rewrite (Hext "html")|].
  destruct (JsText.endsWith path ".css") eqn:Hcss;
    [repeat split; try done; intros _; by rewrite (Hext "css")|].
  destruct (JsText.endsWith path ".js") eqn:Hjs;
    [repeat split; try done; intros _; by rewrite (Hext "js")|].
  by repeat destruct (JsText.endsWith path _).
Qed.

Lemma languageForEditor_agrees_witness :
  getMimeType "/src/index.html" = "text/html" ∧
  getMimeType "/src/site.css" = "text/css" ∧
  getMimeType "/src/app.js" = "application/javascript".
Proof.
  split; [|split].
  - apply (languageForEditor_agrees "/src/index.html"). reflexivity.
  - apply (languageForEditor_agrees "/src/site.css"). reflexivity.
  - apply (languageForEditor_agrees "/src/app.js"). reflexivity.
Defined.

(** * Further properties of the panel state *)

(** ** Tabs *)

Lemma filter_all {A} (P : A → Prop) `{∀ x, Decision (P x)} (l : list A) :
  Forall P l → filter P l = l.
Proof.
  induction 1 as [|x l Hx Hl IH]; [done|].
  by rewrite filter_cons_True, IH.
Qed.

Lemma pushNew_NoDup (o : list string) (x : string) :
  NoDup o → NoDup (pushNew o x).
Proof.
  intros Ho. unfold pushNew. case_bool_decide as Hx; [done|].
  apply NoDup_app. split; [done|]. split; [|apply NoDup_singleton].
  intros y Hy ->%list_elem_of_singleton. done.
Qed.

Lemma pushNew_elem (o : list string) (x y : string) :
  y ∈ pushNew o x ↔ y ∈ o ∨ y = x.
Proof.
  unfold pushNew. case_bool_decide as Hx.
  - split; [by left|]. by intros [?| ->].
  - rewrite elem_of_app, list_elem_of_singleton. done.
Qed.

Lemma openUpdates_spec (codeUpdates : list CodeUpdate) (o : list string) :
  (NoDup o → NoDup (openUpdates codeUpdates o)) ∧
  ∀ y, y ∈ openUpdates codeUpdates o ↔ y ∈ o ∨ y ∈ updPath <$> codeUpdates.
Proof.
  unfold openUpdates. revert o.
  induction codeUpdates as [|u us IH]; intros o; cbn [fold_left].
  - split; [done|]. intros y. rewrite fmap_nil, elem_of_nil. tauto.
  - destruct (IH (pushNew o (updPath u))) as [IH1 IH2]. split.
    + intros Ho. by apply IH1, pushNew_NoDup.
    + intros y. rewrite IH2, pushNew_elem, fmap_cons, elem_of_cons. tauto.
Qed.

Lemma handleFileSelect_consistent (path : string) (ws : Workspace) :
  tabsConsistent ws → tabsConsistent (handleFileSelect path ws).
Proof.
  intros [Hnd Hact]. split; cbn.
  - by apply pushNew_NoDup.
  - intros p [= <-]. apply pushNew_elem. by right.
Qed.

Lemma handleCloseFile_consistent (path : string) (ws : Workspace) :
  tabsConsistent ws → tabsConsistent (handleCloseFile path ws).
Proof.
  intros [Hnd Hact]. split; cbn.
  - by apply NoDup_filter.
  - intros p. case_bool_decide as Hp.
    + intros Hlast. apply last_Some in Hlast as [l' Hl]. rewrite Hl.
      apply elem_of_app. right. by apply list_elem_of_singleton.
    + intros Hp'. apply list_elem_of_filter. split; [|by apply Hact].
      intros ->. by apply Hp.
Qed.

Lemma handleApplyCode_consistent (codeUpdates : list CodeUpdate) (ws : Workspace) :
  tabsConsistent ws → tabsConsistent (handleApplyCode codeUpdates ws).
Proof.
  intros [Hnd Hact]. unfold handleApplyCode.
  destruct (openUpdates_spec codeUpdates (openFiles ws)) as [H1 H2].
  destruct (JsString.truthy (updPath <$> head codeUpdates)) eqn:Hfirst; split; cbn.
  - by apply H1.
  - intros p [= <-]. apply H2. right.
    destruct codeUpdates as [|u us]; [done|]. cbn [head fmap option_fmap option_map].
    cbv [default from_option id].
    destruct (List.find _ (u :: us)) as [c|] eqn:Hfind.
    + apply find_some in Hfind as [Hin _]. apply list_elem_of_In in Hin.
      destruct (updPath c) as [|x y] eqn:Hc.
      * rewrite fmap_cons. by left.
      * rewrite <-Hc. by apply list_elem_of_fmap_2.
    + rewrite fmap_cons. by left.
  - by apply H1.
  - intros p Hp. apply H2. left. by apply Hact.
Qed.

(** X7. Whatever the user does with files and tabs (select, close, apply
    code from the agent, new file, new folder, edit, upload), no tab is ever
    open twice and the active tab is always one of the open tabs. *)
Theorem tabs_stay_consistent (actions : list TabAction) (ws : Workspace) :
  tabsConsistent ws → tabsConsistent (fold_left tabStep actions ws).
Proof.
  revert ws. induction actions as [|action actions IH]; intros ws Hws; [done|].
  cbn [fold_left]. apply IH. destruct action; cbn [tabStep].
  - by apply handleFileSelect_consistent.
  - by apply handleCloseFile_consistent.
  - by apply handleApplyCode_consistent.
  - unfold handleNewFile. by apply handleFileSelect_consistent.
  - done.
  - unfold handleCodeChange. by destruct (negb _).
  - unfold handleFileUpload. destruct (uploadAll _ _) as [[nf fd]|]; [|done].
    by destruct (JsString.truthy (Some fd)).
Qed.

Lemma tabs_stay_consistent_witness :
  tabsConsistent
    (fold_left tabStep
       [NewFile "/a.js"; SelectFile "/README.md"; CloseFile "/README.md";
        ApplyCode [{| updPath := "/index.html"; updContent := "<p>x</p>" |}]]
       (firstLoad {["/README.md" := "# Welcome"]})).
Proof.
  apply tabs_stay_consistent. split; cbn.
  - apply NoDup_singleton.
  - intros p [= <-]. by apply list_elem_of_singleton.
Defined.

(** X8. Opening a file that was not open and closing it again gives back
    the tabs that were open, in their order; the active tab afterwards is the
    last open tab, not the tab that was active before. *)
Theorem open_then_close (path : string) (ws : Workspace) :
  path ∉ openFiles ws →
  let ws' := handleCloseFile path (handleFileSelect path ws) in
  openFiles ws' = openFiles ws ∧ activeFile ws' = last (openFiles ws).
Proof.
  intros Hnew. cbn. unfold pushNew. rewrite bool_decide_eq_false_2 by done.
  assert (filter (λ p, p ≠ path) (openFiles ws ++ [path]) = openFiles ws) as ->.
  { rewrite filter_app, filter_cons_False, filter_nil, app_nil_r by naive_solver.
    apply filter_all, Forall_forall. intros x Hx ->. done. }
  by rewrite bool_decide_eq_true_2.
Qed.

Lemma open_then_close_witness :
  let ws := handleFileSelect "/b.css" (handleFileSelect "/a.js"
              (firstLoad {["/README.md" := "# Welcome"]})) in
  let ws1 := handleFileSelect "/a.js" ws in
  let ws' := handleCloseFile "/c.md" (handleFileSelect "/c.md" ws1) in
  activeFile ws1 = Some "/a.js" ∧
  openFiles ws' = ["/README.md"; "/a.js"; "/b.css"] ∧
  activeFile ws' = Some "/b.css".
Proof.
  intros ws ws1 ws'. split; [reflexivity|].
  apply (open_then_close "/c.md" ws1).
  cbn. unfold pushNew. cbn.
  intros H. repeat (apply elem_of_cons in H as [H|H]; [discriminate H|]).
  by apply elem_of_nil in H.
Defined.

(** ** The file table under batch updates *)

(** an update the inherited setter swallows: the path is [__proto__] and
    the table has no own property of that name *)
Lemma set_lookup (fs : FileSystemState) (key value p : string) :
  JsObject.set fs key value !! p
  = if bool_decide (key = p) && negb (String.eqb p "__proto__" && bool_decide (fs !! p = None))
    then Some value else fs !! p.
Proof.
  unfold JsObject.set. destruct (decide (key = p)) as [->|Hne].
  - rewrite (bool_decide_eq_true_2 (p = p)) by done. cbn [andb].
    destruct (String.eqb p "__proto__" && bool_decide (fs !! p = None));
      [done|]. apply lookup_insert_eq.
  - rewrite (bool_decide_eq_false_2 (key = p)) by done. cbn [andb].
    destruct (String.eqb key "__proto__" && bool_decide (fs !! key = None));
      [done|]. by apply lookup_insert_ne.
Qed.

Lemma applyUpdates_lookup (codeUpdates : list CodeUpdate) (fs : FileSystemState)
    (p : string) :
  applyUpdates codeUpdates fs !! p =
  if String.eqb p "__proto__" && bool_decide (fs !! p = None) then None
  else
    match last (filter (λ u, updPath u = p) codeUpdates) with
    | Some u => Some (updContent u)
    | None => fs !! p
    end.
Proof.
  unfold applyUpdates. revert fs.
  induction codeUpdates as [|u us IH]; intros fs.
  - cbn. destruct (String.eqb p "__proto__"); [|done].
    cbn. by case_bool_decide.
  - cbn [fold_left]. rewrite IH, filter_cons.
    assert (JsObject.set fs (updPath u) (updContent u) !! p
            = if bool_decide (updPath u = p) &&
                 negb (String.eqb p "__proto__" && bool_decide (fs !! p = None))
              then Some (updContent u) else fs !! p) as Hset by apply set_lookup.
    destruct (String.eqb p "__proto__" && bool_decide (fs !! p = None)) eqn:Hswallow.
    + cbn [negb] in Hset. rewrite andb_false_r in Hset.
      apply andb_true_iff in Hswallow as [Hp Hnone]. rewrite Hp. cbn [andb].
      apply bool_decide_eq_true in Hnone. rewrite Hnone in Hset.
      by rewrite bool_decide_eq_true_2.
    + cbn [negb] in Hset. rewrite andb_true_r in Hset.
      assert (String.eqb p "__proto__" &&
              bool_decide (JsObject.set fs (updPath u) (updContent u) !! p = None)
              = false) as ->.
      { destruct (String.eqb p "__proto__"); [|done]. cbn [andb] in *.
        apply bool_decide_eq_false in Hswallow. apply bool_decide_eq_false.
        rewrite Hset. by destruct (bool_decide (updPath u = p)). }
      rewrite Hset. destruct (decide (updPath u = p)) as [Hu|Hu].
      * rewrite bool_decide_eq_true_2 by done.
        destruct (filter _ us) as [|v vs] eqn:Hf; cbn; [done|].
        destruct (last (v :: vs)) eqn:E; [done|]. by apply last_None in E.
      * by rewrite bool_decide_eq_false_2.
Qed.

(** X9. Applying a batch of code updates is last-write-wins per path: a
    path the batch names ends with the content of the last update for it, and
    every other entry of the table is as before.  The one exception is the
    path [__proto__] on a table without an own entry of that name: the
    assignment goes to the inherited setter and stores nothing. *)
Theorem handleApplyCode_last_write_wins (codeUpdates : list CodeUpdate)
    (ws : Workspace) (p : string) :
  wsFiles (handleApplyCode codeUpdates ws) !! p =
  if String.eqb p "__proto__" && bool_decide (wsFiles ws !! p = None) then None
  else
    match last (filter (λ u, updPath u = p) codeUpdates) with
    | Some u => Some (updContent u)
    | None => wsFiles ws !! p
    end.
Proof. rewrite handleApplyCode_files. apply applyUpdates_lookup. Qed.

(** ** Folders, download and upload *)

Lemma placeholderKey_ends (path : string) :
  JsText.endsWith (placeholderKey path) ".placeholder" = true ∧
  JsText.endsWith (placeholderKey path) "/.placeholder" = true.
Proof.
  unfold placeholderKey. split; [apply endsWith_app|].
  destruct (JsText.endsWith path "/") eqn:Hslash.
  - apply endsWith_inv in Hslash as [pre ->].
    rewrite string_app_assoc. apply endsWith_app.
  - rewrite string_app_assoc. apply endsWith_app.
Qed.

Lemma zipFileCalls_insert_skipped (fs : FileSystemState) (key text : string) :
  JsText.endsWith key ".placeholder" = true →
  zipFileCalls (<[key := text]> fs) ≡ₚ zipFileCalls fs.
Proof.
  intros Hkey. unfold zipFileCalls.
  assert (∀ v, zipFileCall (key, v) = None) as Hnone
    by (intros v; unfold zipFileCall; cbn; by rewrite Hkey).
  rewrite <-(insert_delete_eq fs key text).
  rewrite map_to_list_insert by apply lookup_delete_eq.
  cbn [omap list_omap]. rewrite Hnone.
  destruct (fs !! key) as [v|] eqn:Hv.
  - rewrite <-(insert_delete_id fs key v) at 2 by done.
    rewrite map_to_list_insert by apply lookup_delete_eq.
    cbn [omap list_omap]. by rewrite Hnone.
  - by rewrite delete_id.
Qed.

(** X10. A folder is recorded under a key that ends in [/.placeholder],
    with or without a trailing slash in the name given, and creating a folder
    never changes what a download of the project contains. *)
Theorem handleNewFolder_not_downloaded (path : string) (ws : Workspace) :
  wsFiles (handleNewFolder path ws) = <[placeholderKey path := ""]> (wsFiles ws) ∧
  JsText.endsWith (placeholderKey path) "/.placeholder" = true ∧
  zipFileCalls (wsFiles (handleNewFolder path ws)) ≡ₚ zipFileCalls (wsFiles ws).
Proof.
  split; [done|]. split; [apply placeholderKey_ends|].
  apply zipFileCalls_insert_skipped, placeholderKey_ends.
Qed.

(** X11. A download calls [zip.file] exactly for the entries of the table
    whose key does not end in [.placeholder], each under its key without the
    leading slash and with its content. *)
Theorem zipFileCalls_spec (fs : FileSystemState) (name text : string) :
  (name, text) ∈ zipFileCalls fs ↔
  ∃ path, fs !! path = Some text ∧
          JsText.endsWith path ".placeholder" = false ∧
          cleanPath path = name.
Proof.
  unfold zipFileCalls. rewrite list_elem_of_omap. split.
  - intros ([path v] & Hin%elem_of_map_to_list & Hcall).
    unfold zipFileCall in Hcall. cbn in Hcall.
    destruct (JsText.endsWith path ".placeholder") eqn:E; [done|].
    injection Hcall as <- <-. by exists path.
  - intros (path & Hpath & Hend & <-). exists (path, text).
    split; [by apply elem_of_map_to_list|].
    unfold zipFileCall. cbn. by rewrite Hend.
Qed.

Lemma endsWith_cons (s suffix : string) (c : ascii) :
  String.eqb (String c s) suffix = false →
  JsText.endsWith (String c s) suffix = JsText.endsWith s suffix.
Proof. intros H. cbn [JsText.endsWith]. by rewrite H. Qed.

Lemma unzipInto_lookup (entries : list (string * ZipEntry))
    (nf : FileSystemState) (p : string) (e : ZipEntry) :
  NoDup entries.*1 → (p, e) ∈ entries → dir e = false →
  unzipInto entries nf !! ("/" +:+ p) = Some (zipText e).
Proof.
  unfold unzipInto. revert nf.
  induction entries as [|[q f] es IH]; intros nf Hnd Hin Hdir;
    [by apply elem_of_nil in Hin|].
  cbn [fold_left]. rewrite fmap_cons in Hnd. apply NoDup_cons in Hnd as [Hq Hnd].
  apply elem_of_cons in Hin as [[= -> ->]|Hin]; [|by apply IH].
  cbn. rewrite Hdir. clear IH Hnd.
  assert (∀ m : FileSystemState, m !! ("/" +:+ q) = Some (zipText f) →
            fold_left (λ nf e, if dir e.2 then nf
                               else JsObject.set nf ("/" +:+ e.1) (zipText e.2)) es m
            !! ("/" +:+ q) = Some (zipText f)) as Hkeep.
  { induction es as [|[r g] es IH]; intros m Hm; [done|].
    cbn [fold_left]. rewrite fmap_cons in Hq.
    apply not_elem_of_cons in Hq as [Hne Hq]. apply IH; [done|].
    cbn. destruct (dir g); [done|]. rewrite set_slash, lookup_insert_ne; [done|].
    intros Heq. injection Heq as Heq. apply Hne. symmetry. exact Heq. }
  rewrite set_slash. apply Hkeep, lookup_insert_eq.
Qed.

(** X12. Upload followed by download is a round trip on names and content:
    every file of an uploaded archive (directories aside, names ending in
    [.placeholder] aside) is handed to [zip.file] by the download under the
    name and with the content it had. *)
Theorem upload_then_download (archive : string)
    (entries : list (string * ZipEntry)) (ws : Workspace)
    (p : string) (e : ZipEntry) :
  JsText.endsWith archive ".zip" = true →
  NoDup entries.*1 → (p, e) ∈ entries → dir e = false →
  JsText.endsWith p ".placeholder" = false →
  (p, zipText e) ∈
    zipFileCalls
      (wsFiles (handleFileUpload
         [{| fileName := archive; fileText := ""; fileZip := Some entries |}] ws)).
Proof.
  intros Hzip Hnd Hin Hdir Hp. unfold zipFileCalls. apply list_elem_of_omap.
  exists ("/" +:+ p, zipText e).
  assert (zipFileCall ("/" +:+ p, zipText e) = Some (p, zipText e)) as Hcall.
  { unfold zipFileCall. cbn [fst snd].
    assert (JsText.endsWith ("/" +:+ p) ".placeholder" = false) as ->.
    { change ("/" +:+ p) with (String "/" p).
      destruct (String.eqb (String "/" p) ".placeholder") eqn:Heq;
        [by apply String.eqb_eq in Heq|].
      by rewrite endsWith_cons. }
    f_equal. f_equal.
    unfold cleanPath, JsString.startsWith, JsText.substring1.
    change ("/" +:+ p) with (String "/" p). cbn [String.prefix JsText.drop].
    destruct (ascii_dec "/" "/"); [|done]. by destruct p. }
  split; [|done]. apply elem_of_map_to_list.
  - unfold handleFileUpload, uploadAll, uploadOne. cbn [fileName fileZip].
    rewrite Hzip. cbn [mbind option_bind mret option_ret fst snd].
    assert (∀ ws1 fd,
      wsFiles (say ("Uploaded " +:+ pretty 1 +:+ " item(s).")
                 (if JsString.truthy (Some fd)
                  then withPreviewRoot (Some fd) ws1 else ws1)) = wsFiles ws1) as Hfiles
      by (intros ws1 fd; by destruct (JsString.truthy (Some fd))).
    cbn [length]. rewrite Hfiles. cbn [wsFiles withFiles].
    apply lookup_union_Some_l. by apply unzipInto_lookup.
Qed.

Lemma upload_then_download_witness :
  ("site/index.html", "<p>hi</p>") ∈
    zipFileCalls
      (wsFiles (handleFileUpload
         [{| fileName := "site.zip"; fileText := "";
             fileZip := Some [("site/", {| dir := true; zipText := "" |});
                              ("site/index.html",
                               {| dir := false; zipText := "<p>hi</p>" |})] |}]
         (firstLoad {["/README.md" := "# Welcome"]}))).
Proof.
  apply (upload_then_download "site.zip" _ _ "site/index.html"
           {| dir := false; zipText := "<p>hi</p>" |}).
  - reflexivity.
  - cbn. apply NoDup_cons. split; [|apply NoDup_singleton].
    intros H%list_elem_of_singleton. discriminate H.
  - apply elem_of_cons. right. apply list_elem_of_singleton. reflexivity.
  - reflexivity.
  - reflexivity.
Defined.

Lemma commonRootOf_single (names : list string) (d : string) :
  names ≠ [] → Forall (λ q, firstSegment q = d) names →
  commonRootOf names = d +:+ "/".
Proof.
  intros Hne Hall. unfold commonRootOf.
  assert (list_to_set (firstSegment <$> names) = ({[d]} : gset string)) as ->.
  { apply set_eq. intros x.
    rewrite elem_of_list_to_set, list_elem_of_fmap, elem_of_singleton. split.
    - intros (q & -> & Hq). eapply Forall_forall in Hall; eauto.
    - intros ->. destruct names as [|q names]; [done|]. exists q.
      apply Forall_cons in Hall as [Hq _]. split; [done|]. by left. }
  by rewrite size_singleton, bool_decide_eq_true_2, elements_singleton.
Qed.

Lemma commonRootOf_mixed (names : list string) (q1 q2 : string) :
  q1 ∈ names → q2 ∈ names → firstSegment q1 ≠ firstSegment q2 →
  commonRootOf names = "".
Proof.
  intros H1 H2 Hne. unfold commonRootOf.
  rewrite bool_decide_eq_false_2; [done|]. intros Hsize.
  apply size_1_elem_of in Hsize as [x Hx].
  assert (firstSegment q1 ∈ (list_to_set (firstSegment <$> names) : gset string))
    as Hin1 by (apply elem_of_list_to_set; by apply list_elem_of_fmap_2).
  assert (firstSegment q2 ∈ (list_to_set (firstSegment <$> names) : gset string))
    as Hin2 by (apply elem_of_list_to_set; by apply list_elem_of_fmap_2).
  rewrite Hx in Hin1, Hin2. apply elem_of_singleton in Hin1, Hin2. congruence.
Qed.

(** X13. Uploading one archive whose entries all lie under a single first
    path segment makes that segment the preview root, with slashes around
    it; an archive with two different first segments leaves the preview root
    as it was.  The segment need not be a directory: an archive that holds
    one top-level file makes that file's name the preview root. *)
Theorem handleFileUpload_preview_root (archive : string)
    (entries : list (string * ZipEntry)) (ws : Workspace) :
  JsText.endsWith archive ".zip" = true →
  let ws' := handleFileUpload
               [{| fileName := archive; fileText := ""; fileZip := Some entries |}] ws in
  (∀ d, entries ≠ [] → Forall (λ q, firstSegment q = d) entries.*1 →
        previewRootOf ws' = Some ("/" +:+ d +:+ "/")) ∧
  (∀ q1 q2, q1 ∈ entries.*1 → q2 ∈ entries.*1 →
            firstSegment q1 ≠ firstSegment q2 →
            previewRootOf ws' = previewRootOf ws).
Proof.
  intros Hzip. cbn zeta.
  unfold handleFileUpload, uploadAll, uploadOne. cbn [fileName fileZip].
  rewrite Hzip. cbn [mbind option_bind mret option_ret fst snd]. split.
  - intros d Hne Hall. rewrite (commonRootOf_single _ d); [|by destruct entries|done].
    assert (JsString.truthy (Some (d +:+ "/")) = true) as -> by (by destruct d).
    assert (JsString.truthy (Some ("/" +:+ d +:+ "/")) = true) as -> by done.
    done.
  - intros q1 q2 H1 H2 Hne. by rewrite (commonRootOf_mixed _ q1 q2).
Qed.

Lemma handleFileUpload_preview_root_witness :
  previewRootOf
    (handleFileUpload
       [{| fileName := "page.zip"; fileText := "";
           fileZip := Some [("index.html", {| dir := false; zipText := "<p>hi</p>" |})] |}]
       (firstLoad {["/README.md" := "# Welcome"]}))
  = Some "/index.html/".
Proof.
  destruct (handleFileUpload_preview_root "page.zip"
              [("index.html", {| dir := false; zipText := "<p>hi</p>" |})]
              (firstLoad {["/README.md" := "# Welcome"]})) as [Hone _];
    [reflexivity|].
  apply (Hone "index.html"); [done|].
  constructor; [reflexivity|constructor].
Defined.

(** ** Dropping a component *)

Lemma lastIndexOf_includes (s sub : string) :
  JsString.includes s sub = false → JsText.lastIndexOf s sub = None.
Proof.
  induction s as [|c s IH]; cbn [JsText.lastIndexOf JsString.includes].
  - by destruct (String.prefix sub "").
  - intros [Hp Hs]%orb_false_iff. by rewrite IH, Hp.
Qed.

(** X14. Splicing a component into the root document loses and reorders
    nothing of the document: the new text is the old one with the component's
    markup and a line break inserted at one place.  When the document has a
    closing body tag the place is right before the last one; otherwise the
    markup goes to the end, after a line break. *)
Theorem spliceBeforeBodyEnd_spec (currentHtml modifiedHtml : string) :
  ∃ pre post,
    currentHtml = pre +:+ post ∧
    match JsString.includes currentHtml "</body>" with
    | true =>
        String.prefix "</body>" post = true ∧
        JsText.lastIndexOf post "</body>" = Some 0 ∧
        spliceBeforeBodyEnd currentHtml modifiedHtml
        = pre +:+ modifiedHtml +:+ String "010" "" +:+ post
    | false =>
        post = "" ∧
        spliceBeforeBodyEnd currentHtml modifiedHtml
        = currentHtml +:+ String "010" "" +:+ modifiedHtml
    end.
Proof.
  unfold spliceBeforeBodyEnd.
  destruct (JsText.lastIndexOf currentHtml "</body>") as [i|] eqn:Hi.
  - exists (JsText.take i currentHtml), (JsText.drop i currentHtml).
    split; [by rewrite take_drop|].
    destruct (JsString.includes currentHtml "</body>") eqn:Hinc.
    + destruct (lastIndexOf_some _ _ _ Hi) as [? ?]. done.
    + apply lastIndexOf_includes in Hinc. congruence.
  - exists currentHtml, "". rewrite (lastIndexOf_none _ _ Hi). split; [|done].
    clear. induction currentHtml as [|c s IH]; [done|]. by rewrite app_cons, <-IH.
Qed.

Lemma setAttribute_get (name value : string) (a : attrs) :
  getAttribute name (setAttribute name value a) = Some value.
Proof. unfold getAttribute, setAttribute. by rewrite lookup_attr_replace_eq. Qed.

Lemma setAttribute_get_ne (name other value : string) (a : attrs) :
  name ≠ other →
  getAttribute name (setAttribute other value a) = getAttribute name a.
Proof.
  intros H. unfold getAttribute, setAttribute. by rewrite lookup_attr_replace_ne.
Qed.

(** X15. Tagging a dropped fragment whose markup does not already use the
    fresh identifier leaves exactly one element that carries it: the root of
    the fragment.  Its tag, children and the nodes after it are unchanged. *)
Theorem tagFragment_unique (newId tag : string) (a : attrs)
    (ch rest : list node) :
  index_paths (select (editableSelector newId)) 0 (Element tag a ch :: rest) = [] →
  ∃ a',
    tagFragment newId (Element tag a ch :: rest) = Some (Element tag a' ch :: rest) ∧
    getAttribute "data-editable-id" a' = Some newId ∧
    index_paths (select (editableSelector newId)) 0 (Element tag a' ch :: rest)
    = [[0]].
Proof.
  intros Hnone. cbn [tagFragment]. eexists. split; [done|].
  set (a' := if bool_decide (JsString.toLowerCase tag ∈ editableTags) then _ else _).
  assert (getAttribute "data-editable-id" a' = Some newId) as Hid.
  { unfold a'. case_bool_decide.
    - rewrite setAttribute_get_ne by done. apply setAttribute_get.
    - apply setAttribute_get. }
  split; [done|].
  cbn [index_paths select] in *.
  apply app_eq_nil in Hnone as [Hroot Hrest]. rewrite Hrest, app_nil_r.
  apply fmap_nil_inv in Hroot. apply app_eq_nil in Hroot as [_ Hch].
  rewrite Hch. unfold editableSelector at 1. rewrite Hid.
  by rewrite bool_decide_eq_true_2.
Qed.

Lemma tagFragment_unique_witness :
  ∃ a',
    tagFragment "id-1" [Element "h1" [("class", "title")] [Text "Hello"]]
    = Some [Element "h1" a' [Text "Hello"]] ∧
    getAttribute "data-editable-id" a' = Some "id-1" ∧
    index_paths (select (editableSelector "id-1")) 0 [Element "h1" a' [Text "Hello"]]
    = [[0]].
Proof.
  apply (tagFragment_unique "id-1" "h1" [("class", "title")] [Text "Hello"] []).
  reflexivity.
Defined.

Section DropFacts.
Context {platform : Platform}.
Variable parseComponent : string → option DraggableComponent.


End DropFacts.


(** * Further properties of the builder *)

Lemma node_induction (P : node → Prop) :
  (∀ s, P (Text s)) →
  (∀ s, P (Comment s)) →
  (∀ tag a ch, Forall P ch → P (Element tag a ch)) →
  ∀ n, P n.
Proof.
  intros HT HC HE. fix IH 1. intros [s|s|tag a ch]; [apply HT|apply HC|].
  apply HE. induction ch as [|c ch IHch]; constructor; [apply IH|apply IHch].
Qed.

Lemma elem_of_index_paths (F : node → list path) (k : nat) (l : list node)
    (p : path) :
  p ∈ index_paths F k l → ∃ i c q, p = (k + i) :: q ∧ l !! i = Some c ∧ q ∈ F c.
Proof.
  revert k. induction l as [|c l IH]; intros k; cbn [index_paths].
  - by intros ?%elem_of_nil.
  - intros [(q & -> & Hq)%list_elem_of_fmap|Hin]%elem_of_app.
    + exists 0, c, q. by rewrite Nat.add_0_r.
    + destruct (IH _ Hin) as (i & c' & q & -> & Hc & Hq).
      exists (S i), c', q. split; [f_equal; lia|done].
Qed.

(** every selected position holds an element the selector accepts *)
Lemma select_node_at sel (n : node) (p : path) :
  p ∈ select sel n →
  ∃ tag a ch, node_at p n = Some (Element tag a ch) ∧ sel tag a = true.
Proof.
  revert p. induction n as [s|s|tag a ch IH] using node_induction; intros p;
    cbn [select]; [by intros ?%elem_of_nil..|].
  intros [Hroot|Hin]%elem_of_app.
  - destruct (sel tag a) eqn:Hsel; [|by apply elem_of_nil in Hroot].
    apply list_elem_of_singleton in Hroot as ->. by exists tag, a, ch.
  - apply elem_of_index_paths in Hin as (i & c & q & -> & Hc & Hq).
    rewrite Forall_forall in IH.
    destruct (IH c (list_elem_of_lookup_2 _ _ _ Hc) q Hq) as (t & a' & ch' & Hat & Hs).
    exists t, a', ch'. split; [|done]. cbn. by rewrite Hc.
Qed.

Lemma rewriteAssets_all_skipped (fs : FileSystemState) (indexPath : string)
    (doc : node) (br : Browser) :
  allSkipped doc → rewriteAssets fs indexPath doc br = (doc, br).
Proof.
  intros Hall. unfold rewriteAssets.
  assert (∀ ps, Forall (λ p, p ∈ select assetSelectors doc) ps →
                fold_left (rewriteAt fs indexPath) ps (doc, br) = (doc, br)) as Hfold.
  { induction ps as [|p ps IH]; intros Hps; [done|].
    apply Forall_cons in Hps as [Hp Hps]. cbn [fold_left].
    destruct (select_node_at _ _ _ Hp) as (tag & a & ch & Hat & Hsel).
    assert (rewriteAt fs indexPath (doc, br) p = (doc, br)) as ->; [|by apply IH].
    unfold rewriteAt. cbn [fst snd]. rewrite Hat.
    rewrite rewriteAsset_skips by (by eapply Hall).
    f_equal. apply update_at_local. intros x Hx. rewrite Hat in Hx.
    by injection Hx as <-. }
  apply Hfold, Forall_forall. done.
Qed.

Lemma allSkippedb_sound (doc : node) : allSkippedb doc = true → allSkipped doc.
Proof.
  induction doc as [s|s|tag a ch IH] using node_induction; intros Hb p;
    [by destruct p..|].
  cbn [allSkippedb] in Hb. apply andb_true_iff in Hb as [Hroot Hch].
  destruct p as [|i q]; cbn [node_at].
  - intros tag' a' ch' [= <- <- <-] Hsel. by rewrite Hsel in Hroot.
  - intros tag' a' ch' Hat Hsel.
    destruct (ch !! i) as [c|] eqn:Hc; [|done]. cbn in Hat.
    rewrite Forall_forall in IH. rewrite forallb_forall in Hch.
    eapply (IH c); eauto using list_elem_of_lookup_2.
    apply Hch. apply list_elem_of_In. eauto using list_elem_of_lookup_2.
Qed.

(** X17. A root document whose asset-bearing elements all carry references
    the loop skips ([http...], [data:...] or empty) is served as parsed, with
    only the shim added: no attribute is rewritten, no object URL is created
    and nothing is logged. *)
Theorem generatePreview_all_skipped `{platform : Platform}
    (fs : FileSystemState) (previewRoot indexContent : string)
    (doc : node) (br : Browser) :
  previewRoot ≠ "" →
  fs !! indexPathOf previewRoot = Some indexContent →
  injectShim (parseFromString indexContent) = Some doc →
  allSkipped doc →
  generatePreview fs (Some previewRoot) br = (serializeToString doc, br).
Proof.
  intros Hroot Hindex Hinject Hall.
  assert (JsString.truthy (Some previewRoot) = true) as Htruthy
    by (by destruct previewRoot).
  unfold generatePreview. rewrite Htruthy. cbv [negb default from_option id].
  rewrite (get_own _ _ indexContent) by done. cbn [JsObject.orEmpty].
  rewrite Hinject. by rewrite rewriteAssets_all_skipped.
Qed.

Lemma generatePreview_all_skipped_witness :
  let fs : FileSystemState :=
    {["/index.html" :=
        "<html><head><link href='https://cdn.example/x.css'></head><body><img src='data:image/png;base64,AAAA'></body></html>"]} in
  (generatePreview (platform := RefPlatform.platform) fs (Some "/") freshBrowser).2
  = freshBrowser.
Proof.
  intros fs.
  pose proof (generatePreview_all_skipped (platform := RefPlatform.platform)
    fs "/"
    "<html><head><link href='https://cdn.example/x.css'></head><body><img src='data:image/png;base64,AAAA'></body></html>"
    (Element "html" []
       [Element "head" []
          [Element "script" [] [Text fetchOverrideScript];
           Element "link" [("href", "https://cdn.example/x.css")] []];
        Element "body" []
          [Element "img" [("src", "data:image/png;base64,AAAA")] []]])
    freshBrowser) as H.
  rewrite H; [done|discriminate|by vm_compute|by vm_compute|].
  apply allSkippedb_sound. vm_compute. reflexivity.
Defined.

(** ** What a generation creates *)

Lemma mintsFrom_refl (fs : FileSystemState) (br : Browser) : mintsFrom fs br br.
Proof.
  exists []. rewrite app_nil_r, Nat.add_0_r. repeat split; [done..|constructor].
Qed.

Lemma mintsFrom_log (fs : FileSystemState) (line : string) (br : Browser) :
  mintsFrom fs br (console_log line br).
Proof.
  exists []. cbn. rewrite app_nil_r, Nat.add_0_r. repeat split; [done..|constructor].
Qed.

Lemma mintsFrom_trans (fs : FileSystemState) (br1 br2 br3 : Browser) :
  mintsFrom fs br1 br2 → mintsFrom fs br2 br3 → mintsFrom fs br1 br3.
Proof.
  intros (n1 & H1 & M1 & U1 & F1) (n2 & H2 & M2 & U2 & F2).
  exists (n1 ++ n2). rewrite H2, H1, M2, M1, length_app, fmap_app, U1, U2, M1.
  repeat split; [by rewrite app_assoc|lia| |by apply Forall_app].
  by rewrite seq_app, fmap_app.
Qed.

Lemma rewriteAsset_mints (fs : FileSystemState) (indexPath : string)
    (a : attrs) (br : Browser) :
  let br' := (rewriteAsset fs indexPath a br).2 in
  mintsFrom fs br br' ∧ produced br ≤ produced br' ≤ S (produced br).
Proof.
  unfold rewriteAsset, produced. destruct (skipsReference _);
    [split; [apply mintsFrom_refl|cbn; lia]|].
  destruct (JsObject.truthy (JsObject.get fs _)) eqn:Htruthy; cbn [snd].
  - split; [|cbn; rewrite length_app; cbn; lia].
    eexists [_]. cbn. repeat split; [lia|].
    constructor; [|constructor]. eexists. cbn. split; [reflexivity|]. done.
  - split; [apply mintsFrom_log|]. cbn. rewrite length_app. cbn. lia.
Qed.

Lemma rewriteAssets_mints (fs : FileSystemState) (indexPath : string)
    (doc : node) (br : Browser) :
  let br' := (rewriteAssets fs indexPath doc br).2 in
  mintsFrom fs br br' ∧
  produced br ≤ produced br' ≤ produced br + length (select assetSelectors doc).
Proof.
  unfold rewriteAssets.
  assert (∀ ps acc,
    mintsFrom fs acc.2 (fold_left (rewriteAt fs indexPath) ps acc).2 ∧
    produced acc.2 ≤ produced (fold_left (rewriteAt fs indexPath) ps acc).2
      ≤ produced acc.2 + length ps) as Hfold; [|apply (Hfold _ (doc, br))].
  induction ps as [|p ps IH]; intros acc; cbn [fold_left length].
  - split; [apply mintsFrom_refl|lia].
  - destruct (IH (rewriteAt fs indexPath acc p)) as [Hm Hp].
    assert (mintsFrom fs acc.2 (rewriteAt fs indexPath acc p).2 ∧
            produced acc.2 ≤ produced (rewriteAt fs indexPath acc p).2
              ≤ S (produced acc.2)) as [Hm1 Hp1].
    { unfold rewriteAt. destruct (node_at p acc.1) as [[s|s|tag a ch]|];
        [split; [apply mintsFrom_refl|lia]..| |split; [apply mintsFrom_refl|lia]].
      pose proof (rewriteAsset_mints fs indexPath a acc.2) as H.
      by destruct (rewriteAsset fs indexPath a acc.2). }
    split; [by eapply mintsFrom_trans|lia].
Qed.

Lemma generatePreview_mints `{platform : Platform} (fs : FileSystemState)
    (previewRoot : option string) (br : Browser) :
  mintsFrom fs br (generatePreview fs previewRoot br).2.
Proof.
  unfold generatePreview. destruct (negb _); [apply mintsFrom_refl|].
  destruct (JsObject.get fs _) as [|indexContent|key|]; [apply mintsFrom_refl|..];
    (destruct (injectShim _) as [doc|]; [|apply mintsFrom_log]);
    pose proof (rewriteAssets_mints fs (indexPathOf (default "" previewRoot)) doc br)
      as [H _];
    by destruct (rewriteAssets _ _ doc br).
Qed.

(** X18. Every object URL a generation creates stands for a blob made from
    what the file table of that generation yields under some key, with the
    content type of that key: a non-empty entry of the table or, for a key
    the table only inherits from [Object.prototype], the inherited value.
    The URLs live before the generation are kept. *)
Theorem generatePreview_blobs_from_table `{platform : Platform}
    (fs : FileSystemState) (previewRoot : option string) (br : Browser) :
  ∃ new,
    objectURLs (generatePreview fs previewRoot br).2 = objectURLs br ++ new ∧
    Forall (blobFromTable fs) new.
Proof.
  destruct (generatePreview_mints fs previewRoot br) as (new & H & _ & _ & HF).
  by exists new.
Qed.

(** X19. One generation creates at most one object URL or one console
    warning per asset-bearing element of the document it serves, and never
    removes any. *)
Theorem generatePreview_bounded `{platform : Platform}
    (fs : FileSystemState) (previewRoot indexContent : string)
    (doc : node) (br : Browser) :
  previewRoot ≠ "" →
  fs !! indexPathOf previewRoot = Some indexContent →
  injectShim (parseFromString indexContent) = Some doc →
  let br' := (generatePreview fs (Some previewRoot) br).2 in
  produced br ≤ produced br' ≤ produced br + length (select assetSelectors doc).
Proof.
  intros Hroot Hindex Hinject.
  assert (JsString.truthy (Some previewRoot) = true) as Htruthy
    by (by destruct previewRoot).
  unfold generatePreview. rewrite Htruthy. cbv [negb default from_option id].
  rewrite (get_own _ _ indexContent) by done. cbn [JsObject.orEmpty].
  rewrite Hinject.
  pose proof (rewriteAssets_mints fs (indexPathOf previewRoot) doc br) as [_ H].
  by destruct (rewriteAssets _ _ doc br).
Qed.

Lemma generatePreview_bounded_witness :
  let br' := (generatePreview (platform := RefPlatform.platform)
                Samples.imageTable (Some "/") freshBrowser).2 in
  produced freshBrowser ≤ produced br' ≤ produced freshBrowser + 1.
Proof.
  apply (generatePreview_bounded (platform := RefPlatform.platform)
           Samples.imageTable "/" "<html><body><img src='a.png'></body></html>"
           (Element "html" []
              [Element "head" [] [Element "script" [] [Text fetchOverrideScript]];
               Element "body" [] [Element "img" [("src", "a.png")] []]])).
  - discriminate.
  - by vm_compute.
  - by vm_compute.
Defined.

Lemma blobUrl_inj : Inj (=) (=) blobUrl.
Proof. intros j k H. unfold blobUrl in H. by apply (inj _), (inj pretty) in H. Qed.

Lemma regenerations_minted `{platform : Platform}
    (inputs : list (FileSystemState * option string)) (pv : Preview) :
  liveHandles pv = blobUrl <$> seq 0 (minted (browser pv)) →
  liveHandles (regenerations inputs pv)
  = blobUrl <$> seq 0 (minted (browser (regenerations inputs pv))).
Proof.
  revert pv. unfold regenerations.
  induction inputs as [|i inputs IH]; intros pv Hpv; [done|].
  cbn [fold_left]. apply IH. unfold regenerate, liveHandles in *.
  destruct (generatePreview_mints i.1 i.2 (browser pv)) as (new & H & M & U & _).
  destruct (generatePreview i.1 i.2 (browser pv)) as [doc br']. cbn in *.
  by rewrite H, fmap_app, Hpv, U, M, seq_app, fmap_app.
Qed.

(** Across any number of regenerations from a fresh browser the object
    URLs are pairwise distinct: the [k]-th URL ever created is the [k]-th
    name, and no URL is handed out twice, also when two generations wrap the
    same content. *)
Lemma regenerations_handles_distinct `{platform : Platform}
    (inputs : list (FileSystemState * option string)) :
  let pv := regenerations inputs Samples.emptyPreview in
  liveHandles pv = blobUrl <$> seq 0 (minted (browser pv)) ∧
  NoDup (liveHandles pv).
Proof.
  cbn zeta.
  assert (liveHandles (regenerations inputs Samples.emptyPreview)
          = blobUrl <$> seq 0 (minted (browser (regenerations inputs Samples.emptyPreview))))
    as H by (by apply regenerations_minted).
  split; [done|]. rewrite H. apply NoDup_fmap_2; [apply blobUrl_inj|apply NoDup_seq].
Qed.

(** X20. A reference [./name] in the root document of a preview root
    [dir/] is looked up at [dir/name]; when that entry is non-empty the
    attribute becomes the next object URL, whose blob holds the entry's
    content and the content type of [dir/name]. *)
Theorem rewriteAsset_relative (fs : FileSystemState) (dir name text : string)
    (a : attrs) (br : Browser) :
  getAttribute (srcAttrOf a) a = Some ("./" +:+ name) →
  JsString.has_char "/" name = false → name ≠ "." → name ≠ ".." →
  fs !! (dir +:+ "/" +:+ name) = Some text → text ≠ "" →
  rewriteAsset fs (indexPathOf (dir +:+ "/")) a br
  = (setAttribute (srcAttrOf a) (blobUrl (minted br)) a,
     {| objectURLs := objectURLs br ++
          [(blobUrl (minted br),
            {| blobParts := Str text;
               blobType := getMimeType (dir +:+ "/" +:+ name) |})];
        minted := S (minted br);
        console := console br |}).
Proof.
  intros Hattr Hplain Hdot Hdots Hentry Htext.
  assert (assetPathOf (indexPathOf (dir +:+ "/")) ("./" +:+ name)
          = dir +:+ "/" +:+ name) as Hpath.
  { unfold assetPathOf, indexPathOf.
    change (JsString.startsWith ("./" +:+ name) "/") with false. cbv iota.
    rewrite string_app_assoc, resolvePath_file_base by done.
    change ("./" +:+ name) with ("." +:+ String "/" name).
    rewrite split_app, (split_plain _ name) by done.
    change (JsString.split "/" ".") with ["."]. cbn [app fold_left].
    change (resolve_segment (JsString.split "/" dir) ".")
      with (JsString.split "/" dir).
    rewrite resolve_plain_segment by done.
    rewrite join_app; [|apply split_nonempty|done]. by rewrite join_split. }
  unfold rewriteAsset. rewrite Hattr.
  change (skipsReference (Some ("./" +:+ name))) with false. cbv iota.
  cbv [default from_option id]. rewrite Hpath, (get_own _ _ text) by done.
  by destruct text.
Qed.

Lemma rewriteAsset_relative_witness :
  (rewriteAsset {["/site/style.css" := "body{}"]} (indexPathOf ("/site" +:+ "/"))
     [("rel", "stylesheet"); ("href", "./style.css")]
     freshBrowser).1
  = [("rel", "stylesheet"); ("href", "blob:0")].
Proof.
  rewrite (rewriteAsset_relative _ "/site" "style.css" "body{}"); try done.
Defined.

Lemma mintsFrom_wellMinted (fs : FileSystemState) (br br' : Browser) :
  mintsFrom fs br br' → wellMinted br → wellMinted br'.
Proof.
  intros (new & H & M & U & _) Hbr url. rewrite H, fmap_app, U, elem_of_app.
  intros [Hold|(k & -> & Hk)%list_elem_of_fmap].
  - destruct (Hbr url Hold) as (k & Hk & ->). exists k. split; [lia|done].
  - apply elem_of_seq in Hk. exists k. split; [lia|done].
Qed.

(** X21. The object URL made for a project download is revoked at once: the
    live URLs after the download are exactly those before it, whatever
    previews were generated earlier. *)
Theorem downloadLink_leaves_no_handle `{platform : Platform}
    (fs : FileSystemState) (previewRoot : option string) (blob : Blob)
    (br : Browser) :
  wellMinted br →
  let br1 := (generatePreview fs previewRoot br).2 in
  wellMinted br1 ∧
  objectURLs (downloadLink blob br1).2 = objectURLs br1 ∧
  wellMinted (downloadLink blob br1).2.
Proof.
  intros Hbr. cbn zeta.
  pose proof (mintsFrom_wellMinted _ _ _ (generatePreview_mints fs previewRoot br) Hbr)
    as Hbr1.
  set (br1 := (generatePreview fs previewRoot br).2) in *.
  assert (objectURLs (downloadLink blob br1).2 = objectURLs br1) as Hsame.
  { cbn. rewrite filter_app, filter_cons_False, filter_nil, app_nil_r
      by (cbn; naive_solver).
    apply filter_all, Forall_forall. intros [url b] Hin. cbn. intros ->.
    destruct (Hbr1 (blobUrl (minted br1))) as (k & Hk & Heq).
    - apply list_elem_of_fmap. by exists (blobUrl (minted br1), b).
    - apply blobUrl_inj in Heq. lia. }
  split; [done|]. split; [done|].
  intros url. rewrite Hsame. intros Hin. destruct (Hbr1 url Hin) as (k & Hk & ->).
  exists k. split; [cbn; lia|done].
Qed.

Lemma downloadLink_leaves_no_handle_witness :
  let br1 := (generatePreview (platform := RefPlatform.platform)
                Samples.imageTable (Some "/") freshBrowser).2 in
  objectURLs (downloadLink {| blobParts := Str "PK"; blobType := "application/zip" |} br1).2
  = objectURLs br1.
Proof.
  apply (downloadLink_leaves_no_handle (platform := RefPlatform.platform)).
  intros url Hin. by apply elem_of_nil in Hin.
Defined.

(** * Further properties of the bridge *)

Section ShimRuns.
Variable pathname : string → option string.
Variable constructible : JsValue → Z → Headers → bool.
Variable parent : window.

Abbreviation run := (shimRun pathname constructible parent).

Lemma shimRun_snoc (es : list ShimEvent) (e : ShimEvent) (s : Shim) :
  run (es ++ [e]) s = shimStep pathname constructible parent (run es s) e.
Proof. unfold shimRun. by rewrite fold_left_app. Qed.

Lemma requestedIds_snoc (es : list ShimEvent) (e : ShimEvent) :
  requestedIds (es ++ [e]) = requestedIds es ++ requestedIds [e].
Proof. unfold requestedIds. by rewrite omap_app. Qed.

Lemma shimFetch_virtual (url requestId : string) (s : Shim) :
  virtualTarget url = true →
  shimFetch pathname url requestId s
  = {| pendingRequests := <[requestId := promises s]> (pendingRequests s);
       promises := S (promises s);
       settled := match pathname url with
                  | Some _ => settled s
                  | None => settled s ++ [(promises s, RejectedByExecutor)]
                  end;
       dropped := dropped s;
       toParent := match pathname url with
                   | Some absoluteUrl =>
                       toParent s ++ [FETCH_REQUEST absoluteUrl requestId]
                   | None => toParent s
                   end;
       passedThrough := passedThrough s |}.
Proof.
  unfold virtualTarget, shimFetch. intros Hv%negb_true_iff. rewrite Hv.
  by destruct (pathname url).
Qed.

Lemma shimFetch_external (url requestId : string) (s : Shim) :
  virtualTarget url = false →
  shimFetch pathname url requestId s
  = {| pendingRequests := pendingRequests s; promises := promises s;
       settled := settled s; dropped := dropped s; toParent := toParent s;
       passedThrough := passedThrough s ++ [url] |}.
Proof.
  unfold virtualTarget, shimFetch. intros Hv%negb_false_iff. by rewrite Hv.
Qed.

Lemma settle_fields (promise : nat) (how : Settlement) (s : Shim) :
  pendingRequests (settle promise how s) = pendingRequests s ∧
  promises (settle promise how s) = promises s ∧
  dropped (settle promise how s) = dropped s ∧
  toParent (settle promise how s) = toParent s ∧
  passedThrough (settle promise how s) = passedThrough s ∧
  promise ∈ (settled (settle promise how s)).*1 ∧
  ∀ k, k ∈ (settled s).*1 → k ∈ (settled (settle promise how s)).*1.
Proof.
  unfold settle. destruct (decide (promise ∈ (settled s).*1)) as [Hin|Hin].
  - by rewrite bool_decide_eq_true_2.
  - rewrite bool_decide_eq_false_2 by done. cbn. rewrite fmap_app.
    repeat split; try done.
    + apply elem_of_app. right. by apply list_elem_of_singleton.
    + intros k Hk. apply elem_of_app. by left.
Qed.

(** the listener either leaves the state as it is, or takes one pending
    promise out and settles or drops it *)
Lemma shimOnMessage_cases (event : MessageEvent) (s : Shim) :
  shimOnMessage constructible parent event s = s ∨
  ∃ requestId content st hd promise,
    source event = Some parent ∧
    data event = FETCH_RESPONSE requestId content st hd ∧
    pendingRequests s !! requestId = Some promise ∧
    let s' := shimOnMessage constructible parent event s in
    pendingRequests s' = delete requestId (pendingRequests s) ∧
    promises s' = promises s ∧
    toParent s' = toParent s ∧ passedThrough s' = passedThrough s ∧
    (∀ k, k ∈ (settled s).*1 → k ∈ (settled s').*1) ∧
    ((promise ∈ (settled s').*1 ∧ dropped s' = dropped s) ∨
     ((200 ≤ st < 300)%Z ∧ constructible content st hd = false ∧
      dropped s' = dropped s ++ [promise])).
Proof.
  unfold shimOnMessage. case_bool_decide as Hsrc; cbn [negb]; [|by left].
  destruct (data event) as [| requestId content st hd |] eqn:Hdata; try by left.
  destruct (pendingRequests s !! requestId) as [promise|] eqn:Hp; [|by left].
  right. exists requestId, content, st, hd, promise.
  split; [done|]. split; [done|]. split; [done|]. cbv zeta.
  destruct (_ && _)%Z eqn:Hr; [destruct (constructible content st hd) eqn:Hc|].
  - destruct (settle_fields promise
                (Resolved {| body := content; status := st; headers := hd |})
                (forget requestId s)) as (-> & -> & -> & -> & -> & Hin & Hmono).
    repeat split; try done. by left.
  - cbn. repeat split; try done. right.
    apply andb_true_iff in Hr as [?%Z.leb_le ?%Z.ltb_lt]. done.
  - destruct (settle_fields promise (Rejected st) (forget requestId s))
      as (-> & -> & -> & -> & -> & Hin & Hmono).
    repeat split; try done. by left.
Qed.

Lemma pending_was_requested (es : list ShimEvent) (requestId : string) :
  is_Some (pendingRequests (run es freshShim) !! requestId) →
  requestId ∈ requestedIds es.
Proof.
  induction es as [|e es IH] using rev_ind; [by intros [? ?]|].
  rewrite shimRun_snoc, requestedIds_snoc, elem_of_app.
  destruct e as [url id|event]; cbn [shimStep requestedIds omap list_omap].
  - destruct (virtualTarget url) eqn:Hv.
    + rewrite shimFetch_virtual by done. cbn. rewrite lookup_insert.
      case_decide as Hid; [subst; intros _; right; by left|]. auto.
    + rewrite shimFetch_external by done. cbn. auto.
  - destruct (shimOnMessage_cases event (run es freshShim))
      as [->|(id & content & st & hd & promise & _ & _ & _ & -> & _)]; [auto|].
    intros [k [_ Hk]%lookup_delete_Some]. left. apply IH. eauto.
Qed.

(** X22. A response whose request id this instance of the script never drew
    (a stale answer addressed to an earlier generation, or any other id) is
    discarded in every state the script can reach: nothing is settled and
    nothing else changes. *)
Theorem shim_discards_unknown_id (es : list ShimEvent) (event : MessageEvent)
    (requestId : string) (content : JsValue) (st : Z) (hd : Headers) :
  data event = FETCH_RESPONSE requestId content st hd →
  requestId ∉ requestedIds es →
  shimOnMessage constructible parent event (run es freshShim) = run es freshShim.
Proof.
  intros Hdata Hnew. eapply shimOnMessage_not_pending; [done|].
  apply eq_None_not_Some. intros Hsome. by apply Hnew, pending_was_requested.
Qed.

(** X23. When the request ids drawn are pairwise distinct, no promise
    disappears unaccounted for: in every reachable state each promise the
    script created is still pending, or settled, or was dropped by a
    response that the [Response] constructor refused.  When every response
    delivered with a status in [200, 300) is one the constructor accepts,
    nothing is dropped: each promise is pending or settled. *)
Theorem shim_conserves_promises (es : list ShimEvent) :
  NoDup (requestedIds es) →
  let s := run es freshShim in
  (∀ k, k < promises s →
        (∃ id, pendingRequests s !! id = Some k) ∨
        k ∈ (settled s).*1 ∨ k ∈ dropped s) ∧
  ((∀ event requestId content st hd,
      Deliver event ∈ es →
      data event = FETCH_RESPONSE requestId content st hd →
      (200 ≤ st < 300)%Z → constructible content st hd = true) →
   dropped s = []).
Proof.
  cbn zeta. induction es as [|e es IH] using rev_ind; intros Hnd.
  - split; [cbn; lia|done].
  - rewrite requestedIds_snoc in Hnd. apply NoDup_app in Hnd as (Hnd & Hfresh & _).
    destruct (IH Hnd) as [IHk IHd]. rewrite shimRun_snoc.
    destruct e as [url id|event]; cbn [shimStep].
    + destruct (virtualTarget url) eqn:Hv.
      * rewrite shimFetch_virtual by done. cbn [promises pendingRequests settled dropped].
        assert (pendingRequests (run es freshShim) !! id = None) as Hid.
        { apply eq_None_not_Some. intros Hsome%pending_was_requested.
          apply (Hfresh id Hsome). cbn. rewrite Hv. by left. }
        split.
        -- intros k Hk. destruct (decide (k = promises (run es freshShim))) as [->|Hne].
           ++ left. exists id. apply lookup_insert_eq.
           ++ destruct (IHk k) as [[id' Hid']|[Hs|Hd]]; [lia| | |].
              ** left. exists id'. rewrite lookup_insert_ne; [done|]. congruence.
              ** right. left. destruct (pathname url); [done|].
                 rewrite fmap_app. apply elem_of_app. by left.
              ** by right; right.
        -- intros Hok. apply IHd. intros event requestId content st hd Hin.
           apply Hok. apply elem_of_app. by left.
      * rewrite shimFetch_external by done.
        cbn [promises pendingRequests settled dropped]. split; [done|].
        intros Hok. apply IHd. intros event requestId content st hd Hin.
        apply Hok. apply elem_of_app. by left.
    + assert (dropped_ok :
        (∀ event requestId content st hd,
           Deliver event ∈ es ++ [Deliver event] →
           data event = FETCH_RESPONSE requestId content st hd →
           (200 ≤ st < 300)%Z → constructible content st hd = true) →
        dropped (run es freshShim) = []).
      { intros Hok. apply IHd. intros ev requestId content st hd Hin.
        apply Hok. apply elem_of_app. by left. }
      destruct (shimOnMessage_cases event (run es freshShim))
        as [->|(id & content & st & hd & promise & Hsrc & Hdata & Hp &
                Hpend & Hprom & _ & _ & Hmono & Hfate)].
      * split; [done|]. intros Hok. apply IHd.
        intros ev requestId content st hd Hin. apply Hok. apply elem_of_app. by left.
      * cbv zeta in *. split.
        -- rewrite Hprom, Hpend. intros k Hk.
           destruct (decide (k = promise)) as [->|Hne].
           ++ destruct Hfate as [[Hin _]|(_ & _ & ->)]; [by right; left|].
              right. right. apply elem_of_app. right. by apply list_elem_of_singleton.
           ++ destruct (IHk k Hk) as [[id' Hid']|[Hs|Hd]].
              ** left. exists id'. rewrite lookup_delete_ne; [done|].
                 intros ->. congruence.
              ** right. left. by apply Hmono.
              ** right. right. destruct Hfate as [[_ ->]|(_ & _ & ->)]; [done|].
                 apply elem_of_app. by left.
        -- intros Hok. destruct Hfate as [[_ ->]|(Hr & Hc & _)].
           ++ apply IHd. intros ev requestId content' st' hd' Hin.
              apply Hok. apply elem_of_app. by left.
           ++ rewrite (Hok event id content st hd) in Hc; [done| |done..].
              apply elem_of_app. right. by apply list_elem_of_singleton.
Qed.

(** the targets of a run none of which has a scheme or is a fragment *)
Lemma omap_all_None {A B} (f : A → option B) (l : list A) :
  (∀ x, x ∈ l → f x = None) → omap f l = [].
Proof.
  induction l as [|x l IH]; intros H; [done|]. cbn.
  rewrite H by (by left). apply IH. intros y Hy. apply H. by right.
Qed.

(** X24. The script posts one request for each call of [fetch] on a virtual
    target that the frame can resolve to a path, in call order, with that
    path and the id drawn for the call, and it posts nothing else; calls on
    external targets go to the original [fetch], in call order.  In a frame
    filled through [srcdoc] a run whose targets have neither a scheme nor a
    fragment mark posts nothing at all. *)
Theorem shim_posts_exactly (es : list ShimEvent) :
  let s := run es freshShim in
  toParent s
  = omap (λ e, match e with
               | CallFetch url requestId =>
                   if virtualTarget url
                   then (λ absoluteUrl, FETCH_REQUEST absoluteUrl requestId)
                          <$> pathname url
                   else None
               | Deliver _ => None
               end) es ∧
  passedThrough s
  = omap (λ e, match e with
               | CallFetch url _ => if virtualTarget url then None else Some url
               | Deliver _ => None
               end) es ∧
  (srcdocFrame pathname →
   (∀ url requestId, CallFetch url requestId ∈ es →
      JsString.has_char ":" url = false ∧ JsString.has_char "#" url = false) →
   toParent s = []).
Proof.
  cbn zeta.
  assert (toParent (run es freshShim)
          = omap (λ e, match e with
                       | CallFetch url requestId =>
                           if virtualTarget url
                           then (λ absoluteUrl, FETCH_REQUEST absoluteUrl requestId)
                                  <$> pathname url
                           else None
                       | Deliver _ => None
                       end) es ∧
          passedThrough (run es freshShim)
          = omap (λ e, match e with
                       | CallFetch url _ => if virtualTarget url then None else Some url
                       | Deliver _ => None
                       end) es) as [H1 H2].
  { induction es as [|e es [IH1 IH2]] using rev_ind; [done|].
    rewrite shimRun_snoc, !omap_app. cbn [omap list_omap].
    destruct e as [url id|event]; cbn [shimStep].
    - destruct (virtualTarget url) eqn:Hv.
      + rewrite shimFetch_virtual by done. cbn [toParent passedThrough].
        rewrite IH2, app_nil_r. split; [|done].
        destruct (pathname url); cbn; by rewrite IH1, ?app_nil_r.
      + rewrite shimFetch_external by done. cbn. by rewrite IH1, IH2, app_nil_r.
    - rewrite !app_nil_r.
      destruct (shimOnMessage_cases event (run es freshShim))
        as [->|(id & content & st & hd & promise & _ & _ & _ & _ & _ & -> & -> & _)];
        done. }
  split; [done|]. split; [done|].
  intros Hframe Hplain. rewrite H1. apply omap_all_None.
  intros [url requestId|event] Hin; [|done].
  destruct (Hplain url requestId Hin) as [Hcolon Hhash].
  rewrite (Hframe url) by done. by destruct (virtualTarget url).
Qed.

End ShimRuns.

Lemma refPathname_srcdoc : srcdocFrame RefPlatform.pathname.
Proof.
  intros url Hcolon Hhash. unfold RefPlatform.pathname.
  rewrite split_plain by done.
  destruct url as [|c url]; [done|]. cbn in Hhash.
  apply orb_false_iff in Hhash as [Hc _].
  unfold JsString.startsWith. cbn [String.prefix].
  destruct (ascii_dec "#" c) as [<-|]; [done|done].
Qed.

Lemma shim_discards_unknown_id_witness :
  let es := [CallFetch "app:/data.json" "req_2"] in
  let stale := {| source := Some 0;
                  data := FETCH_RESPONSE "req_1" (Str "{}") 200 [] |} in
  shimOnMessage RefPlatform.constructible 0 stale
    (shimRun RefPlatform.pathname RefPlatform.constructible 0 es freshShim)
  = shimRun RefPlatform.pathname RefPlatform.constructible 0 es freshShim.
Proof.
  intros es stale.
  apply (shim_discards_unknown_id _ _ 0 es stale "req_1" (Str "{}") 200 []); [done|].
  cbn. intros H%list_elem_of_singleton. discriminate H.
Defined.

Lemma shim_conserves_promises_witness :
  let s := shimRun RefPlatform.pathname RefPlatform.constructible 0
             [CallFetch "app:/a.json" "req_1"; CallFetch "b.json" "req_2";
              Deliver {| source := Some 0;
                         data := FETCH_RESPONSE "req_1" (Str "{}") 200 [] |}]
             freshShim in
  (∀ k, k < promises s →
        (∃ id, pendingRequests s !! id = Some k) ∨
        k ∈ (settled s).*1 ∨ k ∈ dropped s) ∧
  dropped s = [].
Proof.
  destruct (shim_conserves_promises RefPlatform.pathname RefPlatform.constructible 0
              [CallFetch "app:/a.json" "req_1"; CallFetch "b.json" "req_2";
               Deliver {| source := Some 0;
                          data := FETCH_RESPONSE "req_1" (Str "{}") 200 [] |}])
    as [Hall Hnone].
  - cbn. apply NoDup_cons. split; [|apply NoDup_singleton].
    intros H%list_elem_of_singleton. discriminate H.
  - split; [exact Hall|]. apply Hnone.
    intros event requestId content st hd Hin Hdata _.
    repeat (apply elem_of_cons in Hin as [Hin|Hin]; [try discriminate Hin|]).
    + injection Hin as ->. cbn in Hdata. by injection Hdata as <- <- <- <-.
    + by apply elem_of_nil in Hin.
Defined.

Lemma shim_posts_exactly_witness :
  toParent (shimRun RefPlatform.pathname RefPlatform.constructible 0
              [CallFetch "data.json" "req_1"; CallFetch "/api/items" "req_2"]
              freshShim) = [].
Proof.
  destruct (shim_posts_exactly RefPlatform.pathname RefPlatform.constructible 0
              [CallFetch "data.json" "req_1"; CallFetch "/api/items" "req_2"])
    as (_ & _ & Hnone).
  apply Hnone; [apply refPathname_srcdoc|].
  intros url requestId Hin.
  repeat (apply elem_of_cons in Hin as [Hin|Hin];
          [injection Hin as -> _; split; reflexivity|]).
  by apply elem_of_nil in Hin.
Defined.

(** X25. Whatever events arrive, the host listener only ever posts answers:
    each message it sends goes to the frame it owns, is a [FETCH_RESPONSE]
    and carries status 200 or 404; it sends at most one per event and never
    changes the file table or the frame. *)
Theorem hostRun_only_answers (events : list MessageEvent) (h : Host) :
  ∃ new,
    posted (hostRun events h) = posted h ++ new ∧
    Forall (isAnswerTo (iframe h)) new ∧
    length new ≤ length events ∧
    fileSystem (hostRun events h) = fileSystem h ∧
    iframe (hostRun events h) = iframe h.
Proof.
  unfold hostRun. revert h. induction events as [|event events IH]; intros h.
  - exists []. by rewrite app_nil_r.
  - cbn [fold_left length].
    assert (∃ one, posted (handleIframeMessage event h) = posted h ++ one ∧
                   Forall (isAnswerTo (iframe h)) one ∧ length one ≤ 1 ∧
                   fileSystem (handleIframeMessage event h) = fileSystem h ∧
                   iframe (handleIframeMessage event h) = iframe h)
      as (one & H1 & F1 & L1 & Hfs & Hfr).
    { assert (∀ w m, iframe h = Some w →
                (∃ requestId content st hd,
                   m = FETCH_RESPONSE requestId content st hd ∧
                   (st = 200 ∨ st = 404)%Z) →
                ∃ one, posted (postMessage w m h) = posted h ++ one ∧
                       Forall (isAnswerTo (iframe h)) one ∧ length one ≤ 1 ∧
                       fileSystem (postMessage w m h) = fileSystem h ∧
                       iframe (postMessage w m h) = iframe h) as Hpost.
      { intros w m Hw Hm. unfold postMessage. destruct (cloneable m).
        - eexists [_]. cbn. split; [done|]. split; [|done].
          constructor; [|constructor]. by split.
        - exists []. cbn. rewrite app_nil_r. repeat split; [constructor|lia]. }
      assert (handleIframeMessage event h = h ∨
              ∃ w m, iframe h = Some w ∧
                     (∃ requestId content st hd,
                        m = FETCH_RESPONSE requestId content st hd ∧
                        (st = 200 ∨ st = 404)%Z) ∧
                     handleIframeMessage event h = postMessage w m h)
        as [->|(w & m & Hw & Hm & ->)].
      { unfold handleIframeMessage.
        destruct (iframe h) as [w|]; [|by left].
        destruct (negb _); [by left|].
        destruct (data event) as [path requestId| |]; try by left.
        right. destruct (JsObject.get (fileSystem h) path);
          eexists w, _; (split; [done|]); (split; [|done]); eauto 10. }
      - exists []. rewrite app_nil_r. repeat split; [constructor|cbn; lia].
      - by apply Hpost. }
    destruct (IH (handleIframeMessage event h)) as (new & H2 & F2 & L2 & Hfs2 & Hfr2).
    exists (one ++ new). rewrite H2, H1, Hfs2, Hfr2, Hfs, Hfr, length_app.
    repeat split; [by rewrite app_assoc| |lia].
    apply Forall_app. split; [done|]. by rewrite <-Hfr.
Qed.

(** * Further properties of the overlay *)

Section OverlayFacts.
Context {platform : Platform}.

Lemma storeBody_frame (prev next : FileSystemState) (htmlPath : string)
    (htmlDoc : node) (k : string) :
  storeBody prev htmlPath htmlDoc = Returns next → k ≠ htmlPath →
  next !! k = prev !! k.
Proof.
  unfold storeBody. destruct (body_of htmlDoc); [|done].
  intros [= <-] Hk. by rewrite lookup_insert_ne.
Qed.

(** X26. The overlay writes to the root document entry only: a commit, an
    alignment or an emphasis toggle that returns leaves every other entry of
    the table as it was.  When the identifier is made of plain characters
    and no element carries it, or nothing is selected, the table is returned
    unchanged.  When the selector built from the identifier is refused, the
    updater raises and no table is returned. *)
Theorem overlay_frame (previewRoot : option string) (id newContent : string)
    (updateFn : node → node) (prev next : FileSystemState) (k : string) :
  k ≠ indexPathOf (interpolate previewRoot) →
  (updateCodeFromDOM previewRoot id newContent prev = Returns next →
   next !! k = prev !! k) ∧
  (updateElementInCode previewRoot id updateFn prev = Returns next →
   next !! k = prev !! k) ∧
  (plainId id = true →
   querySelector (editableSelector id) (rootDocument previewRoot prev) = None →
   updateCodeFromDOM previewRoot id newContent prev = Returns prev ∧
   updateElementInCode previewRoot id updateFn prev = Returns prev) ∧
  (plainId id = false →
   querySelectorText (selectorText id) (rootDocument previewRoot prev) = None →
   updateCodeFromDOM previewRoot id newContent prev = Throws "SyntaxError" ∧
   updateElementInCode previewRoot id updateFn prev = Throws "SyntaxError") ∧
  (∀ alignment style,
     handleAlign previewRoot None alignment prev = Returns prev ∧
     handleStyle previewRoot (Some "") style prev = Returns prev).
Proof.
  intros Hk. unfold updateCodeFromDOM, updateElementInCode.
  fold (rootDocument previewRoot prev). unfold queryEditable.
  split; [|split; [|split; [|split]]].
  - destruct (plainId id);
      [destruct (querySelector _ _)|destruct (querySelectorText _ _) as [[?|]|]];
      try done; try (by intros [= <-]); intros H; by eapply storeBody_frame.
  - destruct (plainId id);
      [destruct (querySelector _ _)|destruct (querySelectorText _ _) as [[?|]|]];
      try done; try (by intros [= <-]); intros H; by eapply storeBody_frame.
  - by intros -> ->.
  - by intros -> ->.
  - done.
Qed.

(** X27. Alignment is absolute: aligning an element one way and then another
    stores the same table as aligning it the second way alone.  This holds
    for an identifier of plain characters, an element found strictly inside
    the body that is not aligned the second way to begin with, and a
    platform that reads the stored markup and the written style text back
    as written. *)
Theorem handleAlign_last_wins (previewRoot : option string) (elementId : string)
    (prev : FileSystemState) (bi j : nat) (p : path)
    (tag : string) (a : attrs) (ch : list node) (first second : Alignment) :
  plainId elementId = true → elementId ≠ "" →
  selectedInBody (rootDocument previewRoot prev) elementId bi j p →
  node_at (bi :: j :: p) (rootDocument previewRoot prev) = Some (Element tag a ch) →
  readsBack (editedBody previewRoot elementId (alignElement first) prev) →
  styleReadsBack (decl_set "text-align" (alignmentText first) (style_block a)) →
  declared_as "text-align" (alignmentText second) (style_block a) = false →
  andThen (handleAlign previewRoot (Some elementId) first prev)
          (handleAlign previewRoot (Some elementId) second)
  = handleAlign previewRoot (Some elementId) second prev.
Proof.
  intros Hplain Hid Hsel Hat Hread Hstyle Hnot.
  rewrite (andThen_ext _ _
    (updateElementInCode previewRoot elementId (alignElement second)))
    by (intros; by apply handleAlign_selected).
  rewrite !handleAlign_selected by done.
  apply (two_edits previewRoot elementId Hplain _ _ _ prev bi j p tag a ch);
    [intros; apply editableSelector_style_set|done..|].
  apply style_set_then; [by destruct first|by destruct second|done..].
Qed.

End OverlayFacts.

Lemma overlay_frame_witness :
  match updateCodeFromDOM (platform := RefPlatform.platform) (Some "/") "x" "new"
          (<["/style.css" := "p{}"]> Samples.pageTable) with
  | Returns next => next !! "/style.css"
  | Throws _ => None
  end = Some "p{}" ∧
  updateElementInCode (platform := RefPlatform.platform) (Some "/")
    (String "a" (String dquote "b")) (λ n, n) Samples.pageTable
  = Throws "SyntaxError".
Proof.
  split.
  - destruct (updateCodeFromDOM (platform := RefPlatform.platform) (Some "/") "x" "new"
                (<["/style.css" := "p{}"]> Samples.pageTable)) as [next|e] eqn:Hnext;
      [|vm_compute in Hnext; discriminate Hnext].
    destruct (overlay_frame (platform := RefPlatform.platform) (Some "/") "x" "new"
                (λ n, n) (<["/style.css" := "p{}"]> Samples.pageTable) next "/style.css")
      as [Hcommit _]; [discriminate|].
    rewrite (Hcommit Hnext). vm_compute. reflexivity.
  - destruct (overlay_frame (platform := RefPlatform.platform) (Some "/")
                (String "a" (String dquote "b")) "new"
                (λ n, n) Samples.pageTable Samples.pageTable "/style.css")
      as (_ & _ & _ & Hraise & _); [discriminate|].
    apply Hraise; reflexivity.
Defined.

Lemma handleAlign_last_wins_witness :
  andThen (handleAlign (platform := RefPlatform.platform)
             (Some "/") (Some "x") AlignLeft Samples.styledTable)
          (handleAlign (platform := RefPlatform.platform)
             (Some "/") (Some "x") AlignRight)
  = handleAlign (platform := RefPlatform.platform)
      (Some "/") (Some "x") AlignRight Samples.styledTable.
Proof.
  apply (handleAlign_last_wins (platform := RefPlatform.platform)
           (Some "/") "x" Samples.styledTable 1 0 [] "p"
           [("data-editable-id", "x"); ("style", "color:red")] [Text "hi"]).
  - reflexivity.
  - discriminate.
  - split; vm_compute; reflexivity.
  - vm_compute. reflexivity.
  - vm_compute. reflexivity.
  - vm_compute. reflexivity.
  - vm_compute. reflexivity.
Defined.

(** An element that is aligned the second way to begin with, in text its
    author wrote, keeps that text when aligned the second way alone, and
    gets the platform's text when aligned another way first: the two
    tables differ. *)
Example handleAlign_keeps_verbatim_text :
  let table : FileSystemState :=
    {[ "/index.html" :=
         RefPlatform.innerHTML [Samples.paragraph [("style", "text-align:center")]] ]} in
  handleAlign (platform := RefPlatform.platform) (Some "/") (Some "x") AlignCenter table
  = Returns table ∧
  andThen (handleAlign (platform := RefPlatform.platform)
             (Some "/") (Some "x") AlignLeft table)
          (handleAlign (platform := RefPlatform.platform)
             (Some "/") (Some "x") AlignCenter)
  = Returns {[ "/index.html" :=
       RefPlatform.innerHTML
         [Samples.paragraph [("style", "text-align: center;")]] ]}.
Proof. vm_compute. split; reflexivity. Qed.

